(** * Transport providers: correlation, reconnection, broadcast and permissions

    A shallow embedding of the TypeScript sources
      - providers/browser-extention-server/src/chrome-extension-transport.ts
      - packages/browser-extention-server/src/security/extension-authorization-provider.ts
      - chrome-transport.ts of packages/chrome (src/unnamed/part_003)
      - packages/nats/src/nats-transport.ts
    and the properties of the specification stated over it.

    Conventions.  A JavaScript [Map] that is iterated is an insertion-ordered
    association list; a [Map] or object that is only looked up by key is a
    [gmap].  The functions [resolve] and [reject] of a promise are identified
    with the promise they settle; every call of one of them is recorded in the
    log of effects of the model, as are the calls of the chrome and NATS
    primitives.  Strings are sequences of code units. *)

From Stdlib Require Import String Ascii List ZArith QArith Lia Bool.
From stdpp Require Import base option list gmap strings.

Open Scope string_scope.

(** ** JavaScript string and Map primitives *)

Module Js.

(** [s.startsWith(p)] *)
Definition startsWith (s p : string) : bool := String.prefix p s.

(** [s.endsWith(suffix)]: the code units of [s] from
    [s.length - suffix.length] on are those of [suffix]. *)
Definition endsWith (s suffix : string) : bool :=
  (String.length suffix <=? String.length s)%nat &&
  String.eqb
    (String.substring (String.length s - String.length suffix)
                      (String.length suffix) s)
    suffix.

(** [s.slice(0, -1)] *)
Definition slice_0_m1 (s : string) : string :=
  String.substring 0 (String.length s - 1) s.

(** [s.includes('*')] on a string. *)
Fixpoint includesStar (s : string) : bool :=
  match s with
  | EmptyString => false
  | String c r => Ascii.eqb c "*"%char || includesStar r
  end.

(** [s.replace(/\*/g, '.*')] *)
Fixpoint replaceStars (s : string) : string :=
  match s with
  | EmptyString => EmptyString
  | String c r =>
      if Ascii.eqb c "*"%char then String "."%char (String "*"%char (replaceStars r))
      else String c (replaceStars r)
  end.

(** [xs.includes(x)] on an array of strings. *)
Definition includes (x : string) (xs : list string) : bool :=
  existsb (String.eqb x) xs.

(** Truthiness of a string value: [""] is falsy. *)
Definition truthy (s : string) : bool := negb (String.eqb s "").

(** [o || d] on an optional string: [undefined] and [""] give [d]. *)
Definition orElse (o : option string) (d : string) : string :=
  match o with
  | Some s => if truthy s then s else d
  | None => d
  end.

(** An insertion-ordered [Map<string, V>]. *)
Section OrderedMap.
Context {V : Type}.

Definition JsMap := list (string * V).

Fixpoint get (k : string) (m : JsMap) : option V :=
  match m with
  | [] => None
  | (k', v) :: r => if String.eqb k k' then Some v else get k r
  end.

(** [m.set(k, v)]: an existing key keeps its position. *)
Fixpoint set (k : string) (v : V) (m : JsMap) : JsMap :=
  match m with
  | [] => [(k, v)]
  | (k', v') :: r =>
      if String.eqb k k' then (k', v) :: r else (k', v') :: set k v r
  end.

(** [m.delete(k)] *)
Fixpoint delete (k : string) (m : JsMap) : JsMap :=
  match m with
  | [] => []
  | (k', v') :: r =>
      if String.eqb k k' then r else (k', v') :: delete k r
  end.

End OrderedMap.
Arguments JsMap V : clear implicits.

End Js.

(** ** The permission matcher (extension-authorization-provider.ts) *)

Module Authz.

Record ComponentPermission := {
  canHandle : list string;
  canSend : list string;
  canBroadcast : bool;
  additionalPermissions : option (list (string * bool))
}.

(** An entry of [contentScriptOriginPermissions]. *)
Record OriginPermission := {
  originCanHandle : list string;
  originCanSend : list string;
  originCanBroadcast : bool
}.

(** [ExtensionAuthorizationProviderConfig]: every field is optional. *)
Record ExtensionAuthorizationProviderConfig := {
  permissions : option (gmap string ComponentPermission);
  allowUndefinedMessages : option bool;
  enforceContentScriptOrigins : option bool;
  (* in the order of [Object.keys] *)
  contentScriptOriginPermissions : option (list (string * OriginPermission))
}.

(** [this.config] once the constructor has filled in the defaults. *)
Record Provider := {
  cfgPermissions : gmap string ComponentPermission;
  cfgAllowUndefinedMessages : bool;
  cfgEnforceContentScriptOrigins : bool;
  cfgContentScriptOriginPermissions : list (string * OriginPermission)
}.

(** The parts of a [MessageContext] that [checkPermission] reads. *)
Record MessageContext := {
  source : option string;
  userRoles : option (list string);
  metaComponentType : option string
}.

Record PermissionCheckResult := {
  isAuthorized : bool;
  error : option string
}.

Definition permission (h s : list string) (b : bool) : ComponentPermission :=
  {| canHandle := h; canSend := s; canBroadcast := b;
     additionalPermissions := None |}.

Definition defaultPermissions : gmap string ComponentPermission :=
  <["background" := permission ["*"] ["*"] true]>
  (<["content" := permission ["dom:*"; "page:*"; "content:*"]
                             ["page:*"; "dom:*"; "settings:get"] false]>
  (<["popup" := permission ["ui:*"] ["settings:*"; "ui:*"] false]>
  (<["sidepanel" := permission ["ui:*"; "panel:*"]
                               ["settings:*"; "panel:*"; "ui:*"] false]>
  (<["options" := permission ["settings:*"; "options:*"]
                             ["settings:*"; "options:*"] false]> ∅)))).

(** [{ ...base, ...over }] for two component permissions: the three
    required fields come from [over], the optional one from [over] when it
    has it. *)
Definition spread (base over : ComponentPermission) : ComponentPermission :=
  {| canHandle := canHandle over;
     canSend := canSend over;
     canBroadcast := canBroadcast over;
     additionalPermissions :=
       match additionalPermissions over with
       | Some a => Some a
       | None => additionalPermissions base
       end |}.

(** The loop over [Object.entries(config.permissions)] of the constructor. *)
Definition mergePermissions (given : gmap string ComponentPermission)
  : gmap string ComponentPermission :=
  map_imap
    (fun componentType p =>
       Some (spread (default (permission [] [] false)
                             (defaultPermissions !! componentType)) p))
    given
  ∪ defaultPermissions.

(** The constructor.  The object literal lists [permissions: mergedPermissions]
    first and spreads [...config] last, so a field that [config] has wins. *)
Definition constructor (config : ExtensionAuthorizationProviderConfig) : Provider :=
  let mergedPermissions :=
    match permissions config with
    | Some given => mergePermissions given
    | None => defaultPermissions
    end in
  {| cfgPermissions := default mergedPermissions (permissions config);
     cfgAllowUndefinedMessages := default false (allowUndefinedMessages config);
     cfgEnforceContentScriptOrigins :=
       default true (enforceContentScriptOrigins config);
     cfgContentScriptOriginPermissions :=
       default [] (contentScriptOriginPermissions config) |}.

(** [isMessageAllowed(messageType, allowedPatterns)] *)
Definition isMessageAllowed (messageType : string) (allowedPatterns : list string)
  : bool :=
  if Js.includes "*" allowedPatterns then true
  else if Js.includes messageType allowedPatterns then true
  else existsb
         (fun pattern =>
            if Js.endsWith pattern ":*"
            then Js.startsWith messageType (Js.slice_0_m1 pattern)
            else false)
         allowedPatterns.

Section CheckPermission.

(** [new RegExp(pattern).test(subject)], the regular expression engine of the
    host. *)
Variable regExpTest : string -> string -> bool.

(** The component type of a context: [meta.componentType], else the first
    role, else ["unknown"]. *)
Definition componentTypeOf (context : MessageContext) : string :=
  match metaComponentType context with
  | Some c =>
      if Js.truthy c then c
      else match userRoles context with
           | Some (r :: _) => r
           | _ => "unknown"
           end
  | None =>
      match userRoles context with
      | Some (r :: _) => r
      | _ => "unknown"
      end
  end.

(** The predicate given to [find] over the origin patterns. *)
Definition originMatches (src origin : string) : bool :=
  if Js.includesStar origin
  then regExpTest ("^" ++ Js.replaceStars origin ++ "$") src
  else Js.startsWith src origin.

Definition findOrigin (src : string) (origins : list (string * OriginPermission))
  : option (string * OriginPermission) :=
  List.find (fun e => originMatches src (fst e)) origins.

(** The role-based part of [checkPermission] (after the origin block). *)
Definition checkRole (componentType messageType : string)
    (p : ComponentPermission) (isBroadcast : bool) : PermissionCheckResult :=
  if isBroadcast && negb (canBroadcast p) then
    {| isAuthorized := false;
       error := Some ("Component type " ++ componentType ++
                      " is not allowed to broadcast messages") |}
  else
    let relevantPermissions :=
      if Js.startsWith messageType "request:" then canHandle p else canSend p in
    if negb (isMessageAllowed messageType relevantPermissions) then
      {| isAuthorized := false;
         error := Some ("Component type " ++ componentType ++
                        " is not allowed to " ++
                        (if Js.startsWith messageType "request:"
                         then "handle" else "send") ++
                        " message type: " ++ messageType) |}
    else {| isAuthorized := true; error := None |}.

(** The origin-specific part, once a matching origin pattern is found. *)
Definition checkOrigin (src messageType : string)
    (o : OriginPermission) (isBroadcast : bool) : PermissionCheckResult :=
  if isBroadcast && negb (originCanBroadcast o) then
    {| isAuthorized := false;
       error := Some ("Origin " ++ src ++
                      " is not allowed to broadcast messages") |}
  else
    let relevantPermissions :=
      if isBroadcast then originCanSend o
      else if Js.startsWith messageType "request:" then originCanHandle o
           else originCanSend o in
    if negb (isMessageAllowed messageType relevantPermissions) then
      {| isAuthorized := false;
         error := Some ("Origin " ++ src ++ " is not allowed to " ++
                        (if isBroadcast then "broadcast" else "send") ++
                        " message type: " ++ messageType) |}
    else {| isAuthorized := true; error := None |}.

(** The origin block of [checkPermission]: the entry of
    [contentScriptOriginPermissions] that replaces the permissions of the
    component type, if any. *)
Definition originOverride (this : Provider) (componentType : string)
    (context : MessageContext) : option (string * OriginPermission) :=
  if cfgEnforceContentScriptOrigins this
     && String.eqb componentType "content"
     && Js.truthy (default "" (source context))
     && (0 <? List.length (cfgContentScriptOriginPermissions this))%nat
  then findOrigin (default "" (source context))
                  (cfgContentScriptOriginPermissions this)
  else None.

(** [checkPermission(messageType, context, isBroadcast)] *)
Definition checkPermission (this : Provider) (messageType : string)
    (context : MessageContext) (isBroadcast : bool) : PermissionCheckResult :=
  let componentType := componentTypeOf context in
  match cfgPermissions this !! componentType with
  | None =>
      {| isAuthorized := cfgAllowUndefinedMessages this;
         error := Some ("No permissions defined for component type: " ++
                        componentType) |}
  | Some p =>
      match originOverride this componentType context with
      | Some (_, o) =>
          checkOrigin (default "" (source context)) messageType o isBroadcast
      | None => checkRole componentType messageType p isBroadcast
      end
  end.

End CheckPermission.

End Authz.

(** ** The correlation engine (chrome-extension-transport.ts) *)

Module ExtTransport.

Inductive ComponentType := background | content | popup | sidepanel | options.

Definition componentType_eqb (a b : ComponentType) : bool :=
  match a, b with
  | background, background | content, content | popup, popup
  | sidepanel, sidepanel | options, options => true
  | _, _ => false
  end.

Record ChromeExtensionTransportConfig := {
  componentType : ComponentType;
  targetTabId : option Z;
  handleResponses : option bool;
  configNamespace : option string
}.

(** The [error] object of a response: [{ code, message }]. *)
Record ErrorInfo := { code : string; errorMessage : string }.

(** What a promise is rejected with: [new Error(msg)] or the error object
    carried by a response. *)
Inductive Rejection :=
| JsError (msg : string)
| RemoteError (e : ErrorInfo).

(** [chrome.runtime.MessageSender] *)
Record MessageSender := {
  url : option string;
  senderId : option string;
  senderTabId : option Z;
  frameId : option Z
}.

(** [MessageContext], as built for a handler and as read by [send]. *)
Record MessageContext := {
  ctxSource : string;
  ctxTimestamp : N;
  ctxUserId : string;
  ctxTabId : option Z;
  ctxFrameId : option Z;
  ctxComponentType : string
}.

(** An entry of [responseHandlers]. *)
Record ResponseHandler := { resolve : nat; reject : nat; timeout : nat }.

(** The arrow function given to [setTimeout], by what it closes over. *)
Record TimeoutClosure := {
  tcCorrelationId : string;
  tcReject : nat;
  tcType : string
}.

Record Timer := { deadline : N; closure : TimeoutClosure }.

(** The callback given to [chrome.tabs.sendMessage] or
    [chrome.runtime.sendMessage], by what it closes over. *)
Record SendCallback := {
  cbCorrelationId : string;
  cbTimeout : nat;
  cbResolve : nat;
  cbReject : nat;
  cbFallback : string
}.

Definition MESSAGE_TIMEOUT : N := 30000.

Section Transport.
Context {Payload : Type}.

(** [Message] of the messaging library. *)
Record Message := {
  msgId : string;
  msgType : string;
  msgPayload : option Payload;
  msgCorrelationId : option string
}.

Record TransportMessage := {
  tmId : string;
  tmType : string;
  tmPayload : option Payload;
  tmTimestamp : N;
  tmCorrelationId : option string
}.

(** The object that [send] and [broadcast] hand to chrome. *)
Record WrappedMessage := {
  wNamespace : string;
  wComponentType : ComponentType;
  wData : TransportMessage;
  wAction : option string
}.

(** An untyped message as it arrives ([message: any], [response]): every
    field may be missing. *)
Record RawData := {
  dataId : option string;
  dataType : option string;
  dataCorrelationId : option string;
  dataPayload : option Payload;
  dataError : option ErrorInfo
}.

Record RawMessage := {
  rawNamespace : option string;
  rawComponentType : option string;
  rawData : option RawData
}.

(** The calls the transport makes on its host, in the order it makes them. *)
Inductive Effect :=
| CallResolve (p : nat) (v : option Payload)
| CallReject (p : nat) (e : Rejection)
| SetTimeout (t : nat) (delay : N)
| ClearTimeout (t : nat)
| RuntimeSendMessage (m : WrappedMessage) (cb : option nat)
| TabsSendMessage (tabId : Z) (m : WrappedMessage) (cb : option nat)
| TabsQuery
| InvokeHandler (h : nat) (p : option Payload) (c : MessageContext)
                (requestId : option string) (sendResponse : option nat)
| SendResponse (sr : nat) (m : RawMessage)
| AddMessageListener
| AddConnectListener
| RemoveMessageListener.

(** The transport object with the part of the host it depends on. *)
Record World := {
  config : ChromeExtensionTransportConfig;
  namespace : string;
  messageHandlers : gmap string nat;
  responseHandlers : Js.JsMap ResponseHandler;
  (* host *)
  now : N;
  timers : list (nat * Timer);        (* armed timers, oldest first *)
  callbacks : gmap nat SendCallback;  (* callbacks chrome has yet to call *)
  nextId : nat;                       (* next promise, timer and callback *)
  listening : bool;                   (* registered on chrome.runtime.onMessage *)
  effects : list Effect
}.

Definition setMessageHandlers (x : gmap string nat) (w : World) : World :=
  {| config := config w; namespace := namespace w; messageHandlers := x;
     responseHandlers := responseHandlers w; now := now w; timers := timers w;
     callbacks := callbacks w; nextId := nextId w; listening := listening w;
     effects := effects w |}.

Definition setResponseHandlers (x : Js.JsMap ResponseHandler) (w : World) : World :=
  {| config := config w; namespace := namespace w;
     messageHandlers := messageHandlers w;
     responseHandlers := x; now := now w; timers := timers w;
     callbacks := callbacks w; nextId := nextId w; listening := listening w;
     effects := effects w |}.

Definition setNow (x : N) (w : World) : World :=
  {| config := config w; namespace := namespace w;
     messageHandlers := messageHandlers w;
     responseHandlers := responseHandlers w; now := x; timers := timers w;
     callbacks := callbacks w; nextId := nextId w; listening := listening w;
     effects := effects w |}.

Definition setTimers (x : list (nat * Timer)) (w : World) : World :=
  {| config := config w; namespace := namespace w;
     messageHandlers := messageHandlers w;
     responseHandlers := responseHandlers w; now := now w; timers := x;
     callbacks := callbacks w; nextId := nextId w; listening := listening w;
     effects := effects w |}.

Definition setCallbacks (x : gmap nat SendCallback) (w : World) : World :=
  {| config := config w; namespace := namespace w;
     messageHandlers := messageHandlers w;
     responseHandlers := responseHandlers w; now := now w; timers := timers w;
     callbacks := x; nextId := nextId w; listening := listening w;
     effects := effects w |}.

Definition setNextId (x : nat) (w : World) : World :=
  {| config := config w; namespace := namespace w;
     messageHandlers := messageHandlers w;
     responseHandlers := responseHandlers w; now := now w; timers := timers w;
     callbacks := callbacks w; nextId := x; listening := listening w;
     effects := effects w |}.

Definition setListening (x : bool) (w : World) : World :=
  {| config := config w; namespace := namespace w;
     messageHandlers := messageHandlers w;
     responseHandlers := responseHandlers w; now := now w; timers := timers w;
     callbacks := callbacks w; nextId := nextId w; listening := x;
     effects := effects w |}.

Definition emit (e : Effect) (w : World) : World :=
  {| config := config w; namespace := namespace w;
     messageHandlers := messageHandlers w;
     responseHandlers := responseHandlers w; now := now w; timers := timers w;
     callbacks := callbacks w; nextId := nextId w; listening := listening w;
     effects := effects w ++ [e] |}.

(** *** Host primitives *)

Definition disarm (t : nat) (ts : list (nat * Timer)) : list (nat * Timer) :=
  List.filter (fun x => negb (Nat.eqb (fst x) t)) ts.

(** [clearTimeout(t)] *)
Definition clearTimeout (t : nat) (w : World) : World :=
  emit (ClearTimeout t) (setTimers (disarm t (timers w)) w).

(** [setTimeout(closure, delay)] with the timer named [t]. *)
Definition setTimeout (t : nat) (c : TimeoutClosure) (delay : N) (w : World)
  : World :=
  emit (SetTimeout t delay)
       (setTimers (timers w ++ [(t, {| deadline := now w + delay;
                                       closure := c |})]) w).

Definition callResolve (p : nat) (v : option Payload) : World -> World :=
  emit (CallResolve p v).

Definition callReject (p : nat) (e : Rejection) : World -> World :=
  emit (CallReject p e).

(** [this.responseHandlers.delete(k)] *)
Definition deleteResponseHandler (k : string) (w : World) : World :=
  setResponseHandlers (Js.delete k (responseHandlers w)) w.

(** *** The constructor and [setupMessageListeners] *)

Definition setupMessageListeners (w : World) : World :=
  match componentType (config w) with
  | background =>
      emit AddConnectListener (emit AddMessageListener (setListening true w))
  | _ => emit AddMessageListener (setListening true w)
  end.

(** [new ChromeExtensionTransport(config)] on a host whose clock shows
    [clock]. *)
Definition constructor (cfg : ChromeExtensionTransportConfig) (clock : N) : World :=
  setupMessageListeners
    {| config := cfg;
       namespace := Js.orElse (configNamespace cfg) "magicbutton";
       messageHandlers := ∅;
       responseHandlers := [];
       now := clock; timers := []; callbacks := ∅; nextId := 0;
       listening := false; effects := [] |}.

(** *** [handleIncomingMessage] *)

(** How a call ends: it returns a value or throws. *)
Inductive Outcome := Returned (b : bool) | Threw.

Definition optTruthy (o : option string) : bool :=
  match o with Some s => Js.truthy s | None => false end.

Definition optEq (o : option string) (s : string) : bool :=
  match o with Some x => String.eqb x s | None => false end.

Definition respondsAllowed (w : World) : bool :=
  match handleResponses (config w) with
  | Some false => false
  | _ => true
  end.

Definition handleIncomingMessage (w : World) (message : option RawMessage)
    (sender : MessageSender) (sendResponse : option nat) : Outcome * World :=
  match message with
  | None => (Returned false, w)
  | Some m =>
      if negb (optTruthy (rawNamespace m))
         || negb (optEq (rawNamespace m) (namespace w))
      then (Returned false, w)
      else
        match rawData m with
        | None => (Threw, w)   (* [transportMessage.type] of [undefined] *)
        | Some transportMessage =>
            if optEq (dataType transportMessage) "response"
               && optTruthy (dataCorrelationId transportMessage)
            then
              let correlationId := default "" (dataCorrelationId transportMessage) in
              match Js.get correlationId (responseHandlers w) with
              | Some responseHandler =>
                  let w1 := deleteResponseHandler correlationId w in
                  let w2 := clearTimeout (timeout responseHandler) w1 in
                  match dataError transportMessage with
                  | Some e =>
                      (Returned false,
                       callReject (reject responseHandler) (RemoteError e) w2)
                  | None =>
                      (Returned false,
                       callResolve (resolve responseHandler)
                                   (dataPayload transportMessage) w2)
                  end
              | None => (Returned false, w)
              end
            else
              match dataType transportMessage ≫= (fun t => messageHandlers w !! t) with
              | Some handler =>
                  let context :=
                    {| ctxSource := Js.orElse (url sender) "unknown";
                       ctxTimestamp := now w;
                       ctxUserId := Js.orElse (senderId sender) "unknown";
                       ctxTabId := senderTabId sender;
                       ctxFrameId := frameId sender;
                       ctxComponentType :=
                         Js.orElse (rawComponentType m) "unknown" |} in
                  (Returned (respondsAllowed w),
                   emit (InvokeHandler handler (dataPayload transportMessage)
                                       context (dataId transportMessage)
                                       sendResponse) w)
              | None => (Returned false, w)
              end
        end
  end.

(** The continuation of a handler call: [.then] on a result, [.catch] on an
    error; [errCode] and [errMessage] are [error.code] and [error.message]
    when the error has them, [shown] is [String(error)]. *)
Definition handlerSettled (w : World) (requestId : option string)
    (sendResponse : option nat)
    (outcome : option Payload + (option string * option string * string))
  : World :=
  match sendResponse with
  | Some sr =>
      if respondsAllowed w then
        let data :=
          match outcome with
          | inl result =>
              {| dataId := None; dataType := Some "response";
                 dataCorrelationId := requestId; dataPayload := result;
                 dataError := None |}
          | inr (errCode, errMessage, shown) =>
              {| dataId := None; dataType := Some "response";
                 dataCorrelationId := requestId; dataPayload := None;
                 dataError := Some {| code := Js.orElse errCode "UNKNOWN_ERROR";
                                      errorMessage := Js.orElse errMessage shown |} |}
          end in
        emit (SendResponse sr {| rawNamespace := Some (namespace w);
                                 rawComponentType := None;
                                 rawData := Some data |}) w
      else w
  | None => w
  end.

(** *** [send], [sendToTab], [sendViaRuntime] *)

(** The executor of the promise of [sendToTab]: the promise, its timer and
    the callback handed to chrome are named by [nextId]. *)
Definition sendToTab (w : World) (tabId : Z) (message : WrappedMessage)
  : nat * World :=
  let p := nextId w in
  let correlationId := tmId (wData message) in
  let w1 := setNextId (S p) w in
  let w2 := setTimeout p {| tcCorrelationId := correlationId; tcReject := p;
                            tcType := tmType (wData message) |}
                       MESSAGE_TIMEOUT w1 in
  let w3 := setResponseHandlers
              (Js.set correlationId {| resolve := p; reject := p; timeout := p |}
                      (responseHandlers w2)) w2 in
  let w4 := setCallbacks
              (<[p := {| cbCorrelationId := correlationId; cbTimeout := p;
                         cbResolve := p; cbReject := p;
                         cbFallback := "Failed to send message to tab" |}]>
                 (callbacks w3)) w3 in
  (p, emit (TabsSendMessage tabId message (Some p)) w4).

Definition sendViaRuntime (w : World) (message : WrappedMessage) : nat * World :=
  let p := nextId w in
  let correlationId := tmId (wData message) in
  let w1 := setNextId (S p) w in
  let w2 := setTimeout p {| tcCorrelationId := correlationId; tcReject := p;
                            tcType := tmType (wData message) |}
                       MESSAGE_TIMEOUT w1 in
  let w3 := setResponseHandlers
              (Js.set correlationId {| resolve := p; reject := p; timeout := p |}
                      (responseHandlers w2)) w2 in
  let w4 := setCallbacks
              (<[p := {| cbCorrelationId := correlationId; cbTimeout := p;
                         cbResolve := p; cbReject := p;
                         cbFallback := "Failed to send message" |}]>
                 (callbacks w3)) w3 in
  (p, emit (RuntimeSendMessage message (Some p)) w4).

(** A tab id that is truthy: present and not [0]. *)
Definition truthyTab (t : option Z) : option Z :=
  match t with
  | Some z => if Z.eqb z 0 then None else Some z
  | None => None
  end.

Definition wrap (w : World) (message : Message) (withCorrelation : bool)
  : WrappedMessage :=
  {| wNamespace := namespace w;
     wComponentType := componentType (config w);
     wData := {| tmId := msgId message; tmType := msgType message;
                 tmPayload := msgPayload message; tmTimestamp := now w;
                 tmCorrelationId :=
                   if withCorrelation then msgCorrelationId message else None |};
     wAction := None |}.

(** [send(message, context)]: the promise it returns and the world after. *)
Definition send (w : World) (message : Message) (context : option MessageContext)
  : nat * World :=
  let wrappedMessage := wrap w message true in
  match componentType (config w), truthyTab (targetTabId (config w)) with
  | content, Some tab => sendToTab w tab wrappedMessage
  | _, _ =>
      match componentType (config w), truthyTab (context ≫= ctxTabId) with
      | background, Some tab => sendToTab w tab wrappedMessage
      | _, _ => sendViaRuntime w wrappedMessage
      end
  end.

(** Chrome calls the callback [cb] of a [sendMessage]: [lastError] is
    [chrome.runtime.lastError] (with its optional [message]), [response] the
    argument of the callback. *)
Definition runCallback (w : World) (cb : nat)
    (lastError : option (option string)) (response : option RawMessage)
  : World :=
  match callbacks w !! cb with
  | None => w
  | Some c =>
      let w0 := setCallbacks (base.delete cb (callbacks w)) w in
      match lastError with
      | Some m =>
          let w1 := deleteResponseHandler (cbCorrelationId c) w0 in
          let w2 := clearTimeout (cbTimeout c) w1 in
          callReject (cbReject c) (JsError (Js.orElse m (cbFallback c))) w2
      | None =>
          match response with
          | Some r =>
              let w1 := deleteResponseHandler (cbCorrelationId c) w0 in
              let w2 := clearTimeout (cbTimeout c) w1 in
              match rawData r ≫= dataError with
              | Some e => callReject (cbReject c) (RemoteError e) w2
              | None => callResolve (cbResolve c) (rawData r ≫= dataPayload) w2
              end
          | None => w0
          end
      end
  end.

(** [new Error(`Message timeout: ${message.data.type}`)] *)
Definition timeoutError (c : TimeoutClosure) : Rejection :=
  JsError ("Message timeout: " ++ tcType c).

(** The body of the arrow function given to [setTimeout]. *)
Definition runTimeout (c : TimeoutClosure) (w : World) : World :=
  callReject (tcReject c) (timeoutError c)
             (deleteResponseHandler (tcCorrelationId c) w).

(** The armed timer [t] fires: it is spent and its function runs. *)
Definition fireTimer (x : nat * Timer) (w : World) : World :=
  runTimeout (closure (snd x)) (setTimers (disarm (fst x) (timers w)) w).

(** The call of [reject] that the timer [x] makes when it fires. *)
Definition timeoutCall (x : nat * Timer) : Effect :=
  CallReject (tcReject (closure (snd x))) (timeoutError (closure (snd x))).

Definition isDue (clock : N) (x : nat * Timer) : bool :=
  (deadline (snd x) <=? clock)%N.

(** [dt] milliseconds pass: every armed timer whose deadline is reached
    fires, oldest first. *)
Definition elapse (dt : N) (w : World) : World :=
  let w1 := setNow (now w + dt) w in
  fold_left (fun acc x => fireTimer x acc)
            (List.filter (isDue (now w1)) (timers w1)) w1.

(** *** [broadcast] *)

(** The handler [() => { /* Ignore errors for broadcast operations */ }]
    given to [.catch]: it does nothing. *)
Definition ignoreBroadcastError (w : World) : World := w.

(** One turn of [tabs.forEach]: [failed] tells whether the delivery fails,
    that is, whether the promise that this [chrome.tabs.sendMessage] returns
    is rejected. *)
Definition broadcastToTab (wrappedMessage : WrappedMessage) (failed : Z -> bool)
    (w : World) (tab : option Z) : World :=
  match truthyTab tab with
  | Some tabId =>
      let w1 := emit (TabsSendMessage tabId wrappedMessage None) w in
      if failed tabId then ignoreBroadcastError w1 else w1
  | None => w
  end.

(** [broadcast(message, context)]: [tabs] are the ids of the tabs that
    [chrome.tabs.query({})] returns, [failed] the deliveries that fail,
    [runtimeFailed] whether [chrome.runtime.sendMessage] fails.  The result
    [true] says that the promise of [broadcast] is fulfilled. *)
Definition broadcast (w : World) (message : Message) (tabs : list (option Z))
    (failed : Z -> bool) (runtimeFailed : bool) : bool * World :=
  let wrappedMessage := wrap w message false in
  match componentType (config w) with
  | background =>
      let w1 := emit TabsQuery w in
      (true, fold_left (broadcastToTab wrappedMessage failed) tabs w1)
  | _ =>
      let w1 :=
        emit (RuntimeSendMessage
                {| wNamespace := wNamespace wrappedMessage;
                   wComponentType := wComponentType wrappedMessage;
                   wData := wData wrappedMessage;
                   wAction := Some "broadcast" |} None) w in
      (true, if runtimeFailed then ignoreBroadcastError w1 else w1)
  end.

(** *** [onMessage], [offMessage], [close] *)

Definition onMessage (w : World) (type : string) (handler : nat) : World :=
  setMessageHandlers (<[type := handler]> (messageHandlers w)) w.

Definition offMessage (w : World) (type : string) : World :=
  setMessageHandlers (base.delete type (messageHandlers w)) w.

(** [close()]: [forEach] clears the timer of every entry, [clear] empties
    the table, the listener is removed. *)
Definition close (w : World) : World :=
  let w1 := fold_left (fun acc e => clearTimeout (timeout (snd e)) acc)
                      (responseHandlers w) w in
  let w2 := setResponseHandlers [] w1 in
  emit RemoveMessageListener (setListening false w2).

(** *** The transport as a transition system *)

Inductive Event :=
| EvSend (m : Message) (context : option MessageContext)
| EvBroadcast (m : Message) (tabs : list (option Z)) (failed : Z -> bool)
              (runtimeFailed : bool)
| EvIncoming (message : option RawMessage) (sender : MessageSender)
             (sendResponse : option nat)
| EvPortMessage (portName : string) (message : option RawMessage)
                (sender : MessageSender) (sendResponse : option nat)
| EvCallback (cb : nat) (lastError : option (option string))
             (response : option RawMessage)
| EvElapse (dt : N)
| EvOnMessage (type : string) (handler : nat)
| EvOffMessage (type : string)
| EvHandlerSettled (requestId : option string) (sendResponse : option nat)
                   (outcome : option Payload + (option string * option string * string))
| EvClose.

Definition step (w : World) (ev : Event) : World :=
  match ev with
  | EvSend m context => snd (send w m context)
  | EvBroadcast m tabs failed runtimeFailed =>
      snd (broadcast w m tabs failed runtimeFailed)
  | EvIncoming message sender sendResponse =>
      (* delivered by chrome.runtime.onMessage while the listener is there *)
      if listening w
      then snd (handleIncomingMessage w message sender sendResponse)
      else w
  | EvPortMessage portName message sender sendResponse =>
      (* the listener that a background transport puts on every port whose
         name starts with its namespace *)
      match componentType (config w) with
      | background =>
          if Js.startsWith portName (namespace w ++ ":")
          then snd (handleIncomingMessage w message sender sendResponse)
          else w
      | _ => w
      end
  | EvCallback cb lastError response => runCallback w cb lastError response
  | EvElapse dt => elapse dt w
  | EvOnMessage type handler => onMessage w type handler
  | EvOffMessage type => offMessage w type
  | EvHandlerSettled requestId sendResponse outcome =>
      handlerSettled w requestId sendResponse outcome
  | EvClose => close w
  end.

Definition run (w : World) (evs : list Event) : World := fold_left step evs w.

(** The worlds a transport can be in. *)
Inductive reachable : World -> Prop :=
| reachable_new cfg clock : reachable (constructor cfg clock)
| reachable_step w ev : reachable w -> reachable (step w ev).

(** *** Reading the log *)

(** The promise that an effect settles. *)
Definition settles (p : nat) (e : Effect) : bool :=
  match e with
  | CallResolve q _ | CallReject q _ => Nat.eqb q p
  | _ => false
  end.

(** A call of some [resolve] or [reject]. *)
Definition isSettlement (e : Effect) : bool :=
  match e with
  | CallResolve _ _ | CallReject _ _ => true
  | _ => false
  end.

(** The calls of [resolve] and [reject] of the promise [p], oldest first. *)
Definition settlements (p : nat) (es : list Effect) : list Effect :=
  List.filter (settles p) es.

(** The state of a promise: that of the first call of its [resolve] or
    [reject], later calls having no effect. *)
Definition promiseState (p : nat) (es : list Effect) : option Effect :=
  head (settlements p es).

(** What a step adds to the log. *)
Definition added (w w' : World) : list Effect :=
  skipn (List.length (effects w)) (effects w').

Definition isChromeCall (e : Effect) : bool :=
  match e with
  | RuntimeSendMessage _ _ | TabsSendMessage _ _ _ | TabsQuery => true
  | _ => false
  end.

(** A write to the channel. *)
Definition isChannelWrite (e : Effect) : bool :=
  match e with
  | RuntimeSendMessage _ _ | TabsSendMessage _ _ _ => true
  | _ => false
  end.

(** Everything a call did besides calling the messaging primitives of
    chrome: where a report of a failure would have to be. *)
Definition reports (es : list Effect) : list Effect :=
  List.filter (fun e => negb (isChromeCall e)) es.

(** The tabs a list of effects writes to, in order. *)
Definition tabWrites (es : list Effect) : list Z :=
  omap (fun e => match e with
                 | TabsSendMessage t _ _ => Some t
                 | _ => None
                 end) es.

(** *** Consistency of a world *)

(** The promise [p] has had its [resolve] or [reject] called. *)
Definition settled (p : nat) (es : list Effect) : Prop := settlements p es <> [].

(** What every reachable world satisfies.  A request is named by one number:
    it is its promise, its timer and its callback. *)
Record consistent (w : World) : Prop := {
  cons_keys : List.NoDup (map fst (responseHandlers w));
  cons_entries : forall k rh, In (k, rh) (responseHandlers w) ->
    resolve rh = timeout rh /\ reject rh = timeout rh /\ timeout rh < nextId w;
  cons_entry_ids :
    List.NoDup (map (fun e => timeout (snd e)) (responseHandlers w));
  cons_timers : forall t tm, In (t, tm) (timers w) ->
    tcReject (closure tm) = t /\ t < nextId w;
  cons_timer_ids : List.NoDup (map fst (timers w));
  cons_timer_key : forall k rh tm, In (k, rh) (responseHandlers w) ->
    In (timeout rh, tm) (timers w) -> tcCorrelationId (closure tm) = k;
  cons_callbacks : forall c cb, callbacks w !! c = Some cb ->
    cbTimeout cb = c /\ cbResolve cb = c /\ cbReject cb = c /\ c < nextId w;
  cons_callback_key : forall k rh cb, In (k, rh) (responseHandlers w) ->
    callbacks w !! timeout rh = Some cb -> cbCorrelationId cb = k;
  cons_settled_entry : forall p k rh, settled p (effects w) ->
    In (k, rh) (responseHandlers w) -> timeout rh <> p;
  cons_settled_timer : forall p tm, settled p (effects w) ->
    ~ In (p, tm) (timers w);
  cons_settled_old : forall p, settled p (effects w) -> p < nextId w
}.

(** *** Events that leave a request outstanding *)

(** The message carries the correlation id [cid]. *)
Definition carries (cid : string) (message : option RawMessage) : bool :=
  match (message ≫= rawData) ≫= dataCorrelationId with
  | Some c => String.eqb c cid
  | None => false
  end.

(** [quiet p cid ev]: the event [ev] is no answer to the request [p] whose
    correlation id is [cid] and does not close the transport: it is no
    inbound message that carries [cid], no call of the callback of [p] with
    an error or a response, and not [close]. *)
Definition quiet (p : nat) (cid : string) (ev : Event) : bool :=
  match ev with
  | EvIncoming message _ _ => negb (carries cid message)
  | EvPortMessage _ message _ _ => negb (carries cid message)
  | EvCallback cb lastError response =>
      negb (Nat.eqb cb p)
      || match lastError, response with
         | None, None => true
         | _, _ => false
         end
  | EvClose => false
  | _ => true
  end.

End Transport.
End ExtTransport.

(** ** The reconnection controller (chrome-transport.ts) *)

Module ChromeTransport.

(** [ChromeTransportConfig] as the constructor leaves it: [reconnect],
    [connectTimeoutMs] and [reconnectOptions] are filled in.  The numbers of
    the options are JavaScript numbers; they are taken as exact rationals,
    [maxRetries] as a count. *)
Record ChromeTransportConfig := {
  extensionId : option string;
  connectionName : string;
  reconnect : bool;
  maxRetries : nat;
  backoffFactor : Q;
  initialDelayMs : Q;
  connectTimeoutMs : Q;
  debug : bool
}.

(** What the caller passes to the constructor. *)
Record ChromeTransportOptions := {
  optExtensionId : option string;
  optConnectionName : string;
  optReconnect : option bool;
  optMaxRetries : option nat;
  optBackoffFactor : option Q;
  optInitialDelayMs : option Q;
  optConnectTimeoutMs : option Q;
  optDebug : option bool
}.

(** [x || d] on an optional number: [undefined] and [0] give [d]. *)
Definition orNat (o : option nat) (d : nat) : nat :=
  match o with
  | Some 0 => d
  | Some n => n
  | None => d
  end.

Definition orQ (o : option Q) (d : Q) : Q :=
  match o with
  | Some q => if Qeq_bool q 0 then d else q
  | None => d
  end.

(** The object literal of the constructor. *)
Definition configure (o : ChromeTransportOptions) : ChromeTransportConfig :=
  {| extensionId := optExtensionId o;
     connectionName := optConnectionName o;
     reconnect := match optReconnect o with Some false => false | _ => true end;
     maxRetries := orNat (optMaxRetries o) 5;
     backoffFactor := orQ (optBackoffFactor o) (3 # 2);
     initialDelayMs := orQ (optInitialDelayMs o) 1000;
     connectTimeoutMs := orQ (optConnectTimeoutMs o) 10000;
     debug := match optDebug o with Some true => true | _ => false end |}.

(** The two functions that the transport gives to [setTimeout]. *)
Inductive TimerAction := ConnectionTimeout | Reconnect.

(** What [logDebug] is called with. *)
Inductive DebugNote :=
| Reconnecting (attempt : nat) (delay : Q)
| MaxAttemptsReached (retries : nat)
| ReconnectionFailed
| ErrorSending.

Section Transport.
Context {Msg : Type}.

(** The calls the transport makes on its host, in order. *)
Inductive Effect :=
| RuntimeConnect (extension : option string) (name : string)
| PortAddListeners (p : nat)
| PortPostMessage (p : nat) (m : Msg)
| PortDisconnect (p : nat)
| SetTimeout (t : nat) (a : TimerAction) (delay : Q)
| ClearTimeout (t : nat)
| CallResolve (p : nat)
| CallReject (p : nat) (err : string)
| ConsoleLog (n : DebugNote).

(** The transport object and the part of the host it depends on:
    [connectThrows n] is the error that the call number [n] of
    [chrome.runtime.connect] throws, if it throws. *)
Record World := {
  config : ChromeTransportConfig;
  port : option nat;
  reconnectAttempts : nat;
  connectPromise : option nat;
  connectResolver : option nat;
  connectRejecter : option nat;
  isConnected : bool;
  (* host *)
  connectThrows : nat -> option string;
  connectCalls : nat;
  timers : list (nat * TimerAction);
  nextTimer : nat;
  nextPromise : nat;
  nextPort : nat;
  effects : list Effect
}.

Definition setPort (x : option nat) (w : World) : World :=
  {| config := config w; port := x;
     reconnectAttempts := reconnectAttempts w;
     connectPromise := connectPromise w;
     connectResolver := connectResolver w;
     connectRejecter := connectRejecter w; isConnected := isConnected w;
     connectThrows := connectThrows w; connectCalls := connectCalls w;
     timers := timers w; nextTimer := nextTimer w;
     nextPromise := nextPromise w; nextPort := nextPort w;
     effects := effects w |}.

Definition setReconnectAttempts (x : nat) (w : World) : World :=
  {| config := config w; port := port w; reconnectAttempts := x;
     connectPromise := connectPromise w;
     connectResolver := connectResolver w;
     connectRejecter := connectRejecter w; isConnected := isConnected w;
     connectThrows := connectThrows w; connectCalls := connectCalls w;
     timers := timers w; nextTimer := nextTimer w;
     nextPromise := nextPromise w; nextPort := nextPort w;
     effects := effects w |}.

Definition setConnectPromise (x : option nat) (w : World) : World :=
  {| config := config w; port := port w;
     reconnectAttempts := reconnectAttempts w; connectPromise := x;
     connectResolver := connectResolver w;
     connectRejecter := connectRejecter w; isConnected := isConnected w;
     connectThrows := connectThrows w; connectCalls := connectCalls w;
     timers := timers w; nextTimer := nextTimer w;
     nextPromise := nextPromise w; nextPort := nextPort w;
     effects := effects w |}.

Definition setConnectResolver (x : option nat) (w : World) : World :=
  {| config := config w; port := port w;
     reconnectAttempts := reconnectAttempts w;
     connectPromise := connectPromise w; connectResolver := x;
     connectRejecter := connectRejecter w; isConnected := isConnected w;
     connectThrows := connectThrows w; connectCalls := connectCalls w;
     timers := timers w; nextTimer := nextTimer w;
     nextPromise := nextPromise w; nextPort := nextPort w;
     effects := effects w |}.

Definition setConnectRejecter (x : option nat) (w : World) : World :=
  {| config := config w; port := port w;
     reconnectAttempts := reconnectAttempts w;
     connectPromise := connectPromise w;
     connectResolver := connectResolver w; connectRejecter := x;
     isConnected := isConnected w; connectThrows := connectThrows w;
     connectCalls := connectCalls w; timers := timers w;
     nextTimer := nextTimer w; nextPromise := nextPromise w;
     nextPort := nextPort w; effects := effects w |}.

Definition setIsConnected (x : bool) (w : World) : World :=
  {| config := config w; port := port w;
     reconnectAttempts := reconnectAttempts w;
     connectPromise := connectPromise w;
     connectResolver := connectResolver w;
     connectRejecter := connectRejecter w; isConnected := x;
     connectThrows := connectThrows w; connectCalls := connectCalls w;
     timers := timers w; nextTimer := nextTimer w;
     nextPromise := nextPromise w; nextPort := nextPort w;
     effects := effects w |}.

Definition setConnectCalls (x : nat) (w : World) : World :=
  {| config := config w; port := port w;
     reconnectAttempts := reconnectAttempts w;
     connectPromise := connectPromise w;
     connectResolver := connectResolver w;
     connectRejecter := connectRejecter w; isConnected := isConnected w;
     connectThrows := connectThrows w; connectCalls := x;
     timers := timers w; nextTimer := nextTimer w;
     nextPromise := nextPromise w; nextPort := nextPort w;
     effects := effects w |}.

Definition setTimers (x : list (nat * TimerAction)) (w : World) : World :=
  {| config := config w; port := port w;
     reconnectAttempts := reconnectAttempts w;
     connectPromise := connectPromise w;
     connectResolver := connectResolver w;
     connectRejecter := connectRejecter w; isConnected := isConnected w;
     connectThrows := connectThrows w; connectCalls := connectCalls w;
     timers := x; nextTimer := nextTimer w; nextPromise := nextPromise w;
     nextPort := nextPort w; effects := effects w |}.

Definition setNextTimer (x : nat) (w : World) : World :=
  {| config := config w; port := port w;
     reconnectAttempts := reconnectAttempts w;
     connectPromise := connectPromise w;
     connectResolver := connectResolver w;
     connectRejecter := connectRejecter w; isConnected := isConnected w;
     connectThrows := connectThrows w; connectCalls := connectCalls w;
     timers := timers w; nextTimer := x; nextPromise := nextPromise w;
     nextPort := nextPort w; effects := effects w |}.

Definition setNextPromise (x : nat) (w : World) : World :=
  {| config := config w; port := port w;
     reconnectAttempts := reconnectAttempts w;
     connectPromise := connectPromise w;
     connectResolver := connectResolver w;
     connectRejecter := connectRejecter w; isConnected := isConnected w;
     connectThrows := connectThrows w; connectCalls := connectCalls w;
     timers := timers w; nextTimer := nextTimer w; nextPromise := x;
     nextPort := nextPort w; effects := effects w |}.

Definition setNextPort (x : nat) (w : World) : World :=
  {| config := config w; port := port w;
     reconnectAttempts := reconnectAttempts w;
     connectPromise := connectPromise w;
     connectResolver := connectResolver w;
     connectRejecter := connectRejecter w; isConnected := isConnected w;
     connectThrows := connectThrows w; connectCalls := connectCalls w;
     timers := timers w; nextTimer := nextTimer w;
     nextPromise := nextPromise w; nextPort := x; effects := effects w |}.

Definition emit (e : Effect) (w : World) : World :=
  {| config := config w; port := port w;
     reconnectAttempts := reconnectAttempts w;
     connectPromise := connectPromise w;
     connectResolver := connectResolver w;
     connectRejecter := connectRejecter w; isConnected := isConnected w;
     connectThrows := connectThrows w; connectCalls := connectCalls w;
     timers := timers w; nextTimer := nextTimer w;
     nextPromise := nextPromise w; nextPort := nextPort w;
     effects := effects w ++ [e] |}.

(** [new ChromeTransport(options)] on a host where [chrome.runtime.connect]
    behaves as [throws] says. *)
Definition constructor (o : ChromeTransportOptions) (throws : nat -> option string)
  : World :=
  {| config := configure o; port := None; reconnectAttempts := 0;
     connectPromise := None; connectResolver := None; connectRejecter := None;
     isConnected := false; connectThrows := throws; connectCalls := 0;
     timers := []; nextTimer := 0; nextPromise := 0; nextPort := 0;
     effects := [] |}.

Definition setTimeout (a : TimerAction) (delay : Q) (w : World) : nat * World :=
  let t := nextTimer w in
  (t, emit (SetTimeout t a delay)
           (setTimers (timers w ++ [(t, a)]) (setNextTimer (S t) w))).

Definition clearTimeout (t : nat) (w : World) : World :=
  emit (ClearTimeout t)
       (setTimers (List.filter (fun x => negb (Nat.eqb (fst x) t)) (timers w)) w).

(** [logDebug(...)]: logs in debug mode only. *)
Definition logDebug (n : DebugNote) (w : World) : World :=
  if debug (config w) then emit (ConsoleLog n) w else w.

(** [cleanupConnectionPromise()] *)
Definition cleanupConnectionPromise (w : World) : World :=
  setConnectRejecter None (setConnectResolver None (setConnectPromise None w)).

(** [handleReconnect()] *)
Definition handleReconnect (w : World) : World :=
  if (reconnectAttempts w <? maxRetries (config w))%nat then
    let w1 := setReconnectAttempts (S (reconnectAttempts w)) w in
    let delay :=
      (initialDelayMs (config w1) *
       backoffFactor (config w1) ^ Z.of_nat (reconnectAttempts w1 - 1))%Q in
    let w2 := logDebug (Reconnecting (reconnectAttempts w1) delay) w1 in
    snd (setTimeout Reconnect delay w2)
  else logDebug (MaxAttemptsReached (maxRetries (config w))) w.

(** What a call of [connect] returns: a promise that is fulfilled at once,
    or one that takes the outcome of the promise [p]. *)
Inductive ConnectResult := Immediate | Adopts (p : nat).

(** [connect()].  The executor of [new Promise] runs before the promise is
    assigned to [this.connectPromise]. *)
Definition connect (w : World) : ConnectResult * World :=
  if isConnected w && bool_decide (is_Some (port w)) then (Immediate, w)
  else
    match connectPromise w with
    | Some p => (Adopts p, w)
    | None =>
        let p := nextPromise w in
        let w1 := setConnectRejecter (Some p)
                    (setConnectResolver (Some p) (setNextPromise (S p) w)) in
        let (timeout, w2) := setTimeout ConnectionTimeout
                                        (connectTimeoutMs (config w1)) w1 in
        let w3 := emit (RuntimeConnect
                          (extensionId (config w2) ≫= (fun e =>
                             if Js.truthy e then Some e else None))
                          (connectionName (config w2)))
                       (setConnectCalls (S (connectCalls w2)) w2) in
        let afterExecutor :=
          match connectThrows w (connectCalls w) with
          | None =>
              let newPort := nextPort w3 in
              let w4 := setPort (Some newPort) (setNextPort (S newPort) w3) in
              let w5 := emit (PortAddListeners newPort) w4 in
              let w6 := clearTimeout timeout w5 in
              let w7 := setReconnectAttempts 0 (setIsConnected true w6) in
              match connectResolver w7 with
              | Some r => cleanupConnectionPromise (emit (CallResolve r) w7)
              | None => w7
              end
          | Some err =>
              let w4 := clearTimeout timeout w3 in
              let w5 :=
                match connectRejecter w4 with
                | Some r => cleanupConnectionPromise (emit (CallReject r err) w4)
                | None => w4
                end in
              if reconnect (config w5) then handleReconnect w5 else w5
          end in
        (Adopts p, setConnectPromise (Some p) afterExecutor)
    end.

(** [disconnect()] *)
Definition disconnect (w : World) : World :=
  let w1 :=
    match port w with
    | Some p => setPort None (emit (PortDisconnect p) w)
    | None => w
    end in
  cleanupConnectionPromise (setIsConnected false w1).

(** [handleDisconnection()] *)
Definition handleDisconnection (w : World) : World :=
  let wasConnected := isConnected w in
  let w1 := setPort None (setIsConnected false w) in
  if wasConnected && reconnect (config w1) then handleReconnect w1 else w1.

(** How a call of [send] ends. *)
Inductive SendResult := Sent | Thrown (err : string).

(** [send(message)]: [postThrows] is the error that [port.postMessage]
    throws, if it throws. *)
Definition send (w : World) (message : Msg) (postThrows : option string)
  : SendResult * World :=
  match port w, isConnected w with
  | Some p, true =>
      let w1 := emit (PortPostMessage p message) w in
      match postThrows with
      | None => (Sent, w1)
      | Some err => (Thrown err, handleDisconnection (logDebug ErrorSending w1))
      end
  | _, _ => (Thrown "Transport not connected", w)
  end.

(** The state of a promise in the log: the first call of its [resolve] or
    [reject]. *)
Definition settles (p : nat) (e : Effect) : bool :=
  match e with
  | CallResolve q | CallReject q _ => Nat.eqb q p
  | _ => false
  end.

Definition promiseState (p : nat) (es : list Effect) : option Effect :=
  head (List.filter (settles p) es).

(** The armed timer [t] fires. *)
Definition fireTimer (w : World) (t : nat) : World :=
  match List.find (fun x => Nat.eqb (fst x) t) (timers w) with
  | None => w
  | Some (_, a) =>
      let w1 := setTimers (List.filter (fun x => negb (Nat.eqb (fst x) t))
                                       (timers w)) w in
      match a with
      | ConnectionTimeout =>
          match connectRejecter w1 with
          | Some r =>
              cleanupConnectionPromise (emit (CallReject r "Connection timeout") w1)
          | None => w1
          end
      | Reconnect =>
          (* [this.connect().catch(error => this.logDebug(...))] *)
          let (r, w2) := connect w1 in
          match r with
          | Adopts p =>
              match promiseState p (effects w2) with
              | Some (CallReject _ _) => logDebug ReconnectionFailed w2
              | _ => w2
              end
          | Immediate => w2
          end
      end
  end.

Inductive Event :=
| EvConnect
| EvDisconnect
| EvSend (m : Msg) (postThrows : option string)
| EvPortDisconnected
| EvTimer (t : nat).

Definition step (w : World) (ev : Event) : World :=
  match ev with
  | EvConnect => snd (connect w)
  | EvDisconnect => disconnect w
  | EvSend m postThrows => snd (send w m postThrows)
  | EvPortDisconnected => handleDisconnection w
  | EvTimer t => fireTimer w t
  end.

Definition run (w : World) (evs : list Event) : World := fold_left step evs w.

(** The delays of the retries that a log schedules, in order. *)
Definition retryDelays (es : list Effect) : list Q :=
  omap (fun e => match e with
                 | SetTimeout _ Reconnect d => Some d
                 | _ => None
                 end) es.

(** The calls of [chrome.runtime.connect] in a log. *)
Definition connectAttempts (es : list Effect) : nat :=
  List.length (List.filter (fun e => match e with
                                     | RuntimeConnect _ _ => true
                                     | _ => false
                                     end) es).

(** The writes to the port in a log. *)
Definition portWrites (es : list Effect) : nat :=
  List.length (List.filter (fun e => match e with
                                     | PortPostMessage _ _ => true
                                     | _ => false
                                     end) es).

End Transport.
End ChromeTransport.

(** ** The broker transport (nats-transport.ts) *)

Module NatsTransport.

Record NatsTransportConfig := {
  servers : list string;
  token : option string;
  user : option string;
  pass : option string;
  connectTimeout : Q;
  subjectsRequests : string;
  subjectsEvents : string
}.

(** What the caller passes to the constructor. *)
Record NatsTransportOptions := {
  optServers : list string;
  optToken : option string;
  optUser : option string;
  optPass : option string;
  optConnectTimeout : option Q;
  optSubjectsRequests : option string;
  optSubjectsEvents : option string
}.

Definition configure (o : NatsTransportOptions) : NatsTransportConfig :=
  {| servers := optServers o; token := optToken o; user := optUser o;
     pass := optPass o;
     connectTimeout := ChromeTransport.orQ (optConnectTimeout o) 10000;
     subjectsRequests := Js.orElse (optSubjectsRequests o) "messaging.requests";
     subjectsEvents := Js.orElse (optSubjectsEvents o) "messaging.events" |}.

(** How a promise ends. *)
Inductive Settled := Fulfilled | Rejected (err : string).

(** Where a call of [connect] stands: it has returned, or it waits at one of
    its two [await]s. *)
Inductive ConnectState :=
| Done (o : Settled)
| AwaitingOpen
| AwaitingSubscriptions.

Section Transport.
Context {Payload : Type}.

Record Message := {
  type : string;
  payload : Payload;
  requestId : option string;
  replyTo : option string
}.

(** The calls the transport makes on the NATS client, in order. *)
Inductive Effect :=
| NatsConnect (to : list string) (timeout : Q)
| NatsSubscribe (conn : nat) (subject : string)
| NatsPublish (conn : nat) (subject : string) (data : Payload)
              (reply : option string) (requestIdHeader : option string)
| NatsStatus (conn : nat)
| NatsClose (conn : nat)
| Unsubscribe (sub : nat).

Record World := {
  config : NatsTransportConfig;
  nats : option nat;
  messageCallback : option nat;
  subscriptions : list nat;
  connected : bool;
  connecting : bool;
  (* host *)
  nextSubscription : nat;
  effects : list Effect
}.

Definition constructor (o : NatsTransportOptions) : World :=
  {| config := configure o; nats := None; messageCallback := None;
     subscriptions := []; connected := false; connecting := false;
     nextSubscription := 0; effects := [] |}.

Definition emit (e : Effect) (w : World) : World :=
  {| config := config w; nats := nats w; messageCallback := messageCallback w;
     subscriptions := subscriptions w; connected := connected w;
     connecting := connecting w; nextSubscription := nextSubscription w;
     effects := effects w ++ [e] |}.

Definition setFlags (isConnected isConnecting : bool) (w : World) : World :=
  {| config := config w; nats := nats w; messageCallback := messageCallback w;
     subscriptions := subscriptions w; connected := isConnected;
     connecting := isConnecting; nextSubscription := nextSubscription w;
     effects := effects w |}.

Definition setNats (c : option nat) (w : World) : World :=
  {| config := config w; nats := c; messageCallback := messageCallback w;
     subscriptions := subscriptions w; connected := connected w;
     connecting := connecting w; nextSubscription := nextSubscription w;
     effects := effects w |}.

Definition setSubscriptions (l : list nat) (next : nat) (w : World) : World :=
  {| config := config w; nats := nats w; messageCallback := messageCallback w;
     subscriptions := l; connected := connected w;
     connecting := connecting w; nextSubscription := next;
     effects := effects w |}.

(** [this.nats.subscribe(subject)] followed by [this.subscriptions.push]. *)
Definition subscribe (conn : nat) (subject : string) (w : World) : World :=
  emit (NatsSubscribe conn subject)
       (setSubscriptions (subscriptions w ++ [nextSubscription w])
                         (S (nextSubscription w)) w).

(** [setupSubscriptions()]: its body has no [await]. *)
Definition setupSubscriptions (w : World) : World :=
  match nats w with
  | None => w
  | Some conn =>
      subscribe conn (subjectsEvents (config w) ++ ".*") (subscribe conn ">" w)
  end.

(** [connect()] up to its first [await]. *)
Definition connect (w : World) : ConnectState * World :=
  if connected w then (Done Fulfilled, w)
  else if connecting w then (Done (Rejected "Connection already in progress"), w)
  else
    (AwaitingOpen,
     emit (NatsConnect (servers (config w)) (connectTimeout (config w)))
          (setFlags (connected w) true w)).

(** The call resumes after [await connect(connectionOptions)]: with the
    connection [inl conn], or in the [catch] with the error [inr err]. *)
Definition connectOpened (w : World) (outcome : nat + string)
  : ConnectState * World :=
  match outcome with
  | inl conn => (AwaitingSubscriptions, setupSubscriptions (setNats (Some conn) w))
  | inr err => (Done (Rejected err), setFlags (connected w) false w)
  end.

(** The call resumes after [await this.setupSubscriptions()]. *)
Definition connectSubscribed (w : World) : ConnectState * World :=
  let w1 := setFlags true false w in
  (Done Fulfilled,
   match nats w1 with
   | Some conn => emit (NatsStatus conn) w1
   | None => w1
   end).

(** A status of type ['disconnect'] arrives. *)
Definition statusDisconnect (w : World) : World :=
  setFlags false (connecting w) w.

(** [disconnect()] *)
Definition disconnect (w : World) : World :=
  let w1 := fold_left (fun acc s => emit (Unsubscribe s) acc) (subscriptions w) w in
  let w2 := setSubscriptions [] (nextSubscription w1) w1 in
  match nats w2 with
  | Some conn => setFlags false (connecting w2) (setNats None (emit (NatsClose conn) w2))
  | None => w2
  end.

(** [message.type.substring(6)] *)
Definition substring6 (s : string) : string :=
  String.substring 6 (String.length s - 6) s.

Definition truthyOpt (o : option string) : option string :=
  match o with
  | Some s => if Js.truthy s then Some s else None
  | None => None
  end.

(** [send(message)]: [publishThrows] is the error that [this.nats.publish]
    throws, if it throws. *)
Definition send (w : World) (message : Message) (publishThrows : option string)
  : Settled * World :=
  match nats w, connected w with
  | Some conn, true =>
      let header := truthyOpt (requestId message) in
      let call :=
        if Js.startsWith (type message) "event:" then
          NatsPublish conn
            (subjectsEvents (config w) ++ "." ++ substring6 (type message))
            (payload message) None header
        else
          NatsPublish conn
            (subjectsRequests (config w) ++ "." ++ type message)
            (payload message) (Some (Js.orElse (replyTo message) "")) header in
      (match publishThrows with
       | None => Fulfilled
       | Some err => Rejected err
       end, emit call w)
  | _, _ => (Rejected "Transport not connected", w)
  end.

(** [isConnected()] *)
Definition isConnected (w : World) : bool := connected w.

(** The calls of [publish] in a log. *)
Definition publishes (es : list Effect) : nat :=
  List.length (List.filter (fun e => match e with
                                     | NatsPublish _ _ _ _ _ => true
                                     | _ => false
                                     end) es).

(** The connections asked for in a log. *)
Definition connectAttempts (es : list Effect) : nat :=
  List.length (List.filter (fun e => match e with
                                     | NatsConnect _ _ => true
                                     | _ => false
                                     end) es).

End Transport.
End NatsTransport.

(** ** The three transports behind one interface *)

Module Transports.

(** What sending needs of a transport: whether it is connected, what [send]
    does to it (the error it fails with at once, if any), and how many writes
    to the channel its log holds. *)
Class Transport (W M : Type) := {
  isConnected : W -> bool;
  send : W -> M -> option string * W;
  channelWrites : W -> nat
}.

#[global] Instance chromeTransport {Msg : Type}
  : Transport (@ChromeTransport.World Msg) (Msg * option string) := {
  isConnected w := ChromeTransport.isConnected w;
  send w m :=
    match ChromeTransport.send w (fst m) (snd m) with
    | (ChromeTransport.Sent, w') => (None, w')
    | (ChromeTransport.Thrown err, w') => (Some err, w')
    end;
  channelWrites w := ChromeTransport.portWrites (ChromeTransport.effects w)
}.

#[global] Instance natsTransport {Payload : Type}
  : Transport (@NatsTransport.World Payload)
              (@NatsTransport.Message Payload * option string) := {
  isConnected w := NatsTransport.isConnected w;
  send w m :=
    match NatsTransport.send w (fst m) (snd m) with
    | (NatsTransport.Fulfilled, w') => (None, w')
    | (NatsTransport.Rejected err, w') => (Some err, w')
    end;
  channelWrites w := NatsTransport.publishes (NatsTransport.effects w)
}.

(** [ChromeExtensionTransport] has no connection state; the nearest it has
    is whether its listener is registered, which [close] undoes.  Its [send]
    returns a pending promise. *)
#[global] Instance extensionTransport {Payload : Type}
  : Transport (@ExtTransport.World Payload)
              (@ExtTransport.Message Payload * option ExtTransport.MessageContext) := {
  isConnected w := ExtTransport.listening w;
  send w m := (None, snd (ExtTransport.send w (fst m) (snd m)));
  channelWrites w :=
    List.length (List.filter ExtTransport.isChannelWrite (ExtTransport.effects w))
}.

(** Sending on a transport that is not connected fails with the error
    ["Transport not connected"] and writes nothing. *)
Definition guardsSend (W M : Type) `{Transport W M} : Prop :=
  forall (w : W) (m : M),
    isConnected w = false ->
    fst (send w m) = Some "Transport not connected" /\
    channelWrites (snd (send w m)) = channelWrites w /\
    snd (send w m) = w.

End Transports.

(** ** Scenarios: the inputs of the concrete runs *)

Module Scenarios.

Section PermissionScenario.
Import Authz.

Definition contentConfig : ExtensionAuthorizationProviderConfig :=
  {| permissions :=
       Some {[ "content" := permission ["page:*"] ["page:*"; "settings:get"] false ]};
     allowUndefinedMessages := None;
     enforceContentScriptOrigins := None;
     contentScriptOriginPermissions := None |}.

Definition contentContext : MessageContext :=
  {| source := Some "https://example.com/page";
     userRoles := None;
     metaComponentType := Some "content" |}.

End PermissionScenario.

Section TransportScenarios.
Import ExtTransport.
#[local] Open Scope list_scope.

Definition runtimeConfig (c : ComponentType) : ChromeExtensionTransportConfig :=
  {| componentType := c; targetTabId := None; handleResponses := None;
     configNamespace := None |}.

Definition request (i t : string) : @Message unit :=
  {| msgId := i; msgType := t; msgPayload := Some tt; msgCorrelationId := None |}.

(** Two requests are outstanding. *)
Definition twoPending : @World unit :=
  run (constructor (runtimeConfig popup) 0)
      [EvSend (request "r1" "settings:get") None;
       EvSend (request "r2" "settings:update") None].

Definition response (cid : string) : @RawMessage unit :=
  {| rawNamespace := Some "magicbutton"%string;
     rawComponentType := None;
     rawData := Some {| dataId := None; dataType := Some "response"%string;
                        dataCorrelationId := Some cid; dataPayload := Some tt;
                        dataError := None |} |}.

Definition anySender : MessageSender :=
  {| url := None; senderId := None; senderTabId := None; frameId := None |}.

End TransportScenarios.

Definition natsOptions : NatsTransport.NatsTransportOptions :=
  {| NatsTransport.optServers := ["nats://localhost:4222"%string];
     NatsTransport.optToken := None; NatsTransport.optUser := None;
     NatsTransport.optPass := None; NatsTransport.optConnectTimeout := None;
     NatsTransport.optSubjectsRequests := None;
     NatsTransport.optSubjectsEvents := None |}.

(** The options of the backoff scenario: delays from 100 ms, doubling, three
    retries. *)
Definition backoffOptions : ChromeTransport.ChromeTransportOptions :=
  {| ChromeTransport.optExtensionId := None;
     ChromeTransport.optConnectionName := "test-connection"%string;
     ChromeTransport.optReconnect := None;
     ChromeTransport.optMaxRetries := Some 3%nat;
     ChromeTransport.optBackoffFactor := Some 2%Q;
     ChromeTransport.optInitialDelayMs := Some 100%Q;
     ChromeTransport.optConnectTimeoutMs := None;
     ChromeTransport.optDebug := None |}.

(** The configuration of the tests of nats-transport.test.ts. *)
Definition natsTestOptions : NatsTransport.NatsTransportOptions :=
  {| NatsTransport.optServers := ["nats://localhost:4222"%string];
     NatsTransport.optToken := None; NatsTransport.optUser := None;
     NatsTransport.optPass := None;
     NatsTransport.optConnectTimeout := Some 5000%Q;
     NatsTransport.optSubjectsRequests := Some "test.requests"%string;
     NatsTransport.optSubjectsEvents := Some "test.events"%string |}.

(** A [NatsTransport] whose [connect] has run to its end with the
    connection [0]. *)
Definition natsConnected : @NatsTransport.World unit :=
  snd (NatsTransport.connectSubscribed
         (snd (NatsTransport.connectOpened
                 (snd (NatsTransport.connect
                         (NatsTransport.constructor natsTestOptions)))
                 (inl 0%nat)))).

(** The configuration of the tests of chrome-transport.test.ts. *)
Definition chromeTestOptions : ChromeTransport.ChromeTransportOptions :=
  {| ChromeTransport.optExtensionId := None;
     ChromeTransport.optConnectionName := "test-connection"%string;
     ChromeTransport.optReconnect := None;
     ChromeTransport.optMaxRetries := None;
     ChromeTransport.optBackoffFactor := None;
     ChromeTransport.optInitialDelayMs := None;
     ChromeTransport.optConnectTimeoutMs := None;
     ChromeTransport.optDebug := Some true |}.

(** Every call of [chrome.runtime.connect] throws. *)
Definition refused : nat -> option string := fun _ => Some "refused"%string.

End Scenarios.

(** ** The authentication provider (extension-auth-provider.ts) *)

Module Authn.

(** [ExtensionAuthProviderConfig]: every field is optional. *)
Record ExtensionAuthProviderConfig := {
  requireOriginCheck : option bool;
  allowedOrigins : option (list string);
  requireComponentTypeCheck : option bool;
  allowedComponentTypes : option (list string);
  tokenValidator : option (string -> bool);
  extensionId : option string
}.

(** [this.config] once the constructor has put the defaults under it. *)
Record Provider := {
  cfgRequireOriginCheck : bool;
  cfgAllowedOrigins : list string;
  cfgRequireComponentTypeCheck : bool;
  cfgAllowedComponentTypes : list string;
  cfgTokenValidator : option (string -> bool);
  cfgExtensionId : option string
}.

(** The parts of a [MessageContext] that [authenticate] reads. *)
Record MessageContext := {
  source : option string;
  userId : option string;
  metaComponentType : option string;
  metaToken : option string
}.

Record AuthUser := { id : string; roles : list string }.

Record AuthResult := {
  isAuthenticated : bool;
  user : option AuthUser;
  error : option string
}.

Definition constructor (config : ExtensionAuthProviderConfig) : Provider :=
  {| cfgRequireOriginCheck := default true (requireOriginCheck config);
     cfgAllowedOrigins := default [] (allowedOrigins config);
     cfgRequireComponentTypeCheck :=
       default true (requireComponentTypeCheck config);
     cfgAllowedComponentTypes :=
       default ["background"; "content"; "popup"; "sidepanel"; "options"]
               (allowedComponentTypes config);
     cfgTokenValidator := tokenValidator config;
     cfgExtensionId := extensionId config |}.

Definition refuse (why : string) : AuthResult :=
  {| isAuthenticated := false; user := None; error := Some why |}.

(** A value that is present and truthy. *)
Definition truthyOpt (o : option string) : option string :=
  match o with
  | Some s => if Js.truthy s then Some s else None
  | None => None
  end.

Section Authenticate.

(** [new RegExp(pattern).test(subject)] of the host. *)
Variable regExpTest : string -> string -> bool.

(** The origin check of a content script: with no allowed origin every
    source passes, else some allowed origin has to match it. *)
Definition originAllowed (this : Provider) (sourceUrl : string) : bool :=
  if (0 <? List.length (cfgAllowedOrigins this))%nat
  then existsb (Authz.originMatches regExpTest sourceUrl) (cfgAllowedOrigins this)
  else true.

(** The four checks of [authenticate], in the order of the source; each
    gives the result returned early, if the check refuses. *)
Definition checkExtensionId (this : Provider) (context : MessageContext)
  : option AuthResult :=
  match truthyOpt (cfgExtensionId this) with
  | Some ext =>
      if negb (bool_decide (userId context = Some ext))
      then Some (refuse "Invalid extension ID") else None
  | None => None
  end.

Definition checkComponentType (this : Provider) (context : MessageContext)
  : option AuthResult :=
  if cfgRequireComponentTypeCheck this then
    match truthyOpt (metaComponentType context) with
    | Some componentType =>
        if negb (Js.includes componentType (cfgAllowedComponentTypes this))
        then Some (refuse ("Component type not allowed: " ++ componentType))
        else None
    | None => None
    end
  else None.

Definition checkOrigin (this : Provider) (context : MessageContext)
  : option AuthResult :=
  if cfgRequireOriginCheck this
     && bool_decide (metaComponentType context = Some "content")
  then
    match truthyOpt (source context) with
    | Some sourceUrl =>
        if negb (originAllowed this sourceUrl)
        then Some (refuse ("Origin not allowed: " ++ sourceUrl))
        else None
    | None => None
    end
  else None.

Definition checkToken (this : Provider) (context : MessageContext)
  : option AuthResult :=
  match cfgTokenValidator this, truthyOpt (metaToken context) with
  | Some validator, Some tok =>
      if negb (validator tok)
      then Some (refuse "Invalid authentication token") else None
  | _, _ => None
  end.

Definition authenticated (context : MessageContext) : AuthResult :=
  {| isAuthenticated := true;
     user := Some {| id := Js.orElse (userId context) "anonymous";
                     roles := [Js.orElse (metaComponentType context) "unknown"] |};
     error := None |}.

(** [authenticate(context)] *)
Definition authenticate (this : Provider) (context : MessageContext) : AuthResult :=
  match checkExtensionId this context with
  | Some r => r
  | None =>
  match checkComponentType this context with
  | Some r => r
  | None =>
  match checkOrigin this context with
  | Some r => r
  | None =>
  match checkToken this context with
  | Some r => r
  | None => authenticated context
  end end end end.

End Authenticate.

(** The context that the authorization provider sees for an authenticated
    user: the user of the result, the source and the component type of the
    message. *)
Definition authorizationContext (context : MessageContext) (r : AuthResult)
  : Authz.MessageContext :=
  {| Authz.source := source context;
     Authz.userRoles := roles <$> user r;
     Authz.metaComponentType := metaComponentType context |}.

End Authn.

(** ** The factories of the extension server
    (chrome-extension-transport-factory.ts, chrome-extension-server-factory.ts,
    component-configs.ts) *)

Module ExtServer.

(** A call that returns a value or throws [new Error(message)]. *)
Inductive Result (A : Type) :=
| Ok (a : A)
| Throws (message : string).
Arguments Ok {A} a.
Arguments Throws {A} message.

(** A transport configuration as a caller hands it over: the component
    type is any string, or missing. *)
Record TransportConfig := {
  tcComponentType : option string;
  tcTargetTabId : option Z;
  tcHandleResponses : option bool;
  tcNamespace : option string
}.

Definition validComponentTypes : list string :=
  ["background"; "content"; "popup"; "sidepanel"; "options"].

(** The component type that a valid name stands for. *)
Definition parseComponentType (s : string) : option ExtTransport.ComponentType :=
  if String.eqb s "background" then Some ExtTransport.background
  else if String.eqb s "content" then Some ExtTransport.content
  else if String.eqb s "popup" then Some ExtTransport.popup
  else if String.eqb s "sidepanel" then Some ExtTransport.sidepanel
  else if String.eqb s "options" then Some ExtTransport.options
  else None.

(** The two checks that both [validateConfig] make on the component type;
    [who] is the name of the configuration in the first message. *)
Definition validateComponentType (who : string) (componentType : option string)
  : Result string :=
  match componentType with
  | None => Throws (who ++ " requires componentType")
  | Some c =>
      if negb (Js.truthy c) then Throws (who ++ " requires componentType")
      else if negb (Js.includes c validComponentTypes)
      then Throws ("Invalid componentType: " ++ c ++ ". Must be one of: " ++
                   String.concat ", " validComponentTypes)
      else Ok c
  end.

(** [ChromeExtensionTransportFactory.validateConfig]: it throws, or returns
    after the warnings it has printed. *)
Definition validateTransportConfig (config : TransportConfig)
  : Result (list string) :=
  match validateComponentType "ChromeExtensionTransportConfig"
                              (tcComponentType config) with
  | Throws e => Throws e
  | Ok c =>
      Ok (if String.eqb c "content"
             && bool_decide (tcTargetTabId config = None)
          then ["Content script transport with no targetTabId will only communicate with the background script"]
          else [])
  end.

Section Factories.
Context {Payload : Type}.

(** [ChromeExtensionTransportFactory.create]: the transport and the
    warnings printed. *)
Definition createTransport (config : TransportConfig) (clock : N)
  : Result (@ExtTransport.World Payload * list string) :=
  match validateTransportConfig config with
  | Throws e => Throws e
  | Ok warnings =>
      match tcComponentType config ≫= parseComponentType with
      | Some c =>
          Ok (ExtTransport.constructor
                {| ExtTransport.componentType := c;
                   ExtTransport.targetTabId := tcTargetTabId config;
                   ExtTransport.handleResponses := tcHandleResponses config;
                   ExtTransport.configNamespace := tcNamespace config |}
                clock,
              warnings)
      | None =>
          (* not reached: a validated component type is one of the five *)
          Throws "Invalid componentType"
      end
  end.

Record ExtensionOptions := {
  autoConnectToBackground : option bool;
  useLongLivedConnections : option bool;
  handleSystemEvents : option bool;
  heartbeatInterval : option Z
}.

(** [ChromeExtensionServerConfig], without the factories and the
    configurations that are handed on to the messaging library unread.  The
    transport factory is the default one. *)
Record ChromeExtensionServerConfig := {
  componentType : option string;
  targetTabId : option Z;
  namespace : option string;
  transportConfig : option TransportConfig;
  extensionOptions : option ExtensionOptions
}.

(** What [create] hands to [Server.create], and what it has done besides. *)
Record ServerSetup := {
  transport : @ExtTransport.World Payload;
  options : option ExtensionOptions;
  systemEventsEnabled : bool;
  heartbeatIntervalMs : Z;
  (* the events that [setupBackgroundConnection] registers handlers for *)
  backgroundEvents : list string;
  warnings : list string
}.

(** [ChromeExtensionServerFactory.validateConfig] *)
Definition validateServerConfig (config : ChromeExtensionServerConfig)
  : Result (list string) :=
  match validateComponentType "ChromeExtensionServerConfig"
                              (componentType config) with
  | Throws e => Throws e
  | Ok c =>
      Ok (app
            (if String.eqb c "content" && bool_decide (targetTabId config = None)
             then ["Content script server with no targetTabId will only communicate with the background script"]
             else [])
            (if bool_decide (transportConfig config = None)
             then ["No transportFactory or transportConfig provided, using defaults"]
             else []))
  end.

(** The object literal [transportConfig] of [create]: the four properties
    written after the spread of [extensionConfig.transportConfig] are all
    the properties a transport configuration has. *)
Definition serverTransportConfig (config : ChromeExtensionServerConfig)
  : TransportConfig :=
  {| tcComponentType := componentType config;
     tcTargetTabId := targetTabId config;
     tcNamespace := Some (Js.orElse (namespace config) "magicbutton");
     tcHandleResponses := Some true |}.

(** [ChromeExtensionServerFactory.create] *)
Definition create (config : ChromeExtensionServerConfig) (clock : N)
  : Result ServerSetup :=
  match validateServerConfig config with
  | Throws e => Throws e
  | Ok warned =>
      match createTransport (serverTransportConfig config) clock with
      | Throws e => Throws e
      | Ok (t, warned') =>
          Ok {| transport := t;
                options := extensionOptions config;
                systemEventsEnabled :=
                  default true (extensionOptions config ≫= handleSystemEvents);
                heartbeatIntervalMs :=
                  default 0%Z (extensionOptions config ≫= heartbeatInterval);
                backgroundEvents :=
                  if negb (bool_decide (componentType config = Some "background"))
                     && negb (bool_decide
                                (extensionOptions config ≫= autoConnectToBackground
                                 = Some false))
                  then ["system:connected"; "system:disconnected";
                        "system:heartbeat"]
                  else [];
                warnings := app warned warned' |}
      end
  end.

(** *** component-configs.ts *)

Record BackgroundOptions := {
  bgNamespace : option string;
  bgHeartbeatInterval : option Z
}.

Record ContentScriptOptions := {
  csNamespace : option string;
  csTargetTabId : option Z;
  csAutoConnectToBackground : option bool
}.

(** The options of [createPopupConfig], [createSidePanelConfig] and
    [createOptionsConfig]. *)
Record PageOptions := {
  pgNamespace : option string;
  pgAutoConnectToBackground : option bool
}.

(** [n || d] on an optional number: [undefined] and [0] give [d]. *)
Definition orNumber (n : option Z) (d : Z) : Z :=
  match n with
  | Some z => if Z.eqb z 0 then d else z
  | None => d
  end.

Definition onlyComponentType (c : string) : TransportConfig :=
  {| tcComponentType := Some c; tcTargetTabId := None;
     tcHandleResponses := None; tcNamespace := None |}.

Definition createBackgroundConfig (o : BackgroundOptions)
  : ChromeExtensionServerConfig :=
  {| componentType := Some "background";
     targetTabId := None;
     namespace := Some (Js.orElse (bgNamespace o) "magicbutton");
     transportConfig := Some (onlyComponentType "background");
     extensionOptions :=
       Some {| autoConnectToBackground := None;
               handleSystemEvents := Some true;
               heartbeatInterval := Some (orNumber (bgHeartbeatInterval o) 30000);
               useLongLivedConnections := Some true |} |}.

Definition createContentScriptConfig (o : ContentScriptOptions)
  : ChromeExtensionServerConfig :=
  {| componentType := Some "content";
     targetTabId := csTargetTabId o;
     namespace := Some (Js.orElse (csNamespace o) "magicbutton");
     transportConfig :=
       Some {| tcComponentType := Some "content";
               tcTargetTabId := csTargetTabId o;
               tcHandleResponses := None; tcNamespace := None |};
     extensionOptions :=
       Some {| autoConnectToBackground :=
                 Some (negb (bool_decide (csAutoConnectToBackground o = Some false)));
               handleSystemEvents := None;
               heartbeatInterval := None;
               useLongLivedConnections := Some false |} |}.

(** The three page helpers differ in the component type and in
    [useLongLivedConnections]. *)
Definition createPageConfig (c : string) (longLived : bool) (o : PageOptions)
  : ChromeExtensionServerConfig :=
  {| componentType := Some c;
     targetTabId := None;
     namespace := Some (Js.orElse (pgNamespace o) "magicbutton");
     transportConfig := Some (onlyComponentType c);
     extensionOptions :=
       Some {| autoConnectToBackground :=
                 Some (negb (bool_decide (pgAutoConnectToBackground o = Some false)));
               handleSystemEvents := None;
               heartbeatInterval := None;
               useLongLivedConnections := Some longLived |} |}.

Definition createPopupConfig : PageOptions -> ChromeExtensionServerConfig :=
  createPageConfig "popup" false.

Definition createSidePanelConfig : PageOptions -> ChromeExtensionServerConfig :=
  createPageConfig "sidepanel" true.

Definition createOptionsConfig : PageOptions -> ChromeExtensionServerConfig :=
  createPageConfig "options" true.

End Factories.

End ExtServer.

(** ** The worlds of the reconnection controller *)

Module ChromeReach.
Section Reach.
Import ChromeTransport.
Context {Msg : Type}.

(** The worlds a [ChromeTransport] can be in. *)
Inductive reachable : @World Msg -> Prop :=
| start o throws : reachable (constructor o throws)
| after w ev : reachable w -> reachable (step w ev).

(** The calls of [resolve] and [reject] of the promise [p], oldest first. *)
Definition settlements (p : nat) (es : list (@Effect Msg)) : list Effect :=
  List.filter (settles p) es.

(** What holds between any two calls into the transport. *)
Record steady (w : @World Msg) : Prop := {
  st_port : isConnected w = true <-> is_Some (port w);
  st_resolver : connectResolver w = None;
  st_rejecter : connectRejecter w = None;
  st_timers : forall t a, In (t, a) (timers w) ->
    a = Reconnect /\ t < nextTimer w;
  st_attempts : reconnectAttempts w <= maxRetries (config w);
  st_fresh : isConnected w = true -> reconnectAttempts w = 0;
  st_promise : forall p, connectPromise w = Some p -> p < nextPromise w;
  st_stored : isConnected w = true -> is_Some (connectPromise w);
  st_settled : forall p, p < nextPromise w ->
    exists e, settlements p (effects w) = [e];
  st_unborn : forall p, nextPromise w <= p -> settlements p (effects w) = []
}.

End Reach.
End ChromeReach.

(** ** Events and requests over the port (chrome-transport.ts) *)

Module ChromeRouter.

(** What is read of a caught error: [error.message] and [error.stack]. *)
Record HandlerError := { heMessage : option string; heStack : option string }.

(** What [logDebug] is called with by [handleMessage]. *)
Inductive Note :=
| EventHandlerFailed (eventType : string)
| RequestHandlerFailed (type : string).

(** How an [async] function ends. *)
Inductive Settled := Fulfilled | Rejected (err : string).

(** [message.type.substring(6)] *)
Definition substring6 (s : string) : string :=
  String.substring 6 (String.length s - 6) s.

Definition truthyOpt (o : option string) : option string :=
  match o with
  | Some s => if Js.truthy s then Some s else None
  | None => None
  end.

Section Router.
Context {Payload : Type}.

(** [Message]: the type is declared a string, and tested before use. *)
Record Message := {
  type : option string;
  payload : option Payload;
  requestId : option string;
  error : option HandlerError
}.

(** The calls of functions of the user, and of [console.log], in order. *)
Inductive Call :=
| MessageCallback (callback : nat) (m : Message)
| EventHandler (wrapper handler : nat) (p : option Payload)
| RequestHandler (handler : nat) (p : option Payload) (requestId : string)
| Log (n : Note).

(** The transport with its handlers.  A [Set] of event handlers is the list
    of its elements in insertion order: each is a wrapper, a function made
    by [subscribe], with the handler it calls. *)
Record Router := {
  transport : @ChromeTransport.World Message;
  messageCallback : option nat;
  eventHandlers : Js.JsMap (list (nat * nat));
  requestHandlers : Js.JsMap nat;
  nextWrapper : nat;
  calls : list Call
}.

Definition setTransport (x : @ChromeTransport.World Message) (r : Router) : Router :=
  {| transport := x; messageCallback := messageCallback r;
     eventHandlers := eventHandlers r; requestHandlers := requestHandlers r;
     nextWrapper := nextWrapper r; calls := calls r |}.

Definition setEventHandlers (x : Js.JsMap (list (nat * nat))) (r : Router) : Router :=
  {| transport := transport r; messageCallback := messageCallback r;
     eventHandlers := x; requestHandlers := requestHandlers r;
     nextWrapper := nextWrapper r; calls := calls r |}.

Definition setRequestHandlers (x : Js.JsMap nat) (r : Router) : Router :=
  {| transport := transport r; messageCallback := messageCallback r;
     eventHandlers := eventHandlers r; requestHandlers := x;
     nextWrapper := nextWrapper r; calls := calls r |}.

Definition log (c : Call) (r : Router) : Router :=
  {| transport := transport r; messageCallback := messageCallback r;
     eventHandlers := eventHandlers r; requestHandlers := requestHandlers r;
     nextWrapper := nextWrapper r; calls := app (calls r) [c] |}.

(** [new ChromeTransport(options)] *)
Definition constructor (o : ChromeTransport.ChromeTransportOptions)
    (throws : nat -> option string) : Router :=
  {| transport := ChromeTransport.constructor o throws;
     messageCallback := None; eventHandlers := []; requestHandlers := [];
     nextWrapper := 0; calls := [] |}.

(** [logDebug(...)] *)
Definition logDebug (n : Note) (r : Router) : Router :=
  if ChromeTransport.debug (ChromeTransport.config (transport r))
  then log (Log n) r else r.

(** [receive(callback)] *)
Definition receive (r : Router) (callback : nat) : Router :=
  {| transport := transport r; messageCallback := Some callback;
     eventHandlers := eventHandlers r; requestHandlers := requestHandlers r;
     nextWrapper := nextWrapper r; calls := calls r |}.

(** [subscribe(eventType, handler)]: the wrapper it has made, which names
    the function it returns, and the router after. *)
Definition subscribe (r : Router) (eventType : string) (handler : nat)
  : nat * Router :=
  let r1 :=
    match Js.get eventType (eventHandlers r) with
    | Some _ => r
    | None => setEventHandlers (Js.set eventType [] (eventHandlers r)) r
    end in
  let eventHandler := nextWrapper r1 in
  let handlers := default [] (Js.get eventType (eventHandlers r1)) in
  (eventHandler,
   {| transport := transport r1; messageCallback := messageCallback r1;
      eventHandlers :=
        Js.set eventType (app handlers [(eventHandler, handler)])
               (eventHandlers r1);
      requestHandlers := requestHandlers r1;
      nextWrapper := S eventHandler; calls := calls r1 |}).

(** [handlers.delete(eventHandler)] *)
Definition remove (eventHandler : nat) (handlers : list (nat * nat))
  : list (nat * nat) :=
  List.filter (fun x => negb (Nat.eqb (fst x) eventHandler)) handlers.

(** The function that [subscribe(eventType, ...)] returned with the wrapper
    [eventHandler]. *)
Definition unsubscribe (r : Router) (eventType : string) (eventHandler : nat)
  : Router :=
  match Js.get eventType (eventHandlers r) with
  | Some handlers =>
      let handlers' := remove eventHandler handlers in
      if Nat.eqb (List.length handlers') 0
      then setEventHandlers (Js.delete eventType (eventHandlers r)) r
      else setEventHandlers (Js.set eventType handlers' (eventHandlers r)) r
  | None => r
  end.

(** [registerRequestHandler(type, handler)] *)
Definition registerRequestHandler (r : Router) (type : string) (handler : nat)
  : Router :=
  setRequestHandlers (Js.set type handler (requestHandlers r)) r.

(** The function that [registerRequestHandler(type, ...)] returned. *)
Definition unregister (r : Router) (type : string) : Router :=
  setRequestHandlers (Js.delete type (requestHandlers r)) r.

(** [send(message)] on the transport of the router. *)
Definition send (r : Router) (message : Message) (postThrows : option string)
  : ChromeTransport.SendResult * Router :=
  let (result, w) := ChromeTransport.send (transport r) message postThrows in
  (result, setTransport w r).

(** [publish(eventType, payload)] *)
Definition publish (r : Router) (eventType : string) (p : option Payload)
    (postThrows : option string) : ChromeTransport.SendResult * Router :=
  send r {| type := Some ("event:" ++ eventType); payload := p;
            requestId := None; error := None |} postThrows.

(** What the functions of the user and the port do during one call of
    [handleMessage]: whether the message callback throws, which wrappers
    throw, how the request handler ends, what [port.postMessage] throws for
    the response and for the error response, and the stack of an error
    thrown by [send]. *)
Record Host := {
  callbackThrows : option string;
  eventThrows : nat -> bool;
  outcome : option Payload + HandlerError;
  postResult : option string;
  postError : option string;
  sendStack : option string
}.

(** One turn of the loop over the handlers of an event. *)
Definition callEventHandler (host : Host) (eventType : string)
    (p : option Payload) (r : Router) (h : nat * nat) : Router :=
  let r1 := log (EventHandler (fst h) (snd h) p) r in
  if eventThrows host (fst h) then logDebug (EventHandlerFailed eventType) r1
  else r1.

(** The [catch] block of the request branch. *)
Definition answerError (host : Host) (r : Router) (t id : string)
    (e : HandlerError) : Settled * Router :=
  let r1 := logDebug (RequestHandlerFailed t) r in
  match send r1 {| type := Some (t ++ "_response"); payload := None;
                   requestId := Some id; error := Some e |}
             (postError host) with
  | (ChromeTransport.Sent, r2) => (Fulfilled, r2)
  | (ChromeTransport.Thrown err, r2) => (Rejected err, r2)
  end.

(** [handleMessage(message)] *)
Definition handleMessage (r : Router) (message : Message) (host : Host)
  : Settled * Router :=
  let r1 :=
    match messageCallback r with
    | Some callback => log (MessageCallback callback message) r
    | None => r
    end in
  match messageCallback r, callbackThrows host with
  | Some _, Some err => (Rejected err, r1)
  | _, _ =>
      match truthyOpt (type message) with
      | None => (Fulfilled, r1)
      | Some t =>
          if Js.startsWith t "event:" then
            let eventType := substring6 t in
            match Js.get eventType (eventHandlers r1) with
            | Some handlers =>
                (Fulfilled,
                 fold_left (callEventHandler host eventType (payload message))
                           handlers r1)
            | None => (Fulfilled, r1)
            end
          else
            match truthyOpt (requestId message) with
            | None => (Fulfilled, r1)
            | Some id =>
                if Js.endsWith t "_response" then (Fulfilled, r1)
                else
                  match Js.get t (requestHandlers r1) with
                  | None => (Fulfilled, r1)
                  | Some handler =>
                      let r2 := log (RequestHandler handler (payload message) id)
                                    r1 in
                      match outcome host with
                      | inr e => answerError host r2 t id e
                      | inl result =>
                          match send r2 {| type := Some (t ++ "_response");
                                           payload := result;
                                           requestId := Some id;
                                           error := None |}
                                     (postResult host) with
                          | (ChromeTransport.Sent, r3) => (Fulfilled, r3)
                          | (ChromeTransport.Thrown err, r3) =>
                              answerError host r3 t id
                                {| heMessage := Some err;
                                   heStack := sendStack host |}
                          end
                      end
                  end
            end
      end
  end.

(** The handlers a list of calls has invoked for events, in order. *)
Definition eventCalls (cs : list Call) : list (nat * option Payload) :=
  omap (fun c => match c with
                 | EventHandler _ h p => Some (h, p)
                 | _ => None
                 end) cs.

(** The request handlers a list of calls has invoked. *)
Definition requestCalls (cs : list Call) : list nat :=
  omap (fun c => match c with
                 | RequestHandler h _ _ => Some h
                 | _ => None
                 end) cs.

(** The messages a log of the transport has written to the port. *)
Definition posted (es : list (@ChromeTransport.Effect Message)) : list Message :=
  omap (fun e => match e with
                 | ChromeTransport.PortPostMessage _ m => Some m
                 | _ => None
                 end) es.

(** Two routers with the same handlers. *)
Definition sameHandlers (r r' : Router) : Prop :=
  eventHandlers r' = eventHandlers r /\
  requestHandlers r' = requestHandlers r /\
  nextWrapper r' = nextWrapper r /\
  messageCallback r' = messageCallback r.

(** The calls into a router. *)
Inductive Op :=
| OpReceive (callback : nat)
| OpSubscribe (eventType : string) (handler : nat)
| OpUnsubscribe (eventType : string) (eventHandler : nat)
| OpRegister (type : string) (handler : nat)
| OpUnregister (type : string)
| OpPublish (eventType : string) (p : option Payload) (postThrows : option string)
| OpHandle (message : Message) (host : Host)
| OpTransport (ev : @ChromeTransport.Event Message).

Definition apply (r : Router) (op : Op) : Router :=
  match op with
  | OpReceive callback => receive r callback
  | OpSubscribe eventType handler => snd (subscribe r eventType handler)
  | OpUnsubscribe eventType eventHandler => unsubscribe r eventType eventHandler
  | OpRegister type handler => registerRequestHandler r type handler
  | OpUnregister type => unregister r type
  | OpPublish eventType p postThrows => snd (publish r eventType p postThrows)
  | OpHandle message host => snd (handleMessage r message host)
  | OpTransport ev => setTransport (ChromeTransport.step (transport r) ev) r
  end.

(** The routers that calls can lead to. *)
Inductive reachable : Router -> Prop :=
| fresh o throws : reachable (constructor o throws)
| next r op : reachable r -> reachable (apply r op).

(** No empty set is kept in [eventHandlers], the keys of both maps are
    distinct, and the wrappers are those made so far. *)
Record tidy (r : Router) : Prop := {
  tidy_keys : List.NoDup (map fst (eventHandlers r));
  tidy_sets : forall t hs, In (t, hs) (eventHandlers r) -> hs <> [];
  tidy_wrappers : forall t hs k h, In (t, hs) (eventHandlers r) ->
    In (k, h) hs -> k < nextWrapper r;
  tidy_requests : List.NoDup (map fst (requestHandlers r))
}.

End Router.
End ChromeRouter.

(** ** What the broker transport receives (nats-transport.ts) *)

Module NatsInbound.

(** [s.split('.')]: the pieces between the dots, at least one. *)
Fixpoint split (s : string) : list string :=
  match s with
  | EmptyString => [EmptyString]
  | String c r =>
      if Ascii.eqb c "."%char then EmptyString :: split r
      else match split r with
           | x :: xs => String c x :: xs
           | [] => [String c EmptyString]
           end
  end.



Section Inbound.
Context {Payload : Type}.

(** The object given to the message callback. *)
Record Delivery := {
  dType : string;
  dPayload : Payload;
  dRequestId : option string
}.

(** [receive(callback)] *)
Definition receive (w : @NatsTransport.World Payload) (callback : nat)
  : @NatsTransport.World Payload :=
  {| NatsTransport.config := NatsTransport.config w;
     NatsTransport.nats := NatsTransport.nats w;
     NatsTransport.messageCallback := Some callback;
     NatsTransport.subscriptions := NatsTransport.subscriptions w;
     NatsTransport.connected := NatsTransport.connected w;
     NatsTransport.connecting := NatsTransport.connecting w;
     NatsTransport.nextSubscription := NatsTransport.nextSubscription w;
     NatsTransport.effects := NatsTransport.effects w |}.

(** The handler of the subscription to [>]: [first] is
    [headers?.get('requestId')?.[0]].  The result is the calls of the
    message callback, with the callback and its argument. *)
Definition onResponse (w : @NatsTransport.World Payload) (first : option string)
    (data : Payload) : list (nat * Delivery) :=
  match NatsTransport.truthyOpt first, NatsTransport.messageCallback w with
  | Some requestId, Some callback =>
      [(callback, {| dType := "response"; dPayload := data;
                     dRequestId := Some requestId |})]
  | _, _ => []
  end.


(** A call of [connect] that gets the connection [conn] and runs to its
    end. *)
Definition connectFully (w : @NatsTransport.World Payload) (conn : nat)
  : @NatsTransport.World Payload :=
  snd (NatsTransport.connectSubscribed
         (snd (NatsTransport.connectOpened (snd (NatsTransport.connect w))
                                           (inl conn)))).


(** The connections a log closes. *)
Definition closed (es : list (@NatsTransport.Effect Payload)) : list nat :=
  omap (fun e => match e with
                 | NatsTransport.NatsClose c => Some c
                 | _ => None
                 end) es.

(** The subscriptions a log ends. *)
Definition unsubscribed (es : list (@NatsTransport.Effect Payload)) : list nat :=
  omap (fun e => match e with
                 | NatsTransport.Unsubscribe s => Some s
                 | _ => None
                 end) es.

End Inbound.
End NatsInbound.

(** ** Further configurations used by the examples *)

Module Cases.

Section Providers.

(** [new ExtensionAuthorizationProvider()] *)
Definition emptyConfig : Authz.ExtensionAuthorizationProviderConfig :=
  {| Authz.permissions := None;
     Authz.allowUndefinedMessages := None;
     Authz.enforceContentScriptOrigins := None;
     Authz.contentScriptOriginPermissions := None |}.

Definition backgroundContext : Authz.MessageContext :=
  {| Authz.source := None;
     Authz.userRoles := Some ["background"];
     Authz.metaComponentType := None |}.

Definition popupContext : Authz.MessageContext :=
  {| Authz.source := None;
     Authz.userRoles := None;
     Authz.metaComponentType := Some "popup" |}.




(** [new ExtensionAuthProvider({ allowedOrigins: [...] })] *)
Definition authConfig : Authn.ExtensionAuthProviderConfig :=
  {| Authn.requireOriginCheck := None;
     Authn.allowedOrigins := Some ["https://example.com"];
     Authn.requireComponentTypeCheck := None;
     Authn.allowedComponentTypes := None;
     Authn.tokenValidator := None;
     Authn.extensionId := None |}.

(** A message that does not say which component sent it. *)
Definition anonymousContext : Authn.MessageContext :=
  {| Authn.source := Some "https://evil.test/";
     Authn.userId := None;
     Authn.metaComponentType := None;
     Authn.metaToken := None |}.

Definition contentScript : Authn.MessageContext :=
  {| Authn.source := Some "https://example.com/page";
     Authn.userId := Some "ext";
     Authn.metaComponentType := Some "content";
     Authn.metaToken := None |}.

End Providers.

Section Routers.
Import ChromeRouter.

(** A router that has just been made, and one whose port is open. *)
Definition newRouter : @Router unit :=
  constructor Scenarios.chromeTestOptions (fun _ => None).

Definition openRouter : @Router unit :=
  apply newRouter (OpTransport ChromeTransport.EvConnect).

(** A host on which nothing throws and the request handler returns. *)
Definition calmHost : @Host unit :=
  {| callbackThrows := None; eventThrows := fun _ => false;
     outcome := inl (Some tt); postResult := None; postError := None;
     sendStack := None |}.


End Routers.

End Cases.

(** ** Outstanding requests of the correlation engine *)

Module Pending.
Section Pending.
Import ExtTransport.
Context {Payload : Type}.

(** Every entry of the table has its timer armed, and every armed timer is
    due within [MESSAGE_TIMEOUT]. *)
Record tracked (w : @World Payload) : Prop := {
  tracked_entry : forall k rh, In (k, rh) (responseHandlers w) ->
    exists tm, In (timeout rh, tm) (timers w);
  tracked_deadline : forall t tm, In (t, tm) (timers w) ->
    (deadline tm <= now w + MESSAGE_TIMEOUT)%N
}.

(** No outstanding request of [w] uses the correlation id [cid]: no armed
    timer and no callback that chrome has yet to call closes over it. *)
Definition unused (cid : string) (w : @World Payload) : Prop :=
  (forall t tm, In (t, tm) (timers w) -> tcCorrelationId (closure tm) <> cid) /\
  (forall c cb, callbacks w !! c = Some cb -> cbCorrelationId cb <> cid).

(** The event sends a message whose id is [cid]. *)
Definition resends (cid : string) (ev : @Event Payload) : bool :=
  match ev with
  | EvSend m _ => String.eqb (msgId m) cid
  | _ => false
  end.

(** The request [p] with the correlation id [cid] and the timer [tm] is
    outstanding, and it is the only one that uses [cid]. *)
Record outstanding (p : nat) (cid : string) (tm : Timer) (w : @World Payload)
  : Prop := {
  out_entry : Js.get cid (responseHandlers w) =
              Some {| resolve := p; reject := p; timeout := p |};
  out_timer : In (p, tm) (timers w);
  out_closure : tcCorrelationId (closure tm) = cid;
  out_timers : forall t tm', In (t, tm') (timers w) ->
    tcCorrelationId (closure tm') = cid -> t = p;
  out_callbacks : forall c cb, callbacks w !! c = Some cb ->
    cbCorrelationId cb = cid -> c = p
}.

End Pending.
End Pending.

(** ** A message on its way to another component *)

Module Wire.
Section Wire.
Import ExtTransport.
Context {Payload : Type}.

(** The values of the type [componentType]. *)
Definition componentTypeName (c : ComponentType) : string :=
  match c with
  | background => "background"
  | content => "content"
  | popup => "popup"
  | sidepanel => "sidepanel"
  | options => "options"
  end.

(** The object that the listener of the receiving component gets from
    chrome for a message handed to [sendMessage]: the same object, field by
    field. *)
Definition delivered (m : @WrappedMessage Payload) : @RawMessage Payload :=
  {| rawNamespace := Some (wNamespace m);
     rawComponentType := Some (componentTypeName (wComponentType m));
     rawData := Some {| dataId := Some (tmId (wData m));
                        dataType := Some (tmType (wData m));
                        dataCorrelationId := tmCorrelationId (wData m);
                        dataPayload := tmPayload (wData m);
                        dataError := None |} |}.


End Wire.
End Wire.

(** * Properties *)

(** ** Strings and ordered maps *)

Section StringFacts.

#[local] Arguments String.append : simpl nomatch.

Lemma string_length_app (a b : string) :
  String.length (a ++ b) = (String.length a + String.length b)%nat.
Proof. induction a as [|c a IH]; simpl; [reflexivity | now rewrite IH]. Qed.

Lemma substring_0_all (s : string) : String.substring 0 (String.length s) s = s.
Proof. induction s as [|c s IH]; simpl; [reflexivity | now rewrite IH]. Qed.

Lemma substring_0_app (a b : string) :
  String.substring 0 (String.length a) (a ++ b) = a.
Proof. induction a as [|c a IH]; simpl; [now destruct b | now rewrite IH]. Qed.

Lemma substring_skip_app (a b : string) (n : nat) :
  String.substring (String.length a) n (a ++ b) = String.substring 0 n b.
Proof. induction a as [|c a IH]; simpl; [reflexivity | exact IH]. Qed.

Lemma substring_split (s : string) (n : nat) :
  (n <= String.length s)%nat ->
  s = String.substring 0 n s ++ String.substring n (String.length s - n) s.
Proof.
  revert n; induction s as [|c s IH]; intros [|n] Hn; simpl in *.
  - reflexivity.
  - lia.
  - now rewrite substring_0_all.
  - f_equal. apply IH. lia.
Qed.

Lemma startsWith_iff (s p : string) :
  Js.startsWith s p = true <-> exists r, s = p ++ r.
Proof.
  unfold Js.startsWith. revert s; induction p as [|c p IH]; intros s; simpl.
  - split; [intros _; now exists s | now destruct s].
  - destruct s as [|d s].
    + split; [discriminate | intros [r Hr]; discriminate].
    + simpl. destruct (ascii_dec c d) as [->|Hne].
      * specialize (IH s). split.
        -- intros H. apply IH in H as [r Hr]. exists r. congruence.
        -- intros [r Hr]. apply IH. exists r. congruence.
      * split; [discriminate | intros [r Hr]; congruence].
Qed.

Lemma endsWith_iff (s suffix : string) :
  Js.endsWith s suffix = true <-> exists r, s = r ++ suffix.
Proof.
  unfold Js.endsWith. split.
  - intros H. apply andb_prop in H as [Hle Heq].
    apply Nat.leb_le in Hle. apply String.eqb_eq in Heq.
    exists (String.substring 0 (String.length s - String.length suffix) s).
    pose proof (substring_split s (String.length s - String.length suffix)) as Hs.
    replace (String.length s - (String.length s - String.length suffix))%nat
      with (String.length suffix) in Hs by lia.
    rewrite Heq in Hs. apply Hs. lia.
  - intros [r ->]. rewrite string_length_app.
    apply andb_true_intro; split; [apply Nat.leb_le; lia|].
    replace (String.length r + String.length suffix - String.length suffix)%nat
      with (String.length r) by lia.
    rewrite substring_skip_app, substring_0_all. apply String.eqb_refl.
Qed.

Lemma string_app_assoc (a b c : string) : (a ++ b) ++ c = a ++ (b ++ c).
Proof. induction a as [|x a IH]; simpl; [reflexivity | now rewrite IH]. Qed.

Lemma slice_0_m1_wildcard (pre : string) :
  Js.slice_0_m1 (pre ++ ":*") = pre ++ ":".
Proof.
  unfold Js.slice_0_m1.
  replace (pre ++ ":*") with ((pre ++ ":") ++ "*")
    by (rewrite string_app_assoc; reflexivity).
  rewrite string_length_app. simpl.
  replace (String.length (pre ++ ":") + 1 - 1)%nat
    with (String.length (pre ++ ":")) by lia.
  apply substring_0_app.
Qed.

Lemma includes_iff (x : string) (xs : list string) :
  Js.includes x xs = true <-> In x xs.
Proof.
  unfold Js.includes. rewrite existsb_exists. split.
  - intros [y [Hy Heq]]. apply String.eqb_eq in Heq. now subst.
  - intros H. exists x. split; [assumption | apply String.eqb_refl].
Qed.

End StringFacts.

Section OrderedMapFacts.
Context {V : Type}.
Implicit Types (m : Js.JsMap V) (k : string) (v : V) (e : string * V).

Lemma NoDup_map_eq {A B : Type} (f : A -> B) (l : list A) (a b : A) :
  List.NoDup (map f l) -> In a l -> In b l -> f a = f b -> a = b.
Proof.
  induction l as [|x l IH]; simpl; intros Hnd Ha Hb Hf; [contradiction|].
  inversion Hnd as [|? ? Hx Hl]; subst.
  destruct Ha as [->|Ha], Hb as [->|Hb].
  - reflexivity.
  - exfalso. apply Hx. rewrite Hf. now apply in_map.
  - exfalso. apply Hx. rewrite <- Hf. now apply in_map.
  - now apply IH.
Qed.

Lemma NoDup_map_filter {A B : Type} (f : A -> B) (g : A -> bool) (l : list A) :
  List.NoDup (map f l) -> List.NoDup (map f (List.filter g l)).
Proof.
  induction l as [|x l IH]; simpl; intros Hnd; [constructor|].
  inversion Hnd as [|? ? Hx Hl]; subst.
  destruct (g x); simpl; [|now apply IH].
  constructor; [|now apply IH].
  intros Hin. apply Hx. apply in_map_iff in Hin as [y [Hy Hin]].
  apply List.filter_In in Hin as [Hin _]. rewrite <- Hy. now apply in_map.
Qed.

Lemma get_In k m v : Js.get k m = Some v -> In (k, v) m.
Proof.
  induction m as [|[k' v'] m IH]; simpl; [discriminate|].
  destruct (String.eqb k k') eqn:E.
  - apply String.eqb_eq in E. intros [= ->]. subst. now left.
  - intros H. right. now apply IH.
Qed.

Lemma delete_In k m e : In e (Js.delete k m) -> In e m.
Proof.
  induction m as [|[k' v'] m IH]; simpl; [tauto|].
  destruct (String.eqb k k'); simpl; [tauto|].
  intros [H|H]; [now left | right; now apply IH].
Qed.

Lemma delete_key k m e :
  List.NoDup (map fst m) -> In e (Js.delete k m) -> fst e <> k.
Proof.
  induction m as [|[k' v'] m IH]; simpl; [tauto|].
  intros Hnd. inversion Hnd as [|? ? Hx Hl]; subst.
  destruct (String.eqb k k') eqn:E.
  - apply String.eqb_eq in E. subst k'. intros Hin Hk. apply Hx.
    rewrite <- Hk. now apply in_map.
  - apply String.eqb_neq in E. simpl. intros [<-|Hin]; [simpl; congruence|].
    now apply IH.
Qed.

Lemma delete_NoDup {B : Type} (f : string * V -> B) k m :
  List.NoDup (map f m) -> List.NoDup (map f (Js.delete k m)).
Proof.
  induction m as [|[k' v'] m IH]; simpl; intros Hnd; [constructor|].
  inversion Hnd as [|? ? Hx Hl]; subst.
  destruct (String.eqb k k'); [assumption|]. simpl.
  constructor; [|now apply IH].
  intros Hin. apply Hx. apply in_map_iff in Hin as [y [Hy Hin]].
  apply delete_In in Hin. rewrite <- Hy. now apply in_map.
Qed.

Lemma get_None_iff k m : Js.get k m = None <-> ~ In k (map fst m).
Proof.
  induction m as [|[k' v'] m IH]; simpl; [tauto|].
  destruct (String.eqb k k') eqn:E.
  - apply String.eqb_eq in E. subst. split; [discriminate | tauto].
  - apply String.eqb_neq in E. rewrite IH. split.
    + intros H [Hk|Hk]; [congruence | tauto].
    + tauto.
Qed.

Lemma get_delete k m : List.NoDup (map fst m) -> Js.get k (Js.delete k m) = None.
Proof.
  intros Hnd. apply get_None_iff. intros Hin.
  apply in_map_iff in Hin as [e [He Hin]].
  now apply (delete_key k m e Hnd Hin).
Qed.

Lemma get_delete_None k k' m : Js.get k m = None -> Js.get k (Js.delete k' m) = None.
Proof.
  rewrite !get_None_iff. intros H Hin. apply H.
  apply in_map_iff in Hin as [e [He Hin]]. apply delete_In in Hin.
  rewrite <- He. now apply in_map.
Qed.

Lemma set_In k v m e : In e (Js.set k v m) -> e = (k, v) \/ In e m.
Proof.
  induction m as [|[k' v'] m IH]; simpl.
  - intros [H|[]]. now left.
  - destruct (String.eqb k k') eqn:E; simpl.
    + apply String.eqb_eq in E. subst k'. intros [H|H]; [now left | tauto].
    + intros [H|H]; [tauto|]. apply IH in H. tauto.
Qed.

Lemma set_keys_NoDup k v m :
  List.NoDup (map fst m) -> List.NoDup (map fst (Js.set k v m)).
Proof.
  induction m as [|[k' v'] m IH]; simpl; intros Hnd.
  - constructor; [tauto | constructor].
  - inversion Hnd as [|? ? Hx Hl]; subst.
    destruct (String.eqb k k') eqn:E; simpl; [now constructor|].
    apply String.eqb_neq in E. constructor; [|now apply IH].
    intros Hin. apply in_map_iff in Hin as [e [He Hin]].
    apply set_In in Hin as [->|Hin]; [simpl in He; congruence|].
    apply Hx. rewrite <- He. now apply in_map.
Qed.

Lemma set_NoDup_fresh {B : Type} (f : string * V -> B) k v m :
  List.NoDup (map f m) -> (forall e, In e m -> f e <> f (k, v)) ->
  List.NoDup (map f (Js.set k v m)).
Proof.
  induction m as [|[k' v'] m IH]; simpl; intros Hnd Hfresh.
  - constructor; [tauto | constructor].
  - inversion Hnd as [|? ? Hx Hl]; subst.
    destruct (String.eqb k k') eqn:E; simpl.
    + apply String.eqb_eq in E. subst k'. constructor; [|assumption].
      intros Hin. apply in_map_iff in Hin as [e [He Hin]].
      apply (Hfresh e); [now right | assumption].
    + constructor; [|apply IH; auto].
      intros Hin. apply in_map_iff in Hin as [e [He Hin]].
      apply set_In in Hin as [->|Hin].
      * apply (Hfresh (k', v')); [now left | now symmetry].
      * apply Hx. rewrite <- He. now apply in_map.
Qed.

Lemma get_set_eq k v m : Js.get k (Js.set k v m) = Some v.
Proof.
  induction m as [|[k' v'] m IH]; simpl.
  - now rewrite String.eqb_refl.
  - destruct (String.eqb k k') eqn:E; simpl; now rewrite E.
Qed.

End OrderedMapFacts.

(** ** The permission matcher *)

Section PermissionMatcher.
Import Authz Scenarios.

#[local] Arguments String.append : simpl nomatch.

Lemma wildcard_pattern_ends (pre : string) : Js.endsWith (pre ++ ":*") ":*" = true.
Proof. apply endsWith_iff. now exists pre. Qed.

Lemma wildcard_pattern_not_star (pre : string) : String.eqb "*" (pre ++ ":*") = false.
Proof.
  destruct pre as [|c pre]; [reflexivity|].
  apply String.eqb_neq. intros H. simpl in H. injection H as _ H.
  destruct pre; discriminate.
Qed.

Lemma isMessageAllowed_iff (t : string) (ps : list string) :
  isMessageAllowed t ps = true <->
  In "*" ps \/ In t ps \/
  exists pre, In (pre ++ ":*") ps /\ Js.startsWith t (pre ++ ":") = true.
Proof.
  unfold isMessageAllowed.
  destruct (Js.includes "*" ps) eqn:E1.
  { apply includes_iff in E1. tauto. }
  destruct (Js.includes t ps) eqn:E2.
  { apply includes_iff in E2. tauto. }
  rewrite existsb_exists. split.
  - intros [p [Hin Hp]].
    destruct (Js.endsWith p ":*") eqn:E; [|discriminate].
    apply endsWith_iff in E as [pre ->].
    rewrite slice_0_m1_wildcard in Hp. right; right. now exists pre.
  - intros [H|[H|[pre [Hin Hs]]]].
    + apply includes_iff in H. congruence.
    + apply includes_iff in H. congruence.
    + exists (pre ++ ":*"). split; [assumption|].
      now rewrite wildcard_pattern_ends, slice_0_m1_wildcard.
Qed.

Lemma isMessageAllowed_single_wildcard (pre t : string) :
  isMessageAllowed t [pre ++ ":*"] = Js.startsWith t (pre ++ ":").
Proof.
  unfold isMessageAllowed, Js.includes. cbn [existsb].
  rewrite wildcard_pattern_not_star, !orb_false_r.
  rewrite wildcard_pattern_ends, slice_0_m1_wildcard.
  destruct (String.eqb t (pre ++ ":*")) eqn:E; [|reflexivity].
  apply String.eqb_eq in E. subst t. symmetry. apply startsWith_iff.
  exists "*". now rewrite string_app_assoc.
Qed.

(** C6: the pattern check of the permission matcher.  A literal ["*"] in the
    list allows every type; a pattern equal to the type allows it; a pattern
    [pre ++ ":*"] allows exactly the types that begin with [pre ++ ":"];
    a type is allowed only by one of these three rules, so no other wildcard
    form matches; and a type that no rule allows is refused by
    [checkPermission], with an error that names the component type and the
    message type.  In particular ["settings:*"] allows ["settings:get"] and
    ["settings:update"] and refuses ["page:read"], and ["*"] allows all. *)
Theorem C6_pattern_rules :
  (forall t ps, In "*" ps -> isMessageAllowed t ps = true) /\
  (forall t ps, In t ps -> isMessageAllowed t ps = true) /\
  (forall pre t,
     isMessageAllowed t [pre ++ ":*"] = Js.startsWith t (pre ++ ":")) /\
  (forall pre t ps, In (pre ++ ":*") ps ->
     Js.startsWith t (pre ++ ":") = true -> isMessageAllowed t ps = true) /\
  (forall t ps,
     isMessageAllowed t ps = true <->
     In "*" ps \/ In t ps \/
     exists pre rest, In (pre ++ ":*") ps /\ t = (pre ++ ":") ++ rest) /\
  (forall componentType t p,
     isMessageAllowed t
       (if Js.startsWith t "request:" then canHandle p else canSend p) = false ->
     checkRole componentType t p false =
     {| isAuthorized := false;
        error := Some ("Component type " ++ componentType ++
                       " is not allowed to " ++
                       (if Js.startsWith t "request:" then "handle" else "send") ++
                       " message type: " ++ t) |}) /\
  isMessageAllowed "settings:get" ["settings:*"] = true /\
  isMessageAllowed "settings:update" ["settings:*"] = true /\
  isMessageAllowed "page:read" ["settings:*"] = false /\
  (forall t, isMessageAllowed t ["*"] = true).
Proof.
  repeat split.
  - intros t ps H. apply isMessageAllowed_iff. tauto.
  - intros t ps H. apply isMessageAllowed_iff. tauto.
  - apply isMessageAllowed_single_wildcard.
  - intros pre t ps Hin Hs. apply isMessageAllowed_iff. right; right.
    now exists pre.
  - intros H. apply isMessageAllowed_iff in H as [H|[H|[pre [Hin Hs]]]];
      [tauto | tauto |].
    apply startsWith_iff in Hs as [rest ->]. right; right. now exists pre, rest.
  - intros [H|[H|[pre [rest [Hin ->]]]]]; apply isMessageAllowed_iff;
      [tauto | tauto |].
    right; right. exists pre. split; [assumption|].
    apply startsWith_iff. now exists rest.
  - intros componentType t p H. unfold checkRole. simpl. now rewrite H.
Qed.

(** C7: with the role ["content"] configured to send ["page:*"] and
    ["settings:get"], and no origin entry taking the place of the role, a
    check that is not a broadcast refuses ["settings:update"] and allows
    ["page:read"]. *)
Theorem C7_content_scenario (regExpTest : string -> string -> bool)
    (config : ExtensionAuthorizationProviderConfig)
    (given : gmap string ComponentPermission) (p : ComponentPermission)
    (context : MessageContext) :
  permissions config = Some given ->
  given !! "content" = Some p ->
  canSend p = ["page:*"; "settings:get"] ->
  componentTypeOf context = "content" ->
  originOverride regExpTest (constructor config) "content" context = None ->
  isAuthorized (checkPermission regExpTest (constructor config)
                                "settings:update" context false) = false /\
  checkPermission regExpTest (constructor config) "page:read" context false =
  {| isAuthorized := true; error := None |}.
Proof.
  intros Hperm Hcontent Hsend Hrole Horigin.
  unfold checkPermission. rewrite Hrole, Horigin.
  assert (cfgPermissions (constructor config) !! "content" = Some p) as ->.
  { unfold constructor. rewrite Hperm. simpl. exact Hcontent. }
  unfold checkRole. simpl. rewrite Hsend. split; reflexivity.
Qed.

Lemma C7_content_scenario_witness :
  isAuthorized (checkPermission (fun _ _ => false) (constructor contentConfig)
                                "settings:update" contentContext false) = false /\
  checkPermission (fun _ _ => false) (constructor contentConfig)
                  "page:read" contentContext false =
  {| isAuthorized := true; error := None |}.
Proof.
  apply (C7_content_scenario (fun _ _ => false) contentConfig
           {[ "content" := permission ["page:*"] ["page:*"; "settings:get"] false ]}
           (permission ["page:*"] ["page:*"; "settings:get"] false)
           contentContext); reflexivity.
Defined.

End PermissionMatcher.

(** ** The correlation engine *)

Section CorrelationEngine.
Import ExtTransport.
Context {Payload : Type}.

#[local] Open Scope list_scope.

#[local] Abbreviation World := (@World Payload).
#[local] Abbreviation Effect := (@Effect Payload).
#[local] Abbreviation Event := (@Event Payload).
#[local] Abbreviation Message := (@Message Payload).
#[local] Abbreviation WrappedMessage := (@WrappedMessage Payload).
#[local] Abbreviation RawMessage := (@RawMessage Payload).
#[local] Abbreviation timeoutCall := (@timeoutCall Payload).

(** *** What each operation adds to the log *)

Lemma effects_emit (e : Effect) (w : World) : effects (emit e w) = effects w ++ [e].
Proof. reflexivity. Qed.

Lemma added_app (w w' : World) (es : list Effect) :
  effects w' = effects w ++ es -> added w w' = es.
Proof.
  intros H. unfold added. rewrite H.
  rewrite skipn_app, Nat.sub_diag, skipn_all. reflexivity.
Qed.

(** *** Messages of another namespace *)

(** C10: an inbound raw message whose [namespace] is missing or is not the
    namespace of the transport makes [handleIncomingMessage] return [false]
    and leaves the transport as it was: no handler is called, no entry of
    [messageHandlers] or [responseHandlers] changes.  The namespace of the
    transport is the configured one, or ["magicbutton"] without one. *)
Theorem C10_foreign_namespace_ignored (w : World) (m : RawMessage)
    (sender : MessageSender) (sendResponse : option nat) :
  rawNamespace m <> Some (namespace w) ->
  handleIncomingMessage w (Some m) sender sendResponse = (Returned false, w) /\
  (forall w', snd (handleIncomingMessage w (Some m) sender sendResponse) = w' ->
     effects w' = effects w /\
     messageHandlers w' = messageHandlers w /\
     responseHandlers w' = responseHandlers w) /\
  (forall cfg clock,
     namespace (@constructor Payload cfg clock) =
     Js.orElse (configNamespace cfg) "magicbutton").
Proof.
  intros Hns.
  assert (handleIncomingMessage w (Some m) sender sendResponse = (Returned false, w))
    as Hres.
  { unfold handleIncomingMessage.
    destruct (rawNamespace m) as [ns|] eqn:E; simpl; [|reflexivity].
    destruct (String.eqb ns (namespace w)) eqn:Eq.
    - apply String.eqb_eq in Eq. subst ns. congruence.
    - now rewrite orb_true_r. }
  repeat split.
  - exact Hres.
  - rewrite Hres in H. simpl in H. now subst.
  - rewrite Hres in H. simpl in H. now subst.
  - rewrite Hres in H. simpl in H. now subst.
  - destruct cfg as [[] ? ? ?]; reflexivity.
Qed.

(** *** Broadcast *)

Lemma effects_broadcastToTab (wm : WrappedMessage) (failed : Z -> bool)
    (tabs : list (option Z)) (w : World) :
  effects (fold_left (broadcastToTab wm failed) tabs w) =
  effects w ++ map (fun t => TabsSendMessage t wm None) (omap truthyTab tabs).
Proof.
  revert w; induction tabs as [|tab tabs IH]; intros w; simpl.
  - now rewrite app_nil_r.
  - rewrite IH. unfold broadcastToTab, ignoreBroadcastError.
    destruct (truthyTab tab) as [t|]; simpl; [|reflexivity].
    destruct (failed t); rewrite effects_emit, <- app_assoc; reflexivity.
Qed.

Lemma tabWrites_sends (wm : WrappedMessage) (ts : list Z) :
  tabWrites (map (fun t => TabsSendMessage t wm None) ts) = ts.
Proof. induction ts as [|t ts IH]; simpl; [reflexivity | now rewrite IH]. Qed.

Lemma reports_sends (wm : WrappedMessage) (ts : list Z) :
  reports (map (fun t => TabsSendMessage t wm None) ts) = [].
Proof. induction ts as [|t ts IH]; simpl; [reflexivity | exact IH]. Qed.

(** C8 as the code has it: [broadcast] from a background transport writes
    to every tab that has an id, in order, whichever deliveries fail, and its
    promise is fulfilled; a failed delivery is ignored: beside the calls of
    chrome the broadcast does nothing, so no failure is reported. *)
Theorem C8_broadcast_best_effort (w : World) (m : Message)
    (tabs : list (option Z)) (failed : Z -> bool) (runtimeFailed : bool) :
  fst (broadcast w m tabs failed runtimeFailed) = true /\
  reports (added w (snd (broadcast w m tabs failed runtimeFailed))) = [] /\
  (componentType (config w) = background ->
   tabWrites (added w (snd (broadcast w m tabs failed runtimeFailed))) =
   omap truthyTab tabs).
Proof.
  unfold broadcast.
  destruct (componentType (config w)) eqn:E; simpl.
  1: { rewrite (added_app w _ (TabsQuery :: map (fun t => TabsSendMessage t (wrap w m false) None)
                                              (omap truthyTab tabs))).
       - repeat split.
         + simpl. apply reports_sends.
         + intros _. simpl. apply tabWrites_sends.
       - rewrite effects_broadcastToTab, effects_emit, <- app_assoc. reflexivity. }
  all: repeat split; try discriminate;
    destruct runtimeFailed; unfold ignoreBroadcastError;
    erewrite added_app by (rewrite effects_emit; reflexivity); reflexivity.
Qed.

(** *** Close *)

Lemma clearAll_effects (l : Js.JsMap ResponseHandler) (w : World) :
  effects (fold_left (fun acc e => clearTimeout (timeout (snd e)) acc) l w) =
  effects w ++ map (fun e => ClearTimeout (timeout (snd e))) l.
Proof.
  revert w; induction l as [|e l IH]; intros w; simpl.
  - now rewrite app_nil_r.
  - rewrite IH. unfold clearTimeout. rewrite effects_emit, <- app_assoc.
    reflexivity.
Qed.

Lemma clearAll_timers (l : Js.JsMap ResponseHandler) (w : World) (x : nat * Timer) :
  In x (timers (fold_left (fun acc e => clearTimeout (timeout (snd e)) acc) l w)) ->
  In x (timers w) /\ forall e, In e l -> fst x <> timeout (snd e).
Proof.
  revert w; induction l as [|e l IH]; intros w; simpl.
  - intros H. split; [assumption | intros e []].
  - intros H. apply IH in H as [Hin Hl]. simpl in Hin.
    unfold disarm in Hin. apply filter_In in Hin as [Hin Hne].
    split; [assumption|].
    intros e' [<-|He']; [|now apply Hl].
    apply negb_true_iff, Nat.eqb_neq in Hne. exact Hne.
Qed.

Lemma settlements_app (p : nat) (a b : list Effect) :
  settlements p (a ++ b) = settlements p a ++ settlements p b.
Proof. unfold settlements. apply List.filter_app. Qed.

Lemma settlements_clears (p : nat) (l : Js.JsMap ResponseHandler) :
  settlements p (map (fun e => ClearTimeout (timeout (snd e))) l : list Effect) = [].
Proof. induction l as [|e l IH]; simpl; [reflexivity | exact IH]. Qed.

Lemma close_effects (w : World) :
  effects (close w) =
  effects w ++ (map (fun e => ClearTimeout (timeout (snd e))) (responseHandlers w)
                ++ [RemoveMessageListener]).
Proof.
  unfold close. rewrite effects_emit. simpl.
  rewrite clearAll_effects, <- app_assoc. reflexivity.
Qed.

Lemma close_settles_nothing (p : nat) (l : Js.JsMap ResponseHandler) :
  settlements p (map (fun e => ClearTimeout (timeout (snd e))) l
                 ++ [RemoveMessageListener] : list Effect) = [].
Proof. rewrite settlements_app, settlements_clears. reflexivity. Qed.

Lemma close_settlements (p : nat) (w : World) :
  settlements p (effects (close w)) = settlements p (effects w).
Proof.
  rewrite close_effects, settlements_app, close_settles_nothing.
  apply app_nil_r.
Qed.

(** C1 as the code has it: [close] clears the timer of every outstanding
    entry, in the order of the table, and leaves [responseHandlers] empty;
    it calls no [resolve] and no [reject], so the state of every promise is
    what it was.  Nothing is rejected. *)
Theorem C1_close_drains_without_rejecting (w : World) :
  responseHandlers (close w) = [] /\
  added w (close w) =
    map (fun e => ClearTimeout (timeout (snd e))) (responseHandlers w)
    ++ [RemoveMessageListener] /\
  (forall p, settlements p (added w (close w)) = []) /\
  (forall p, promiseState p (effects (close w)) = promiseState p (effects w)) /\
  (forall e x, In e (responseHandlers w) -> In x (timers (close w)) ->
     fst x <> timeout (snd e)).
Proof.
  split; [reflexivity|].
  split; [apply added_app, close_effects|].
  split.
  { intros p. rewrite (added_app _ _ _ (close_effects w)).
    apply close_settles_nothing. }
  split.
  - intros p. unfold promiseState. now rewrite close_settlements.
  - intros e x He Hx. unfold close in Hx. simpl in Hx.
    apply clearAll_timers in Hx as [_ Hx]. now apply Hx.
Qed.

(** *** Every reachable world is consistent *)

Lemma settled_app (p : nat) (a b : list Effect) :
  settled p (a ++ b) <-> settled p a \/ settled p b.
Proof.
  unfold settled. rewrite settlements_app.
  destruct (settlements p a), (settlements p b); simpl;
    intuition congruence.
Qed.

Lemma settled_nil (p : nat) : ~ settled p ([] : list Effect).
Proof. unfold settled. simpl. congruence. Qed.

Lemma disarm_In (t : nat) (ts : list (nat * Timer)) (x : nat * Timer) :
  In x (disarm t ts) <-> In x ts /\ fst x <> t.
Proof.
  unfold disarm. rewrite List.filter_In, negb_true_iff, Nat.eqb_neq. tauto.
Qed.

Lemma consistent_shrink (w w' : World) (P : nat -> Prop) :
  consistent w ->
  nextId w' = nextId w ->
  (forall e, In e (responseHandlers w') -> In e (responseHandlers w)) ->
  List.NoDup (map fst (responseHandlers w')) ->
  List.NoDup (map (fun e => timeout (snd e)) (responseHandlers w')) ->
  (forall x, In x (timers w') -> In x (timers w)) ->
  List.NoDup (map fst (timers w')) ->
  (forall c cb, callbacks w' !! c = Some cb -> callbacks w !! c = Some cb) ->
  (forall p, settled p (effects w') -> settled p (effects w) \/ P p) ->
  (forall p, P p ->
     p < nextId w /\
     (forall k rh, In (k, rh) (responseHandlers w') -> timeout rh <> p) /\
     (forall tm, ~ In (p, tm) (timers w'))) ->
  consistent w'.
Proof.
  intros C Hid Hrh Hk Hi Htm Ht Hcb Hs HP. constructor.
  - exact Hk.
  - intros k rh Hin. rewrite Hid. apply (cons_entries w C k rh). now apply Hrh.
  - exact Hi.
  - intros t tm Hin. rewrite Hid. apply (cons_timers w C t tm). now apply Htm.
  - exact Ht.
  - intros k rh tm H1 H2. apply (cons_timer_key w C k rh tm); auto.
  - intros c cb H. rewrite Hid. apply (cons_callbacks w C c cb). now apply Hcb.
  - intros k rh cb H1 H2. apply (cons_callback_key w C k rh cb); auto.
  - intros p k rh H Hin. apply Hs in H as [H|H].
    + apply (cons_settled_entry w C p k rh H). now apply Hrh.
    + destruct (HP p H) as [_ [Hp _]]. now apply (Hp k rh).
  - intros p tm H Hin. apply Hs in H as [H|H].
    + apply (cons_settled_timer w C p tm H). now apply Htm.
    + destruct (HP p H) as [_ [_ Hp]]. now apply (Hp tm).
  - intros p H. rewrite Hid. apply Hs in H as [H|H].
    + now apply (cons_settled_old w C).
    + now destruct (HP p H).
Qed.

(** A request [t] completes: its key is deleted, its timer disarmed, and
    the calls [es] settle no other promise. *)
Lemma consistent_complete (w w' : World) (k : string) (t : nat) (es : list Effect) :
  consistent w ->
  nextId w' = nextId w ->
  responseHandlers w' = Js.delete k (responseHandlers w) ->
  timers w' = disarm t (timers w) ->
  (forall c cb, callbacks w' !! c = Some cb -> callbacks w !! c = Some cb) ->
  effects w' = effects w ++ es ->
  (forall p, settled p es -> p = t) ->
  t < nextId w ->
  (forall k' rh, In (k', rh) (responseHandlers w) -> timeout rh = t -> k' = k) ->
  consistent w'.
Proof.
  intros C Hid Hrh Htm Hcb Heff Hes Hlt Hkey.
  apply (consistent_shrink w w' (fun p => p = t)); auto.
  - rewrite Hrh. intros e. apply delete_In.
  - rewrite Hrh. apply delete_NoDup. apply (cons_keys w C).
  - rewrite Hrh. apply delete_NoDup. apply (cons_entry_ids w C).
  - rewrite Htm. intros x Hx. now apply disarm_In in Hx.
  - rewrite Htm. apply NoDup_map_filter. apply (cons_timer_ids w C).
  - intros p. rewrite Heff, settled_app. intros [H|H]; [now left | right; auto].
  - intros p ->. split; [assumption|]. split.
    + rewrite Hrh. intros k' rh Hin Heq.
      apply (delete_key k _ (k', rh) (cons_keys w C)) in Hin as Hne.
      apply delete_In in Hin. apply Hne. simpl. now apply (Hkey k' rh).
    + rewrite Htm. intros tm Hin. apply disarm_In in Hin as [_ Hne]. now apply Hne.
Qed.

Lemma consistent_constructor (cfg : ChromeExtensionTransportConfig) (clock : N) :
  consistent (@constructor Payload cfg clock).
Proof.
  assert (forall w : World, responseHandlers w = [] -> timers w = [] ->
            callbacks w = ∅ -> (forall p, ~ settled p (effects w)) ->
            consistent w) as Hempty.
  { intros w Hrh Htm Hcb Hs. constructor; rewrite ?Hrh, ?Htm, ?Hcb; simpl;
      try constructor; try tauto; try (intros; now rewrite lookup_empty in *);
      intros; exfalso; eapply Hs; eauto. }
  apply Hempty; try (destruct cfg as [[] ? ? ?]; reflexivity).
  intros p. destruct cfg as [[] ? ? ?]; unfold settled; simpl; congruence.
Qed.

(** A request is added: what [sendToTab] and [sendViaRuntime] do to the
    table, the timers and the callbacks. *)
Lemma consistent_request (w w' : World) (k ty fb : string) (D : N)
    (es : list Effect) :
  consistent w ->
  nextId w' = S (nextId w) ->
  responseHandlers w' =
    Js.set k {| resolve := nextId w; reject := nextId w; timeout := nextId w |}
           (responseHandlers w) ->
  timers w' =
    timers w ++ [(nextId w,
                  {| deadline := D;
                     closure := {| tcCorrelationId := k; tcReject := nextId w;
                                   tcType := ty |} |})] ->
  callbacks w' =
    <[nextId w := {| cbCorrelationId := k; cbTimeout := nextId w;
                     cbResolve := nextId w; cbReject := nextId w;
                     cbFallback := fb |}]> (callbacks w) ->
  effects w' = effects w ++ es ->
  (forall p, ~ settled p es) ->
  consistent w'.
Proof.
  intros C Hid Hrh Htm Hcb Heff Hes.
  assert (forall p, settled p (effects w') -> settled p (effects w)) as Hs.
  { intros p. rewrite Heff, settled_app. intros [H|H]; [assumption|].
    now apply Hes in H. }
  assert (forall k' rh, In (k', rh) (responseHandlers w) -> timeout rh < nextId w)
    as Hold_e by (intros k' rh H; apply (cons_entries w C k' rh H)).
  assert (forall t tm, In (t, tm) (timers w) -> t < nextId w)
    as Hold_t by (intros t tm H; apply (cons_timers w C t tm H)).
  constructor.
  - rewrite Hrh. apply set_keys_NoDup, (cons_keys w C).
  - rewrite Hrh, Hid. intros k' rh Hin. apply set_In in Hin as [Hin|Hin].
    + inversion Hin; subst. simpl. lia.
    + destruct (cons_entries w C k' rh Hin) as (? & ? & ?). repeat split; auto.
  - rewrite Hrh. apply set_NoDup_fresh; [apply (cons_entry_ids w C)|].
    intros [k' rh] Hin. simpl. apply Hold_e in Hin. lia.
  - rewrite Htm, Hid. intros t tm Hin. apply in_app_or in Hin as [Hin|[Hin|[]]].
    + destruct (cons_timers w C t tm Hin). split; auto.
    + inversion Hin; subst. simpl. split; [reflexivity | lia].
  - rewrite Htm, map_app. simpl. apply List.NoDup_app.
    + apply (cons_timer_ids w C).
    + constructor; [tauto | constructor].
    + intros t Hin [Heq|[]]. apply in_map_iff in Hin as [[t' tm] [Ht' Hin]].
      apply Hold_t in Hin. simpl in Ht'. lia.
  - rewrite Hrh, Htm. intros k' rh tm He Ht.
    apply set_In in He as [He|He];
      apply in_app_or in Ht as [Ht|[Ht|[]]].
    + inversion He; subst. simpl in Ht. apply Hold_t in Ht. lia.
    + inversion He; subst. simpl in Ht. inversion Ht; subst. reflexivity.
    + now apply (cons_timer_key w C k' rh tm).
    + inversion Ht as [[Ht1 Ht2]]. apply Hold_e in He. lia.
  - rewrite Hcb, Hid. intros c cb H. apply lookup_insert_Some in H as [[<- <-]|[_ H]].
    + simpl. repeat split; lia.
    + destruct (cons_callbacks w C c cb H) as (? & ? & ? & ?). repeat split; auto.
  - rewrite Hrh, Hcb. intros k' rh cb He H.
    apply set_In in He as [He|He];
      apply lookup_insert_Some in H as [[H1 H2]|[H1 H]].
    + inversion He; subst. reflexivity.
    + inversion He; subst. simpl in H1. congruence.
    + apply Hold_e in He. lia.
    + now apply (cons_callback_key w C k' rh cb).
  - rewrite Hrh. intros p k' rh H He. apply Hs in H.
    apply set_In in He as [He|He].
    + inversion He; subst. simpl. apply (cons_settled_old w C) in H. lia.
    + now apply (cons_settled_entry w C p k' rh).
  - rewrite Htm. intros p tm H Ht. apply Hs in H.
    apply in_app_or in Ht as [Ht|[Ht|[]]].
    + now apply (cons_settled_timer w C p tm).
    + inversion Ht as [[Ht1 Ht2]]. apply (cons_settled_old w C) in H. lia.
  - rewrite Hid. intros p H. apply Hs, (cons_settled_old w C) in H. lia.
Qed.

Lemma consistent_sendToTab (w : World) (tabId : Z) (m : WrappedMessage) :
  consistent w -> consistent (snd (sendToTab w tabId m)).
Proof.
  intros C.
  apply (consistent_request w _ (tmId (wData m)) (tmType (wData m))
           "Failed to send message to tab"%string (now w + MESSAGE_TIMEOUT)%N
           [SetTimeout (nextId w) MESSAGE_TIMEOUT;
            TabsSendMessage tabId m (Some (nextId w))]);
    try reflexivity; try assumption.
  - simpl. now rewrite <- app_assoc.
  - intros p H. now apply H.
Qed.

Lemma consistent_sendViaRuntime (w : World) (m : WrappedMessage) :
  consistent w -> consistent (snd (sendViaRuntime w m)).
Proof.
  intros C.
  apply (consistent_request w _ (tmId (wData m)) (tmType (wData m))
           "Failed to send message"%string (now w + MESSAGE_TIMEOUT)%N
           [SetTimeout (nextId w) MESSAGE_TIMEOUT;
            RuntimeSendMessage m (Some (nextId w))]);
    try reflexivity; try assumption.
  - simpl. now rewrite <- app_assoc.
  - intros p H. now apply H.
Qed.

Lemma consistent_send (w : World) (m : Message) (ctx : option MessageContext) :
  consistent w -> consistent (snd (send w m ctx)).
Proof.
  intros C. unfold send.
  destruct (componentType (config w)), (truthyTab (targetTabId (config w)));
    try destruct (truthyTab (ctx ≫= ctxTabId));
    auto using consistent_sendToTab, consistent_sendViaRuntime.
Qed.

(** A step that only adds calls that settle nothing. *)
Lemma consistent_emit_only (w w' : World) (es : list Effect) :
  consistent w ->
  nextId w' = nextId w ->
  responseHandlers w' = responseHandlers w ->
  timers w' = timers w ->
  callbacks w' = callbacks w ->
  effects w' = effects w ++ es ->
  (forall p, ~ settled p es) ->
  consistent w'.
Proof.
  intros C Hid Hrh Htm Hcb Heff Hes.
  apply (consistent_shrink w w' (fun _ => False)); auto.
  - now rewrite Hrh.
  - rewrite Hrh. apply (cons_keys w C).
  - rewrite Hrh. apply (cons_entry_ids w C).
  - now rewrite Htm.
  - rewrite Htm. apply (cons_timer_ids w C).
  - now rewrite Hcb.
  - intros p. rewrite Heff, settled_app. intros [H|H]; [now left|].
    now apply Hes in H.
  - intros p [].
Qed.

Ltac emit_only C :=
  eapply consistent_emit_only;
  [exact C | reflexivity | reflexivity | reflexivity | reflexivity | reflexivity
  | intros ? H; now apply H].

Lemma settled_one (p q : nat) (e : Effect) :
  settles q e = true -> settled p [e] -> p = q.
Proof.
  unfold settled, settlements. simpl. intros Hq.
  destruct (settles p e) eqn:Hp; [|congruence]. intros _.
  destruct e; simpl in *; try discriminate;
    apply Nat.eqb_eq in Hp, Hq; congruence.
Qed.

Lemma settled_clear_then (p q t : nat) (e : Effect) :
  settles q e = true -> settled p [ClearTimeout t; e] -> p = q.
Proof.
  intros Hq H. apply (settled_one p q e Hq).
  unfold settled, settlements in *. exact H.
Qed.

Lemma consistent_handleIncomingMessage (w : World) (m : option RawMessage)
    (sender : MessageSender) (sr : option nat) :
  consistent w -> consistent (snd (handleIncomingMessage w m sender sr)).
Proof.
  intros C. unfold handleIncomingMessage.
  destruct m as [m|]; [|exact C].
  destruct (negb (optTruthy (rawNamespace m))
            || negb (optEq (rawNamespace m) (namespace w))); [exact C|].
  destruct (rawData m) as [tm|]; [|exact C].
  destruct (optEq (dataType tm) "response" && optTruthy (dataCorrelationId tm)).
  - destruct (Js.get (default ""%string (dataCorrelationId tm)) (responseHandlers w))
      as [rh|] eqn:Hget; [|exact C].
    apply get_In in Hget.
    destruct (cons_entries w C _ rh Hget) as (Hres & Hrej & Hlt).
    assert (forall k' rh', In (k', rh') (responseHandlers w) ->
              timeout rh' = timeout rh ->
              k' = default ""%string (dataCorrelationId tm)) as Hkey.
    { intros k' rh' Hin Heq.
      pose proof (NoDup_map_eq (fun e => timeout (snd e)) _ (k', rh') (_, rh)
                    (cons_entry_ids w C) Hin Hget Heq) as E.
      congruence. }
    destruct (dataError tm) as [e|]; simpl.
    + eapply (consistent_complete w _ _ (timeout rh)
                [ClearTimeout (timeout rh); CallReject (reject rh) (RemoteError e)]);
        eauto; try reflexivity.
      * simpl. now rewrite <- app_assoc.
      * intros p. apply settled_clear_then. simpl. rewrite Hrej. apply Nat.eqb_refl.
    + eapply (consistent_complete w _ _ (timeout rh)
                [ClearTimeout (timeout rh);
                 CallResolve (resolve rh) (dataPayload tm)]);
        eauto; try reflexivity.
      * simpl. now rewrite <- app_assoc.
      * intros p. apply settled_clear_then. simpl. rewrite Hres. apply Nat.eqb_refl.
  - destruct (dataType tm ≫= (fun t => messageHandlers w !! t)) as [h|]; [|exact C].
    simpl. emit_only C.
Qed.

Lemma consistent_runCallback (w : World) (cb : nat)
    (lastError : option (option string)) (response : option RawMessage) :
  consistent w -> consistent (runCallback w cb lastError response).
Proof.
  intros C. unfold runCallback.
  destruct (callbacks w !! cb) as [c|] eqn:Hcb; [|exact C].
  destruct (cons_callbacks w C cb c Hcb) as (Ht & Hres & Hrej & Hlt).
  assert (forall c' x, base.delete cb (callbacks w) !! c' = Some x ->
            callbacks w !! c' = Some x) as Hsub.
  { intros c' x H. now apply lookup_delete_Some in H. }
  assert (forall k' rh', In (k', rh') (responseHandlers w) ->
            timeout rh' = cb -> k' = cbCorrelationId c) as Hkey.
  { intros k' rh' Hin Heq. symmetry.
    apply (cons_callback_key w C k' rh' c Hin). now rewrite Heq. }
  assert (forall p e, settles cb e = true ->
            settled p [ClearTimeout (cbTimeout c); e] -> p = cb) as Hone
    by (intros p e; apply settled_clear_then).
  destruct lastError as [msg|]; [|destruct response as [r|];
    [destruct (rawData r ≫= dataError) as [e|]|]].
  1-3: eapply (consistent_complete w _ (cbCorrelationId c) cb
                 [ClearTimeout (cbTimeout c); _]);
    [exact C | reflexivity | reflexivity | simpl; now rewrite Ht | exact Hsub
    | simpl; rewrite <- app_assoc; reflexivity
    | intros p; apply Hone; simpl; rewrite ?Hrej, ?Hres; apply Nat.eqb_refl
    | exact Hlt | exact Hkey].
  apply (consistent_shrink w _ (fun _ => False)); auto; try apply C.
  intros p [].
Qed.

Lemma consistent_fireTimer (w : World) (x : nat * Timer) :
  consistent w -> In x (timers w) -> consistent (fireTimer x w).
Proof.
  intros C Hin. destruct x as [t tm].
  destruct (cons_timers w C t tm Hin) as [Hrej Hlt].
  eapply (consistent_complete w _ (tcCorrelationId (closure tm)) t
            [CallReject (tcReject (closure tm))
                        (timeoutError (closure tm))]);
    eauto; try reflexivity.
  - intros p. apply settled_one. simpl. rewrite Hrej. apply Nat.eqb_refl.
  - intros k' rh Hk Heq. symmetry. apply (cons_timer_key w C k' rh tm Hk).
    now rewrite Heq.
Qed.

Lemma consistent_fireAll (l : list (nat * Timer)) (w : World) :
  consistent w -> List.NoDup (map fst l) -> (forall x, In x l -> In x (timers w)) ->
  consistent (fold_left (fun acc x => fireTimer x acc) l w).
Proof.
  revert w; induction l as [|x l IH]; intros w C Hnd Hin; simpl; [exact C|].
  inversion Hnd as [|? ? Hx Hl]; subst.
  apply IH; [apply consistent_fireTimer; auto; apply Hin; now left | assumption |].
  intros y Hy. simpl. apply disarm_In. split; [apply Hin; now right|].
  intros Heq. apply Hx. rewrite <- Heq. now apply in_map.
Qed.

Lemma consistent_elapse (dt : N) (w : World) :
  consistent w -> consistent (elapse dt w).
Proof.
  intros C. unfold elapse. apply consistent_fireAll.
  - apply (consistent_shrink w _ (fun _ => False)); auto; try apply C.
    intros p [].
  - apply NoDup_map_filter, (cons_timer_ids w C).
  - intros x Hx. simpl in *. now apply List.filter_In in Hx.
Qed.

Lemma clearAll_callbacks (l : Js.JsMap ResponseHandler) (w : World) :
  callbacks (fold_left (fun acc e => clearTimeout (timeout (snd e)) acc) l w) =
  callbacks w.
Proof.
  revert w; induction l as [|e l IH]; intros w; simpl; [reflexivity|].
  now rewrite IH.
Qed.

Lemma clearAll_nextId (l : Js.JsMap ResponseHandler) (w : World) :
  nextId (fold_left (fun acc e => clearTimeout (timeout (snd e)) acc) l w) =
  nextId w.
Proof.
  revert w; induction l as [|e l IH]; intros w; simpl; [reflexivity|].
  now rewrite IH.
Qed.

Lemma clearAll_timer_ids (l : Js.JsMap ResponseHandler) (w : World) :
  List.NoDup (map fst (timers w)) ->
  List.NoDup (map fst (timers
    (fold_left (fun acc e => clearTimeout (timeout (snd e)) acc) l w))).
Proof.
  revert w; induction l as [|e l IH]; intros w Hw; simpl; [exact Hw|].
  apply IH. simpl. now apply NoDup_map_filter.
Qed.

Lemma consistent_close (w : World) : consistent w -> consistent (close w).
Proof.
  intros C. apply (consistent_shrink w _ (fun _ => False)).
  - exact C.
  - unfold close. simpl. apply clearAll_nextId.
  - intros e [].
  - constructor.
  - constructor.
  - intros x Hx. unfold close in Hx. simpl in Hx.
    now apply clearAll_timers in Hx.
  - unfold close. simpl. apply clearAll_timer_ids, (cons_timer_ids w C).
  - unfold close. simpl. intros c cb. now rewrite clearAll_callbacks.
  - intros p H. left. unfold settled in *. now rewrite close_settlements in H.
  - intros p [].
Qed.

Lemma broadcastToTab_frame (wm : WrappedMessage) (failed : Z -> bool)
    (tabs : list (option Z)) (w : World) :
  let w' := fold_left (broadcastToTab wm failed) tabs w in
  nextId w' = nextId w /\ responseHandlers w' = responseHandlers w /\
  timers w' = timers w /\ callbacks w' = callbacks w /\ now w' = now w.
Proof.
  revert w; induction tabs as [|tab tabs IH]; intros w; simpl; [tauto|].
  destruct (IH (broadcastToTab wm failed w tab)) as (-> & -> & -> & -> & ->).
  unfold broadcastToTab, ignoreBroadcastError.
  destruct (truthyTab tab) as [t|]; [destruct (failed t)|]; tauto.
Qed.

Lemma settled_sends (p : nat) (wm : WrappedMessage) (ts : list Z) :
  ~ settled p (map (fun t => TabsSendMessage t wm None) ts : list Effect).
Proof.
  unfold settled. induction ts as [|t ts IH]; simpl; [congruence | exact IH].
Qed.

Lemma consistent_broadcast (w : World) (m : Message) (tabs : list (option Z))
    (failed : Z -> bool) (runtimeFailed : bool) :
  consistent w -> consistent (snd (broadcast w m tabs failed runtimeFailed)).
Proof.
  intros C. unfold broadcast.
  destruct (componentType (config w)); simpl.
  1: { destruct (broadcastToTab_frame (wrap w m false) failed tabs (emit TabsQuery w))
         as (H1 & H2 & H3 & H4 & _).
       eapply (consistent_emit_only w _
                 (TabsQuery :: map (fun t => TabsSendMessage t (wrap w m false) None)
                                   (omap truthyTab tabs)));
         [exact C | exact H1 | exact H2 | exact H3 | exact H4 | |].
       - rewrite effects_broadcastToTab, effects_emit, <- app_assoc. reflexivity.
       - intros p H. apply (settled_sends p (wrap w m false) (omap truthyTab tabs)).
         exact H. }
  all: destruct runtimeFailed; unfold ignoreBroadcastError; emit_only C.
Qed.

Lemma consistent_handlerSettled (w : World) (requestId : option string)
    (sr : option nat)
    (outcome : option Payload + (option string * option string * string)) :
  consistent w -> consistent (handlerSettled w requestId sr outcome).
Proof.
  intros C. unfold handlerSettled.
  destruct sr as [sr|]; [|exact C].
  destruct (respondsAllowed w); [|exact C].
  emit_only C.
Qed.

Lemma consistent_step (w : World) (ev : Event) :
  consistent w -> consistent (step w ev).
Proof.
  intros C. destruct ev; simpl.
  - now apply consistent_send.
  - now apply consistent_broadcast.
  - destruct (listening w); [now apply consistent_handleIncomingMessage | exact C].
  - destruct (componentType (config w)); try exact C.
    destruct (Js.startsWith portName (namespace w ++ ":"));
      [now apply consistent_handleIncomingMessage | exact C].
  - now apply consistent_runCallback.
  - now apply consistent_elapse.
  - apply (consistent_shrink w _ (fun _ => False)); auto; try apply C.
    intros p [].
  - apply (consistent_shrink w _ (fun _ => False)); auto; try apply C.
    intros p [].
  - now apply consistent_handlerSettled.
  - now apply consistent_close.
Qed.

Lemma reachable_consistent (w : World) : reachable w -> consistent w.
Proof.
  induction 1 as [cfg clock|w ev _ IH].
  - apply consistent_constructor.
  - now apply consistent_step.
Qed.

Lemma consistent_run (evs : list Event) (w : World) :
  consistent w -> consistent (run w evs).
Proof.
  revert w; induction evs as [|ev evs IH]; intros w C; simpl; [exact C|].
  apply IH. now apply consistent_step.
Qed.

(** *** What the completion paths add to the log *)

Lemma fireAll_effects (l : list (nat * Timer)) (w : World) :
  effects (fold_left (fun acc x => fireTimer x acc) l w) =
  effects w ++ map timeoutCall l.
Proof.
  revert w; induction l as [|x l IH]; intros w; simpl.
  - now rewrite app_nil_r.
  - rewrite IH. simpl. now rewrite <- app_assoc.
Qed.

Lemma elapse_effects (dt : N) (w : World) :
  effects (elapse dt w) =
  effects w ++ map timeoutCall (List.filter (isDue (now w + dt)) (timers w)).
Proof. unfold elapse. now rewrite fireAll_effects. Qed.

Lemma settlements_fired_none (p : nat) (l : list (nat * Timer)) :
  (forall x, In x l -> tcReject (closure (snd x)) = fst x) ->
  ~ In p (map fst l) ->
  settlements p (map timeoutCall l) = [].
Proof.
  induction l as [|x l IH]; simpl; intros Hrej Hp; [reflexivity|].
  rewrite (Hrej x) by now left.
  destruct (Nat.eqb (fst x) p) eqn:E.
  - apply Nat.eqb_eq in E. tauto.
  - apply IH; [intros y Hy; apply Hrej; now right | tauto].
Qed.

Lemma settlements_fired_one (p : nat) (tm : Timer) (l : list (nat * Timer)) :
  (forall x, In x l -> tcReject (closure (snd x)) = fst x) ->
  List.NoDup (map fst l) -> In (p, tm) l ->
  settlements p (map timeoutCall l) = [timeoutCall (p, tm)].
Proof.
  induction l as [|x l IH]; simpl; intros Hrej Hnd Hin; [contradiction|].
  inversion Hnd as [|? ? Hx Hl]; subst.
  rewrite (Hrej x) by now left.
  destruct Hin as [->|Hin].
  - simpl. rewrite Nat.eqb_refl. f_equal.
    apply settlements_fired_none; [intros y Hy; apply Hrej; now right | exact Hx].
  - destruct (Nat.eqb (fst x) p) eqn:E.
    + apply Nat.eqb_eq in E. exfalso. apply Hx. rewrite E.
      now apply (in_map fst l (p, tm)).
    + apply IH; auto.
Qed.

Lemma handleIncomingMessage_added (w : World) (m : option RawMessage)
    (sender : MessageSender) (sr : option nat) :
  let w' := snd (handleIncomingMessage w m sender sr) in
  added w w' = [] \/
  (exists h p c i, added w w' = [InvokeHandler h p c i sr]) \/
  (exists k rh e, In (k, rh) (responseHandlers w) /\
     added w w' = [ClearTimeout (timeout rh); e] /\
     (e = CallResolve (resolve rh) ((m ≫= rawData) ≫= dataPayload) \/
      exists err, e = CallReject (reject rh) (RemoteError err))).
Proof.
  assert (added w w = []) as Hnil.
  { apply added_app. now rewrite app_nil_r. }
  unfold handleIncomingMessage.
  destruct m as [m|]; [|now left].
  destruct (negb (optTruthy (rawNamespace m))
            || negb (optEq (rawNamespace m) (namespace w))); [now left|].
  destruct (rawData m) as [tm|] eqn:Hd; [|now left].
  destruct (optEq (dataType tm) "response" && optTruthy (dataCorrelationId tm)).
  - destruct (Js.get (default ""%string (dataCorrelationId tm)) (responseHandlers w))
      as [rh|] eqn:Hget; [|now left].
    apply get_In in Hget. right; right.
    exists (default ""%string (dataCorrelationId tm)), rh.
    destruct (dataError tm) as [e|]; simpl.
    + exists (CallReject (reject rh) (RemoteError e)).
      split; [exact Hget|].
      split; [apply added_app; simpl; now rewrite <- app_assoc|].
      right. now exists e.
    + exists (CallResolve (resolve rh) (dataPayload tm)).
      split; [exact Hget|].
      split; [apply added_app; simpl; now rewrite <- app_assoc|].
      left. simpl. now rewrite Hd.
  - destruct (dataType tm ≫= (fun t => messageHandlers w !! t)) as [h|]; [|now left].
    right; left. simpl. do 4 eexists. now apply added_app.
Qed.

Lemma runCallback_added (w : World) (cb : nat)
    (lastError : option (option string)) (response : option RawMessage) :
  let w' := runCallback w cb lastError response in
  (added w w' = [] /\
   (callbacks w !! cb = None \/ (lastError = None /\ response = None))) \/
  (exists c e, callbacks w !! cb = Some c /\
     added w w' = [ClearTimeout (cbTimeout c); e] /\ isSettlement e = true /\
     (settles (cbResolve c) e = true \/ settles (cbReject c) e = true)).
Proof.
  assert (forall v : World, effects v = effects w -> added w v = []) as Hnil.
  { intros v Hv. apply added_app. now rewrite app_nil_r. }
  unfold runCallback.
  destruct (callbacks w !! cb) as [c|] eqn:Hcb; [|left; auto].
  destruct lastError as [msg|]; [|destruct response as [r|];
    [destruct (rawData r ≫= dataError) as [e|]|]].
  4: { left. auto. }
  all: right; exists c; eexists; split; [reflexivity|]; split;
    [apply added_app; simpl; rewrite <- app_assoc; reflexivity|];
    simpl; rewrite Nat.eqb_refl; auto using orb_true_r.
Qed.

Lemma not_settled_nil (p : nat) (es : list Effect) :
  ~ settled p es -> settlements p es = [].
Proof.
  unfold settled. destruct (settlements p es); [reflexivity|].
  intros H. exfalso. apply H. discriminate.
Qed.

Lemma handleIncomingMessage_settles (w : World) (m : option RawMessage)
    (sender : MessageSender) (sr : option nat) (p : nat) :
  consistent w ->
  settled p (added w (snd (handleIncomingMessage w m sender sr))) ->
  settlements p (effects w) = [] /\
  List.length (settlements p (added w (snd (handleIncomingMessage w m sender sr))))
    = 1%nat /\
  List.length (List.filter isSettlement
                 (added w (snd (handleIncomingMessage w m sender sr)))) = 1%nat.
Proof.
  intros C.
  destruct (handleIncomingMessage_added w m sender sr)
    as [->|[(h & q & c & i & ->)|(k & rh & e & Hin & -> & He)]].
  - intros H. now apply settled_nil in H.
  - intros H. exfalso. now apply H.
  - destruct (cons_entries w C k rh Hin) as (Hres & Hrej & _).
    assert (settles (timeout rh) e = true /\ isSettlement e = true) as [Hs Hi].
    { destruct He as [->|[err ->]]; simpl; rewrite ?Hres, ?Hrej, Nat.eqb_refl; auto. }
    intros H. assert (p = timeout rh) as -> by exact (settled_clear_then _ _ _ _ Hs H).
    split; [|split].
    + apply not_settled_nil. intros Hp.
      now apply (cons_settled_entry w C (timeout rh) k rh Hp Hin).
    + unfold settlements. simpl. now rewrite Hs.
    + simpl. now rewrite Hi.
Qed.

Lemma elapse_settles (w : World) (dt : N) (p : nat) :
  consistent w ->
  settled p (added w (elapse dt w)) ->
  settlements p (effects w) = [] /\
  exists tm, In (p, tm) (timers w) /\ isDue (now w + dt) (p, tm) = true /\
    settlements p (added w (elapse dt w)) = [timeoutCall (p, tm)].
Proof.
  intros C. rewrite (added_app _ _ _ (elapse_effects dt w)).
  set (due := List.filter (isDue (now w + dt)) (timers w)).
  assert (forall x, In x due -> tcReject (closure (snd x)) = fst x) as Hrej.
  { intros [t tm] Hx. apply List.filter_In in Hx as [Hx _].
    apply (cons_timers w C t tm Hx). }
  assert (List.NoDup (map fst due)) as Hnd
    by apply NoDup_map_filter, (cons_timer_ids w C).
  intros H. destruct (in_dec Nat.eq_dec p (map fst due)) as [Hin|Hout].
  - apply in_map_iff in Hin as [[t tm] [Ht Hin]]. simpl in Ht. subst t.
    pose proof Hin as Hdue. apply List.filter_In in Hdue as [Harmed Hdue].
    split.
    + apply not_settled_nil. intros Hp.
      now apply (cons_settled_timer w C p tm Hp).
    + exists tm. repeat split; auto. now apply settlements_fired_one.
  - exfalso. apply H. now apply settlements_fired_none.
Qed.

(** The namespace of a transport never changes and is never empty. *)
Lemma namespace_fireAll (l : list (nat * Timer)) (w : World) :
  namespace (fold_left (fun acc x => fireTimer x acc) l w) = namespace w.
Proof.
  revert w; induction l as [|x l IH]; intros w; simpl; [reflexivity|].
  now rewrite IH.
Qed.

Lemma namespace_clearAll (l : Js.JsMap ResponseHandler) (w : World) :
  namespace (fold_left (fun acc e => clearTimeout (timeout (snd e)) acc) l w) =
  namespace w.
Proof.
  revert w; induction l as [|e l IH]; intros w; simpl; [reflexivity|].
  now rewrite IH.
Qed.

Lemma namespace_broadcastToTab (wm : WrappedMessage) (failed : Z -> bool)
    (tabs : list (option Z)) (w : World) :
  namespace (fold_left (broadcastToTab wm failed) tabs w) = namespace w.
Proof.
  revert w; induction tabs as [|tab tabs IH]; intros w; simpl; [reflexivity|].
  rewrite IH. unfold broadcastToTab, ignoreBroadcastError.
  destruct (truthyTab tab) as [t|]; [destruct (failed t)|]; reflexivity.
Qed.

Lemma namespace_handleIncomingMessage (w : World) (m : option RawMessage)
    (sender : MessageSender) (sr : option nat) :
  namespace (snd (handleIncomingMessage w m sender sr)) = namespace w.
Proof.
  unfold handleIncomingMessage.
  destruct m as [m|]; [|reflexivity].
  destruct (negb (optTruthy (rawNamespace m))
            || negb (optEq (rawNamespace m) (namespace w))); [reflexivity|].
  destruct (rawData m) as [tm|]; [|reflexivity].
  destruct (optEq (dataType tm) "response" && optTruthy (dataCorrelationId tm)).
  - destruct (Js.get (default ""%string (dataCorrelationId tm)) (responseHandlers w));
      [|reflexivity].
    now destruct (dataError tm).
  - now destruct (dataType tm ≫= (fun t => messageHandlers w !! t)).
Qed.

Lemma namespace_step (w : World) (ev : Event) :
  namespace (step w ev) = namespace w.
Proof.
  destruct ev; simpl.
  - unfold send.
    destruct (componentType (config w)), (truthyTab (targetTabId (config w)));
      try destruct (truthyTab (context ≫= ctxTabId)); reflexivity.
  - unfold broadcast. destruct (componentType (config w)); simpl;
      try (destruct runtimeFailed; reflexivity).
    now rewrite namespace_broadcastToTab.
  - destruct (listening w); [apply namespace_handleIncomingMessage | reflexivity].
  - destruct (componentType (config w)); try reflexivity.
    destruct (Js.startsWith portName (namespace w ++ ":"));
      [apply namespace_handleIncomingMessage | reflexivity].
  - unfold runCallback. destruct (callbacks w !! cb); [|reflexivity].
    destruct lastError; [reflexivity|]. destruct response as [r|]; [|reflexivity].
    now destruct (rawData r ≫= dataError).
  - unfold elapse. now rewrite namespace_fireAll.
  - reflexivity.
  - reflexivity.
  - unfold handlerSettled. destruct sendResponse; [|reflexivity].
    now destruct (respondsAllowed w).
  - unfold close. simpl. now rewrite namespace_clearAll.
Qed.

Lemma orElse_truthy (o : option string) (d : string) :
  d <> ""%string -> Js.orElse o d <> ""%string.
Proof.
  intros Hd. unfold Js.orElse, Js.truthy. destruct o as [s|]; [|exact Hd].
  destruct (String.eqb s "") eqn:E; simpl; [exact Hd|].
  now apply String.eqb_neq.
Qed.

Lemma reachable_namespace (w : World) : reachable w -> namespace w <> ""%string.
Proof.
  induction 1 as [cfg clock|w ev _ IH].
  - assert (namespace (@constructor Payload cfg clock) =
            Js.orElse (configNamespace cfg) "magicbutton") as ->
      by (destruct cfg as [[] ? ? ?]; reflexivity).
    now apply orElse_truthy.
  - now rewrite namespace_step.
Qed.

(** C3 as the code has it.  In a reachable world: what an inbound message
    settles had not been settled, and it is one promise, settled by one call;
    a response that matches an entry calls exactly one of the [resolve] and
    [reject] of that entry, once; a timer that fires rejects a promise not
    settled before, once; a callback of [sendMessage] makes at most one call,
    and exactly one when it reports an error or a response; [close] makes
    none. *)
Theorem C3_completion_paths (w : World) :
  reachable w ->
  (forall m sender sr p,
     settled p (added w (snd (handleIncomingMessage w m sender sr))) ->
     settlements p (effects w) = [] /\
     List.length (settlements p
                    (added w (snd (handleIncomingMessage w m sender sr)))) = 1%nat /\
     List.length (List.filter isSettlement
                    (added w (snd (handleIncomingMessage w m sender sr)))) = 1%nat) /\
  (forall m d cid rh sender sr,
     rawNamespace m = Some (namespace w) ->
     rawData m = Some d -> dataType d = Some "response"%string ->
     dataCorrelationId d = Some cid -> cid <> ""%string ->
     Js.get cid (responseHandlers w) = Some rh ->
     List.filter isSettlement
       (added w (snd (handleIncomingMessage w (Some m) sender sr))) =
     [match dataError d with
      | Some e => CallReject (reject rh) (RemoteError e)
      | None => CallResolve (resolve rh) (dataPayload d)
      end]) /\
  (forall dt p,
     settled p (added w (elapse dt w)) ->
     settlements p (effects w) = [] /\
     exists tm, In (p, tm) (timers w) /\ isDue (now w + dt) (p, tm) = true /\
       settlements p (added w (elapse dt w)) = [timeoutCall (p, tm)]) /\
  (forall cb lastError response,
     (List.length (List.filter isSettlement
        (added w (runCallback w cb lastError response))) <= 1)%nat /\
     (is_Some (callbacks w !! cb) -> lastError <> None \/ response <> None ->
      List.length (List.filter isSettlement
        (added w (runCallback w cb lastError response))) = 1%nat)) /\
  (forall p, settlements p (added w (close w)) = []).
Proof.
  intros R. apply reachable_consistent in R as C.
  apply reachable_namespace in R as Hne.
  split; [|split; [|split; [|split]]].
  - intros m sender sr p. now apply handleIncomingMessage_settles.
  - intros m d cid rh sender sr Hns Hd Hty Hcid Hcne Hget.
    unfold handleIncomingMessage. rewrite Hns, Hd, Hty, Hcid. simpl.
    rewrite String.eqb_refl.
    assert (Js.truthy (namespace w) = true) as ->
      by (unfold Js.truthy; now apply negb_true_iff, String.eqb_neq).
    assert (Js.truthy cid = true) as ->
      by (unfold Js.truthy; now apply negb_true_iff, String.eqb_neq).
    simpl. rewrite Hget.
    destruct (dataError d) as [e|]; simpl;
      erewrite added_app by (simpl; rewrite <- app_assoc; reflexivity);
      reflexivity.
  - intros dt p. now apply elapse_settles.
  - intros cb lastError response.
    destruct (runCallback_added w cb lastError response)
      as [[-> Hwhy]|(c & e & Hcb & -> & Hi & _)]; simpl.
    + split; [lia|]. intros [c Hc] Hle.
      destruct Hwhy as [Hnone|[-> ->]]; [congruence | now destruct Hle].
    + rewrite Hi. simpl. split; [lia | reflexivity].
  - intros p. rewrite (added_app _ _ _ (close_effects w)).
    apply close_settles_nothing.
Qed.

(** *** A request that nothing answers *)

Lemma send_spec (w : World) (m : Message) (ctx : option MessageContext) :
  fst (send w m ctx) = nextId w /\
  now (snd (send w m ctx)) = now w /\
  timers (snd (send w m ctx)) =
    timers w ++ [(nextId w,
                  {| deadline := (now w + MESSAGE_TIMEOUT)%N;
                     closure := {| tcCorrelationId := msgId m;
                                   tcReject := nextId w;
                                   tcType := msgType m |} |})].
Proof.
  unfold send.
  destruct (componentType (config w)), (truthyTab (targetTabId (config w)));
    try destruct (truthyTab (ctx ≫= ctxTabId)); repeat split.
Qed.

Lemma fireAll_now (l : list (nat * Timer)) (w : World) :
  now (fold_left (fun acc x => fireTimer x acc) l w) = now w.
Proof.
  revert w; induction l as [|x l IH]; intros w; simpl; [reflexivity|].
  now rewrite IH.
Qed.

Lemma clearAll_now (l : Js.JsMap ResponseHandler) (w : World) :
  now (fold_left (fun acc e => clearTimeout (timeout (snd e)) acc) l w) = now w.
Proof.
  revert w; induction l as [|e l IH]; intros w; simpl; [reflexivity|].
  now rewrite IH.
Qed.

Lemma handleIncomingMessage_frame (w : World) (m : option RawMessage)
    (sender : MessageSender) (sr : option nat) :
  let w' := snd (handleIncomingMessage w m sender sr) in
  now w' = now w /\
  (timers w' = timers w \/
   exists k rh, In (k, rh) (responseHandlers w) /\ carries k m = true /\
     timers w' = disarm (timeout rh) (timers w)).
Proof.
  unfold handleIncomingMessage.
  destruct m as [m|]; [|now auto].
  destruct (negb (optTruthy (rawNamespace m))
            || negb (optEq (rawNamespace m) (namespace w))); [now auto|].
  destruct (rawData m) as [tm|] eqn:Hd; [|now auto].
  destruct (optEq (dataType tm) "response" && optTruthy (dataCorrelationId tm))
    eqn:Hresp.
  - destruct (Js.get (default ""%string (dataCorrelationId tm)) (responseHandlers w))
      as [rh|] eqn:Hget; [|now auto].
    apply get_In in Hget. apply andb_prop in Hresp as [_ Hcid].
    assert (carries (default ""%string (dataCorrelationId tm)) (Some m) = true)
      as Hcar.
    { unfold carries. simpl. rewrite Hd. simpl.
      destruct (dataCorrelationId tm); [apply String.eqb_refl | discriminate]. }
    destruct (dataError tm); simpl; (split; [reflexivity|]); right; eauto.
  - destruct (dataType tm ≫= (fun t => messageHandlers w !! t)); now auto.
Qed.

Lemma runCallback_frame (w : World) (cb : nat)
    (lastError : option (option string)) (response : option RawMessage) :
  let w' := runCallback w cb lastError response in
  now w' = now w /\
  (timers w' = timers w \/
   exists c, callbacks w !! cb = Some c /\
     (lastError <> None \/ response <> None) /\
     timers w' = disarm (cbTimeout c) (timers w)).
Proof.
  unfold runCallback.
  destruct (callbacks w !! cb) as [c|] eqn:Hcb; [|now auto].
  destruct lastError as [msg|]; [|destruct response as [r|];
    [destruct (rawData r ≫= dataError) as [e|]|]].
  4: now auto.
  all: split; [reflexivity|]; right; exists c; repeat split; auto;
    solve [left; discriminate | right; discriminate].
Qed.

Lemma fireAll_timers (l : list (nat * Timer)) (w : World) (x : nat * Timer) :
  In x (timers (fold_left (fun acc y => fireTimer y acc) l w)) <->
  In x (timers w) /\ ~ In (fst x) (map fst l).
Proof.
  revert w; induction l as [|y l IH]; intros w; simpl; [tauto|].
  rewrite IH. simpl. rewrite disarm_In.
  split; [intros [[H1 H2] H3] | intros [H1 H2]]; repeat split; auto.
  intros [H|H]; auto.
Qed.

Lemma now_step (w : World) (ev : Event) : (now w <= now (step w ev))%N.
Proof.
  destruct ev; simpl.
  - destruct (send_spec w m context) as (_ & -> & _). lia.
  - unfold broadcast. destruct (componentType (config w)); simpl;
      try (destruct runtimeFailed; simpl; lia).
    destruct (broadcastToTab_frame (wrap w m false) failed tabs (emit TabsQuery w))
      as (_ & _ & _ & _ & ->). simpl. lia.
  - destruct (listening w); [|lia].
    destruct (handleIncomingMessage_frame w message sender sendResponse) as [-> _].
    lia.
  - destruct (componentType (config w)); try lia.
    destruct (Js.startsWith portName (namespace w ++ ":")); [|lia].
    destruct (handleIncomingMessage_frame w message sender sendResponse) as [-> _].
    lia.
  - destruct (runCallback_frame w cb lastError response) as [-> _]. lia.
  - unfold elapse. rewrite fireAll_now. simpl. lia.
  - lia.
  - lia.
  - unfold handlerSettled. destruct sendResponse; [|lia].
    destruct (respondsAllowed w); simpl; lia.
  - unfold close. simpl. rewrite clearAll_now. lia.
Qed.

Lemma now_run (evs : list Event) (w : World) : (now w <= now (run w evs))%N.
Proof.
  revert w; induction evs as [|ev evs IH]; intros w; simpl; [lia|].
  pose proof (now_step w ev). pose proof (IH (step w ev)). unfold run in *. lia.
Qed.

Lemma broadcast_timers (w : World) (m : Message) (tabs : list (option Z))
    (failed : Z -> bool) (runtimeFailed : bool) :
  timers (snd (broadcast w m tabs failed runtimeFailed)) = timers w.
Proof.
  unfold broadcast. destruct (componentType (config w)); simpl;
    try (destruct runtimeFailed; reflexivity).
  now destruct (broadcastToTab_frame (wrap w m false) failed tabs (emit TabsQuery w))
    as (_ & _ & -> & _).
Qed.

(** An event that is no answer to the request leaves its timer armed until
    the deadline. *)
Lemma armed_step (w : World) (p : nat) (tm : Timer) (ev : Event) :
  consistent w -> In (p, tm) (timers w) ->
  quiet p (tcCorrelationId (closure tm)) ev = true ->
  (now (step w ev) < deadline tm)%N ->
  In (p, tm) (timers (step w ev)).
Proof.
  intros C Hin Hq Hnow.
  assert (forall m sender sr,
            carries (tcCorrelationId (closure tm)) m = false ->
            In (p, tm) (timers (snd (handleIncomingMessage w m sender sr))))
    as Hinbound.
  { intros m sender sr Hcar.
    destruct (handleIncomingMessage_frame w m sender sr)
      as [_ [->|(k & rh & Hk & Hcarries & ->)]]; [assumption|].
    apply disarm_In. split; [assumption|]. simpl. intros Hp.
    rewrite Hp in Hin.
    pose proof (cons_timer_key w C k rh tm Hk Hin) as Hkey.
    rewrite Hkey in Hcar. congruence. }
  destruct ev; simpl in *.
  - destruct (send_spec w m context) as (_ & _ & ->). apply in_or_app. now left.
  - now rewrite broadcast_timers.
  - destruct (listening w); [|assumption].
    apply Hinbound. now apply negb_true_iff.
  - destruct (componentType (config w)); try assumption.
    destruct (Js.startsWith portName (namespace w ++ ":")); [|assumption].
    apply Hinbound. now apply negb_true_iff.
  - destruct (runCallback_frame w cb lastError response)
      as [_ [->|(c & Hcb & Hwhy & ->)]]; [assumption|].
    apply disarm_In. split; [assumption|]. simpl.
    destruct (cons_callbacks w C cb c Hcb) as (-> & _).
    apply orb_prop in Hq as [Hq|Hq].
    + apply negb_true_iff, Nat.eqb_neq in Hq. congruence.
    + destruct lastError, response; try discriminate. now destruct Hwhy.
  - unfold elapse in *. rewrite fireAll_now in Hnow. simpl in Hnow.
    apply fireAll_timers. split; [assumption|]. simpl.
    intros Hdue. apply in_map_iff in Hdue as [[t tm'] [Ht Hdue]].
    simpl in Ht. subst t. apply List.filter_In in Hdue as [Hin' Hdue].
    assert ((p, tm') = (p, tm)) as E
      by (apply (NoDup_map_eq fst _ _ _ (cons_timer_ids w C) Hin' Hin); reflexivity).
    inversion E; subst. unfold isDue in Hdue. simpl in Hdue.
    apply N.leb_le in Hdue. lia.
  - assumption.
  - assumption.
  - unfold handlerSettled. destruct sendResponse; [|assumption].
    now destruct (respondsAllowed w).
  - discriminate.
Qed.

Lemma armed_run (evs : list Event) (w : World) (p : nat) (tm : Timer) :
  consistent w -> In (p, tm) (timers w) ->
  forallb (quiet p (tcCorrelationId (closure tm))) evs = true ->
  (now (run w evs) < deadline tm)%N ->
  In (p, tm) (timers (run w evs)).
Proof.
  revert w; induction evs as [|ev evs IH]; intros w C Hin Hq Hnow; simpl in *;
    [assumption|].
  apply andb_prop in Hq as [Hq Hqs].
  apply IH; auto using consistent_step.
  apply armed_step; auto.
  pose proof (now_run evs (step w ev)). unfold run in *. lia.
Qed.

Lemma fireAll_get_None (l : list (nat * Timer)) (w : World) (k : string) :
  List.NoDup (map fst (responseHandlers w)) ->
  Js.get k (responseHandlers w) = None \/
    (exists x, In x l /\ tcCorrelationId (closure (snd x)) = k) ->
  Js.get k (responseHandlers (fold_left (fun acc x => fireTimer x acc) l w)) = None.
Proof.
  revert w; induction l as [|y l IH]; intros w Hnd H; simpl.
  - destruct H as [H|[x [[] _]]]. exact H.
  - apply IH.
    + simpl. now apply delete_NoDup.
    + simpl. destruct H as [H|[x [[->|Hx] Hk]]].
      * left. now apply get_delete_None.
      * left. rewrite Hk. now apply get_delete.
      * right. now exists x.
Qed.

(** C2: a request sent by the transport whose timer is left alone (no
    inbound message carries its correlation id, its callback reports
    neither an error nor a response, the transport is not closed) is
    pending until 30000 ms have passed; when they have, its promise is
    rejected with the error ["Message timeout: " ++ type], its correlation
    id is no key of [responseHandlers], and a response that carries the id
    afterwards makes [handleIncomingMessage] return [false] and change
    nothing. *)
Theorem C2_timeout_rejects (w : World) (m : Message)
    (ctx : option MessageContext) (evs : list Event) (dt : N) :
  reachable w ->
  let p := fst (send w m ctx) in
  let w2 := run (snd (send w m ctx)) evs in
  let w3 := elapse dt w2 in
  forallb (quiet p (msgId m)) evs = true ->
  (now w2 < now w + MESSAGE_TIMEOUT)%N ->
  (now w + MESSAGE_TIMEOUT <= now w2 + dt)%N ->
  MESSAGE_TIMEOUT = 30000%N /\
  promiseState p (effects w2) = None /\
  promiseState p (effects w3) =
    Some (CallReject p (JsError ("Message timeout: " ++ msgType m)%string)) /\
  Js.get (msgId m) (responseHandlers w3) = None /\
  (forall r d sender sr,
     rawData r = Some d -> dataType d = Some "response"%string ->
     dataCorrelationId d = Some (msgId m) -> msgId m <> ""%string ->
     handleIncomingMessage w3 (Some r) sender sr = (Returned false, w3)).
Proof.
  intros R p w2 w3 Hq Hbefore Hafter.
  apply reachable_consistent in R as C.
  destruct (send_spec w m ctx) as (Hp & Hnow & Htimers).
  set (tm := {| deadline := (now w + MESSAGE_TIMEOUT)%N;
                closure := {| tcCorrelationId := msgId m; tcReject := nextId w;
                              tcType := msgType m |} |}) in *.
  assert (consistent (snd (send w m ctx))) as C1 by now apply consistent_send.
  assert (In (p, tm) (timers w2)) as Harmed.
  { apply armed_run; [exact C1 | | exact Hq | exact Hbefore].
    rewrite Htimers. apply in_or_app. right. left. unfold p. now rewrite Hp. }
  assert (consistent w2) as C2 by now apply consistent_run.
  assert (settlements p (effects w2) = []) as Hpending.
  { apply not_settled_nil. intros H.
    now apply (cons_settled_timer w2 C2 p tm H). }
  assert (In (p, tm) (List.filter (isDue (now w2 + dt)) (timers w2))) as Hdue.
  { apply List.filter_In. split; [assumption|]. unfold isDue. simpl.
    now apply N.leb_le. }
  assert (Js.get (msgId m) (responseHandlers w3) = None) as Hgone.
  { unfold w3, elapse. apply fireAll_get_None; [apply (cons_keys w2 C2)|].
    right. exists (p, tm). split; [exact Hdue | reflexivity]. }
  split; [reflexivity|].
  split; [unfold promiseState; now rewrite Hpending|].
  split; [|split; [exact Hgone|]].
  - unfold promiseState, w3. rewrite elapse_effects, settlements_app, Hpending.
    simpl.
    rewrite (settlements_fired_one p tm).
    + unfold timeoutCall, timeoutError. simpl. unfold p. now rewrite Hp.
    + intros [t tm'] Hx. apply List.filter_In in Hx as [Hx _].
      apply (cons_timers w2 C2 t tm' Hx).
    + apply NoDup_map_filter, (cons_timer_ids w2 C2).
    + exact Hdue.
  - intros r d sender sr Hd Hty Hcid Hne.
    unfold handleIncomingMessage.
    destruct (negb (optTruthy (rawNamespace r))
              || negb (optEq (rawNamespace r) (namespace w3))); [reflexivity|].
    rewrite Hd, Hty, Hcid. simpl.
    assert (Js.truthy (msgId m) = true) as ->
      by (unfold Js.truthy; now apply negb_true_iff, String.eqb_neq).
    simpl. now rewrite Hgone.
Qed.

End CorrelationEngine.

(** ** Connecting and sending *)

Section Connection.
Context {Msg Payload : Type}.
#[local] Open Scope list_scope.

#[local] Abbreviation CWorld := (@ChromeTransport.World Msg).
#[local] Abbreviation NWorld := (@NatsTransport.World Payload).

Lemma chrome_send_not_connected (w : CWorld) (m : Msg) (t : option string) :
  ChromeTransport.port w = None \/ ChromeTransport.isConnected w = false ->
  ChromeTransport.send w m t = (ChromeTransport.Thrown "Transport not connected", w).
Proof.
  unfold ChromeTransport.send. intros [->| ->]; [reflexivity|].
  now destruct (ChromeTransport.port w).
Qed.

Lemma nats_send_not_connected (w : NWorld) (m : NatsTransport.Message)
    (t : option string) :
  NatsTransport.nats w = None \/ NatsTransport.connected w = false ->
  NatsTransport.send w m t = (NatsTransport.Rejected "Transport not connected", w).
Proof.
  unfold NatsTransport.send. intros [->| ->]; [reflexivity|].
  now destruct (NatsTransport.nats w).
Qed.

(** C9 as the code has it: on [ChromeTransport] and on [NatsTransport],
    [send] on a transport that is not connected (its flag is off, or it has
    no port or connection) fails with the error ["Transport not connected"],
    writes nothing to the channel and leaves the transport as it was. *)
Theorem C9_send_guarded :
  Transports.guardsSend CWorld (Msg * option string) /\
  Transports.guardsSend NWorld (NatsTransport.Message * option string) /\
  (forall (w : CWorld) m t,
     ChromeTransport.port w = None ->
     ChromeTransport.send w m t =
     (ChromeTransport.Thrown "Transport not connected", w)) /\
  (forall (w : NWorld) m t,
     NatsTransport.nats w = None ->
     NatsTransport.send w m t =
     (NatsTransport.Rejected "Transport not connected", w)).
Proof.
  split; [|split; [|split]].
  - intros w [m t] H. simpl in *.
    rewrite chrome_send_not_connected by now right. now simpl.
  - intros w [m t] H. simpl in *.
    rewrite nats_send_not_connected by now right. now simpl.
  - intros w m t H. apply chrome_send_not_connected. now left.
  - intros w m t H. apply nats_send_not_connected. now left.
Qed.

(** C4 as the code has it.  [ChromeTransport.connect] on a connected
    transport returns at once and changes nothing; when a promise is stored
    in [connectPromise] it returns that promise and opens nothing.
    [NatsTransport.connect] on a connected transport returns at once; while
    an attempt is in progress it is rejected with ["Connection already in
    progress"] and opens nothing; otherwise it marks the attempt and asks
    for one connection. *)
Theorem C4_connect_single_attempt :
  (forall w : CWorld,
     ChromeTransport.isConnected w = true -> is_Some (ChromeTransport.port w) ->
     ChromeTransport.connect w = (ChromeTransport.Immediate, w)) /\
  (forall (w : CWorld) p,
     ChromeTransport.isConnected w = false \/ ChromeTransport.port w = None ->
     ChromeTransport.connectPromise w = Some p ->
     ChromeTransport.connect w = (ChromeTransport.Adopts p, w)) /\
  (forall w : NWorld,
     NatsTransport.connected w = true ->
     NatsTransport.connect w = (NatsTransport.Done NatsTransport.Fulfilled, w)) /\
  (forall w : NWorld,
     NatsTransport.connected w = false -> NatsTransport.connecting w = true ->
     NatsTransport.connect w =
     (NatsTransport.Done (NatsTransport.Rejected "Connection already in progress"),
      w)) /\
  (forall w : NWorld,
     NatsTransport.connected w = false -> NatsTransport.connecting w = false ->
     fst (NatsTransport.connect w) = NatsTransport.AwaitingOpen /\
     NatsTransport.connecting (snd (NatsTransport.connect w)) = true /\
     NatsTransport.connectAttempts
       (NatsTransport.effects (snd (NatsTransport.connect w))) =
     S (NatsTransport.connectAttempts (NatsTransport.effects w))).
Proof.
  split; [|split; [|split; [|split]]].
  - intros w Hc Hp. unfold ChromeTransport.connect. rewrite Hc.
    now rewrite bool_decide_eq_true_2.
  - intros w p [Hc|Hc] Hp; unfold ChromeTransport.connect; rewrite Hc, Hp;
      [reflexivity|]. now rewrite andb_false_r.
  - intros w Hc. unfold NatsTransport.connect. now rewrite Hc.
  - intros w Hc Hi. unfold NatsTransport.connect. now rewrite Hc, Hi.
  - intros w Hc Hi. unfold NatsTransport.connect. rewrite Hc, Hi. simpl.
    repeat split. unfold NatsTransport.connectAttempts.
    rewrite List.filter_app, length_app. simpl. lia.
Qed.

(** *** Retries *)

Lemma handleReconnect_schedules (w : CWorld) :
  (ChromeTransport.reconnectAttempts w <
   ChromeTransport.maxRetries (ChromeTransport.config w))%nat ->
  ChromeTransport.reconnectAttempts (ChromeTransport.handleReconnect w) =
    S (ChromeTransport.reconnectAttempts w) /\
  ChromeTransport.retryDelays
    (ChromeTransport.effects (ChromeTransport.handleReconnect w)) =
  ChromeTransport.retryDelays (ChromeTransport.effects w) ++
  [(ChromeTransport.initialDelayMs (ChromeTransport.config w) *
    ChromeTransport.backoffFactor (ChromeTransport.config w) ^
      Z.of_nat (S (ChromeTransport.reconnectAttempts w) - 1))%Q].
Proof.
  intros Hlt. unfold ChromeTransport.handleReconnect.
  apply Nat.ltb_lt in Hlt. rewrite Hlt.
  unfold ChromeTransport.logDebug, ChromeTransport.retryDelays.
  destruct (ChromeTransport.debug (ChromeTransport.config w)) eqn:Hd;
    simpl; rewrite ?Hd; simpl; rewrite ?omap_app; simpl;
    rewrite ?app_nil_r; split; reflexivity.
Qed.

Lemma handleReconnect_gives_up (w : CWorld) :
  (ChromeTransport.maxRetries (ChromeTransport.config w) <=
   ChromeTransport.reconnectAttempts w)%nat ->
  ChromeTransport.timers (ChromeTransport.handleReconnect w) =
    ChromeTransport.timers w /\
  ChromeTransport.retryDelays
    (ChromeTransport.effects (ChromeTransport.handleReconnect w)) =
  ChromeTransport.retryDelays (ChromeTransport.effects w).
Proof.
  intros Hle. unfold ChromeTransport.handleReconnect.
  apply Nat.ltb_ge in Hle. rewrite Hle.
  unfold ChromeTransport.logDebug, ChromeTransport.retryDelays.
  destruct (ChromeTransport.debug (ChromeTransport.config w)); simpl;
    rewrite ?omap_app; simpl; rewrite ?app_nil_r; split; reflexivity.
Qed.

End Connection.

(** ** Concrete runs *)

Section Runs.
Import ExtTransport Scenarios.
#[local] Open Scope list_scope.

(** C1, counterexample: with two requests outstanding [close] empties the
    table and rejects neither of them: both promises are still pending, also
    after the time of their timeouts has passed, and the log has no call of
    [reject]. *)
Lemma C1_close_rejects_nothing :
  List.length (responseHandlers twoPending) = 2%nat /\
  responseHandlers (close twoPending) = [] /\
  promiseState 0 (effects (close twoPending)) = None /\
  promiseState 1 (effects (close twoPending)) = None /\
  promiseState 0 (effects (elapse 60000 (close twoPending))) = None /\
  promiseState 1 (effects (elapse 60000 (close twoPending))) = None /\
  added twoPending (close twoPending) =
    [ClearTimeout 0; ClearTimeout 1; RemoveMessageListener].
Proof. repeat split. Qed.

(** C8, counterexample: a background transport broadcasts to three tabs
    and the delivery to the second fails.  All three tabs are written to and
    the call succeeds, but no failure is reported: not one. *)
Lemma C8_no_failure_reported :
  let w := @constructor unit (runtimeConfig background) 0 in
  let r := broadcast w (request "e1" "settings:updated")
                     [Some 1%Z; Some 2%Z; Some 3%Z] (Z.eqb 2) false in
  fst r = true /\
  tabWrites (added w (snd r)) = [1%Z; 2%Z; 3%Z] /\
  List.length (reports (added w (snd r))) = 0%nat /\
  List.length (reports (added w (snd r))) <> 1%nat.
Proof. repeat split. discriminate. Qed.

Lemma C10_foreign_namespace_ignored_witness :
  let w := onMessage (@constructor unit (runtimeConfig background) 0) "page:read" 7 in
  let m := {| rawNamespace := Some "other";
              rawComponentType := Some "content";
              rawData := Some {| dataId := Some "m1"; dataType := Some "page:read";
                                 dataCorrelationId := None; dataPayload := Some tt;
                                 dataError := None |} |} in
  let sender := {| url := None; senderId := None; senderTabId := None;
                   frameId := None |} in
  handleIncomingMessage w (Some m) sender None = (Returned false, w).
Proof.
  intros w m sender.
  apply (C10_foreign_namespace_ignored w m sender None). discriminate.
Defined.

Lemma C2_timeout_rejects_witness :
  let w := @constructor unit (runtimeConfig popup) 0 in
  let m := request "r1" "settings:get" in
  let evs := [EvElapse 10000; EvIncoming (Some (response "other")) anySender None] in
  let w3 := elapse 20000 (run (snd (send w m None)) evs) in
  promiseState 0 (effects w3) =
    Some (CallReject 0 (JsError "Message timeout: settings:get")) /\
  Js.get "r1"%string (responseHandlers w3) = None /\
  handleIncomingMessage w3 (Some (response "r1")) anySender None =
    (Returned false, w3).
Proof.
  intros w m evs w3.
  destruct (C2_timeout_rejects w m None evs 20000 (reachable_new _ _))
    as (_ & _ & H3 & H4 & H5).
  - reflexivity.
  - reflexivity.
  - discriminate.
  - split; [exact H3|]. split; [exact H4|].
    apply (H5 (response "r1") _ anySender None eq_refl); [reflexivity .. | discriminate].
Defined.

Lemma C3_completion_paths_witness :
  settlements 0 (added twoPending (close twoPending)) = [] /\
  List.filter isSettlement
    (added twoPending
       (snd (handleIncomingMessage twoPending (Some (response "r1")) anySender None)))
  = [CallResolve 0 (Some tt)].
Proof.
  destruct (C3_completion_paths twoPending
              (reachable_step _ _ (reachable_step _ _ (reachable_new _ _))))
    as (_ & Hin & _ & _ & Hclose).
  split; [apply Hclose|].
  apply (Hin (response "r1")
             {| dataId := None; dataType := Some "response"%string;
                dataCorrelationId := Some "r1"%string; dataPayload := Some tt;
                dataError := None |}
             "r1"%string {| resolve := 0; reject := 0; timeout := 0 |}
             anySender None);
    try reflexivity; discriminate.
Defined.

(** C3, counterexample: the receiver answers after 30000 ms.  The timer has
    fired and called [reject]; the callback of [sendMessage] then calls
    [resolve] of the same pair.  And a request that is outstanding when the
    transport is closed has neither of them called, whatever time passes. *)
Lemma C3_reject_then_resolve :
  settlements 0
    (effects (run (@constructor unit (runtimeConfig popup) 0)
                  [EvSend (request "r1" "settings:get") None;
                   EvElapse 30000;
                   EvCallback 0 None (Some (response "r1"))])) =
    [CallReject 0 (JsError "Message timeout: settings:get");
     CallResolve 0 (Some tt)] /\
  settlements 0
    (effects (run (@constructor unit (runtimeConfig popup) 0)
                  [EvSend (request "r1" "settings:get") None;
                   EvClose;
                   EvElapse 60000])) = [].
Proof. split; reflexivity. Qed.

(** C9, counterexample: [ChromeExtensionTransport] has no connection
    state.  Closed, with its listener removed, its [send] still hands the
    message to [chrome.runtime.sendMessage] and fails with no error. *)
Lemma C9_extension_transport_sends_when_closed :
  let w := close (@constructor unit (runtimeConfig popup) 0) in
  let m := (request "r1" "settings:get", @None MessageContext) in
  Transports.isConnected w = false /\
  fst (Transports.send w m) = None /\
  fst (Transports.send w m) <> Some "Transport not connected"%string /\
  Transports.channelWrites (snd (Transports.send w m)) =
    S (Transports.channelWrites w).
Proof. repeat split. discriminate. Qed.

(** C4, counterexample: a second [connect] on a [NatsTransport] whose
    first [connect] waits for the connection is rejected with an error,
    while the attempt in flight goes on to be fulfilled: the two calls do not
    have the same outcome. *)
Lemma C4_second_connect_is_rejected :
  let w0 := @NatsTransport.constructor unit natsOptions in
  let w1 := snd (NatsTransport.connect w0) in
  fst (NatsTransport.connect w0) = NatsTransport.AwaitingOpen /\
  NatsTransport.connect w1 =
    (NatsTransport.Done (NatsTransport.Rejected "Connection already in progress"),
     w1) /\
  fst (NatsTransport.connectSubscribed
         (snd (NatsTransport.connectOpened w1 (inl 0%nat)))) =
    NatsTransport.Done NatsTransport.Fulfilled.
Proof. repeat split. Qed.

End Runs.

(** ** The retries of the reconnection controller *)

Section Retries.
Import Scenarios.
Context {Msg : Type}.
#[local] Open Scope list_scope.

#[local] Abbreviation CWorld := (@ChromeTransport.World Msg).

(** C5 on the code.  [handleReconnect] computes the delay of retry [n] as
    [initialDelayMs * backoffFactor ^ (n - 1)] and schedules nothing once
    [maxRetries] attempts are counted: called after each of four failures it
    schedules retries after 100, 200 and 400 ms and then none.  But
    [connect] stores its promise after the executor has run, so the promise
    of the failed attempt stays in [connectPromise]: when every
    [chrome.runtime.connect] throws, [connect] schedules the retry of 100 ms,
    and that retry gets the stored promise back, calls
    [chrome.runtime.connect] no second time and schedules nothing: no retry
    follows after 200 or 400 ms, no timer is left, and a further call of
    [connect] gets the same stored promise. *)
Theorem C5_retry_chain_breaks :
  (forall w : CWorld,
     (ChromeTransport.reconnectAttempts w <
      ChromeTransport.maxRetries (ChromeTransport.config w))%nat ->
     let n := S (ChromeTransport.reconnectAttempts w) in
     ChromeTransport.reconnectAttempts (ChromeTransport.handleReconnect w) = n /\
     ChromeTransport.retryDelays
       (ChromeTransport.effects (ChromeTransport.handleReconnect w)) =
     ChromeTransport.retryDelays (ChromeTransport.effects w) ++
     [(ChromeTransport.initialDelayMs (ChromeTransport.config w) *
       ChromeTransport.backoffFactor (ChromeTransport.config w) ^
         Z.of_nat (n - 1))%Q]) /\
  (forall w : CWorld,
     (ChromeTransport.maxRetries (ChromeTransport.config w) <=
      ChromeTransport.reconnectAttempts w)%nat ->
     ChromeTransport.timers (ChromeTransport.handleReconnect w) =
       ChromeTransport.timers w /\
     ChromeTransport.retryDelays
       (ChromeTransport.effects (ChromeTransport.handleReconnect w)) =
     ChromeTransport.retryDelays (ChromeTransport.effects w)) /\
  (let w0 : CWorld := ChromeTransport.constructor backoffOptions refused in
   ChromeTransport.retryDelays
     (ChromeTransport.effects
        (ChromeTransport.handleReconnect
           (ChromeTransport.handleReconnect
              (ChromeTransport.handleReconnect
                 (ChromeTransport.handleReconnect w0))))) =
     [100%Q; 200%Q; 400%Q]) /\
  (let w : CWorld :=
     ChromeTransport.run (ChromeTransport.constructor backoffOptions refused)
       [ChromeTransport.EvConnect; ChromeTransport.EvTimer 1] in
   ChromeTransport.retryDelays (ChromeTransport.effects w) = [100%Q] /\
   ChromeTransport.connectAttempts (ChromeTransport.effects w) = 1%nat /\
   ChromeTransport.reconnectAttempts w = 1%nat /\
   ChromeTransport.isConnected w = false /\
   ChromeTransport.connectPromise w = Some 0%nat /\
   ChromeTransport.promiseState 0 (ChromeTransport.effects w) =
     Some (ChromeTransport.CallReject 0 "refused") /\
   ChromeTransport.timers w = [] /\
   (forall t, ChromeTransport.fireTimer w t = w) /\
   ChromeTransport.connect w = (ChromeTransport.Adopts 0, w)).
Proof.
  split; [|split; [|split]].
  - intros w Hlt n. now apply handleReconnect_schedules.
  - intros w Hle. now apply handleReconnect_gives_up.
  - vm_compute. reflexivity.
  - vm_compute. repeat split.
Qed.

End Retries.

(** ** The cases of the test suites, run on the model *)

Section TestSuites.
Import Scenarios.
#[local] Open Scope list_scope.

(** nats-transport.test.ts, "should send a message" and "should send an
    event": the subjects of the two calls of [publish]. *)
Example nats_test_send :
  NatsTransport.send natsConnected
    {| NatsTransport.type := "testRequest"%string; NatsTransport.payload := tt;
       NatsTransport.requestId := Some "123"%string;
       NatsTransport.replyTo := None |} None =
  (NatsTransport.Fulfilled,
   NatsTransport.emit
     (NatsTransport.NatsPublish 0 "test.requests.testRequest"%string tt
        (Some ""%string) (Some "123"%string)) natsConnected) /\
  NatsTransport.send natsConnected
    {| NatsTransport.type := "event:testEvent"%string; NatsTransport.payload := tt;
       NatsTransport.requestId := None; NatsTransport.replyTo := None |} None =
  (NatsTransport.Fulfilled,
   NatsTransport.emit
     (NatsTransport.NatsPublish 0 "test.events.testEvent"%string tt None None)
     natsConnected).
Proof. split; reflexivity. Qed.

(** nats-transport.test.ts, "should throw error when sending message
    without connection". *)
Example nats_test_send_without_connection :
  fst (NatsTransport.send (NatsTransport.constructor natsTestOptions)
         {| NatsTransport.type := "testRequest"%string; NatsTransport.payload := tt;
            NatsTransport.requestId := None; NatsTransport.replyTo := None |} None)
  = NatsTransport.Rejected "Transport not connected".
Proof. reflexivity. Qed.

(** chrome-transport.test.ts, "should not reconnect if already connected":
    two calls of [connect], one call of [chrome.runtime.connect]. *)
Example chrome_test_connect_twice :
  let w : @ChromeTransport.World unit :=
    ChromeTransport.run (ChromeTransport.constructor chromeTestOptions (fun _ => None))
      [ChromeTransport.EvConnect; ChromeTransport.EvConnect] in
  ChromeTransport.connectAttempts (ChromeTransport.effects w) = 1%nat /\
  ChromeTransport.isConnected w = true /\
  ChromeTransport.promiseState 0 (ChromeTransport.effects w) =
    Some (ChromeTransport.CallResolve 0).
Proof. vm_compute. repeat split. Qed.

(** chrome-transport.test.ts, "should publish events through the port":
    a connected transport writes the message to its port. *)
Example chrome_test_send :
  let w : @ChromeTransport.World string :=
    ChromeTransport.run (ChromeTransport.constructor chromeTestOptions (fun _ => None))
      [ChromeTransport.EvConnect;
       ChromeTransport.EvSend "event:userAdded"%string None] in
  ChromeTransport.portWrites (ChromeTransport.effects w) = 1%nat.
Proof. reflexivity. Qed.

End TestSuites.

(** ** The permission matcher and the authentication provider together *)

Section Permissions.
Import Authz Cases.

#[local] Open Scope list_scope.
#[local] Arguments String.append : simpl nomatch.

Lemma isMessageAllowed_app (t : string) (ps qs : list string) :
  isMessageAllowed t (ps ++ qs) = isMessageAllowed t ps || isMessageAllowed t qs.
Proof.
  apply eq_true_iff_eq.
  rewrite orb_true_iff, !isMessageAllowed_iff.
  setoid_rewrite in_app_iff. split.
  - intros [H|[H|[pre [H Hs]]]]; [tauto | tauto |].
    destruct H; [left | right]; right; right; now exists pre.
  - intros [[H|[H|[pre [H Hs]]]] | [H|[H|[pre [H Hs]]]]]; try tauto;
      right; right; exists pre; tauto.
Qed.

Lemma isMessageAllowed_incl (t : string) (ps qs : list string) :
  (forall p, In p ps -> In p qs) ->
  isMessageAllowed t ps = true -> isMessageAllowed t qs = true.
Proof.
  intros Hsub. rewrite !isMessageAllowed_iff.
  intros [H|[H|[pre [H Hs]]]]; [auto | auto |].
  right; right. exists pre. auto.
Qed.

(** X1: the list of patterns is read as a set.  The empty list allows no
    type; a type allowed by a list is allowed by every list that has the
    same patterns, in any order and however often, or more; and a
    concatenation allows what one of its parts allows. *)
Theorem X1_patterns_are_a_set :
  (forall t, isMessageAllowed t [] = false) /\
  (forall t ps qs, (forall p, In p ps -> In p qs) ->
     isMessageAllowed t ps = true -> isMessageAllowed t qs = true) /\
  (forall t ps qs,
     isMessageAllowed t (ps ++ qs) = isMessageAllowed t ps || isMessageAllowed t qs).
Proof.
  split; [reflexivity|]. split.
  - apply isMessageAllowed_incl.
  - apply isMessageAllowed_app.
Qed.

Lemma defaultProvider_permissions :
  cfgPermissions (constructor emptyConfig) = defaultPermissions.
Proof. reflexivity. Qed.

Lemma originOverride_none_configured (regExpTest : string -> string -> bool)
    (componentType : string) (context : MessageContext) :
  originOverride regExpTest (constructor emptyConfig) componentType context = None.
Proof.
  unfold originOverride. simpl. now rewrite andb_false_r.
Qed.

Lemma originOverride_not_content (regExpTest : string -> string -> bool)
    (this : Provider) (componentType : string) (context : MessageContext) :
  componentType <> "content" ->
  originOverride regExpTest this componentType context = None.
Proof.
  intros H. unfold originOverride.
  apply String.eqb_neq in H. rewrite H.
  now rewrite andb_false_r.
Qed.



(** X3: with the default configuration the background component may send,
    handle and broadcast every message type. *)
Theorem X3_background_unrestricted (regExpTest : string -> string -> bool)
    (t : string) (context : MessageContext) (isBroadcast : bool) :
  componentTypeOf context = "background" ->
  checkPermission regExpTest (constructor emptyConfig) t context isBroadcast =
  {| isAuthorized := true; error := None |}.
Proof.
  intros Hrole. unfold checkPermission.
  rewrite Hrole, originOverride_none_configured, defaultProvider_permissions.
  change (defaultPermissions !! "background")
    with (Some (permission ["*"] ["*"] true)).
  unfold checkRole. simpl. rewrite andb_false_r.
  destruct (Js.startsWith t "request:"); reflexivity.
Qed.

Lemma X3_background_unrestricted_witness :
  checkPermission (fun _ _ => false) (constructor emptyConfig)
                  "anything" backgroundContext true =
  {| isAuthorized := true; error := None |}.
Proof.
  apply (X3_background_unrestricted (fun _ _ => false) "anything"
           backgroundContext true).
  reflexivity.
Defined.

Lemma request_prefixed (r : string) :
  Js.startsWith ("request:" ++ r)%string "request:" = true.
Proof. apply startsWith_iff. now exists r. Qed.

(** X4: with the default configuration the four components other than the
    background can never broadcast, whatever the message type, and no
    message type that starts with [request:] is allowed to them: such a type
    is checked against [canHandle], and none of their default patterns
    matches it. *)
Theorem X4_default_roles_restricted (regExpTest : string -> string -> bool)
    (context : MessageContext) :
  In (componentTypeOf context) ["content"; "popup"; "sidepanel"; "options"] ->
  (forall t,
     checkPermission regExpTest (constructor emptyConfig) t context true =
     {| isAuthorized := false;
        error := Some ("Component type " ++ componentTypeOf context ++
                       " is not allowed to broadcast messages")%string |}) /\
  (forall r isBroadcast,
     isAuthorized (checkPermission regExpTest (constructor emptyConfig)
                     ("request:" ++ r)%string context isBroadcast) = false).
Proof.
  intros Hrole. split.
  - intros t. unfold checkPermission.
    rewrite originOverride_none_configured, defaultProvider_permissions.
    simpl in Hrole.
    destruct Hrole as [<-|[<-|[<-|[<-|[]]]]]; reflexivity.
  - intros r b. unfold checkPermission.
    rewrite originOverride_none_configured, defaultProvider_permissions.
    simpl in Hrole.
    destruct Hrole as [<-|[<-|[<-|[<-|[]]]]];
      match goal with
      | |- context [defaultPermissions !! ?k] =>
          let v := eval vm_compute in (defaultPermissions !! k) in
          change (defaultPermissions !! k) with v
      end;
      unfold checkRole; cbn [canBroadcast canHandle canSend permission];
      rewrite request_prefixed; destruct b; cbn [andb negb]; try reflexivity;
      vm_compute; reflexivity.
Qed.

Lemma X4_default_roles_restricted_witness :
  (forall t,
     checkPermission (fun _ _ => false) (constructor emptyConfig) t
                     popupContext true =
     {| isAuthorized := false;
        error := Some "Component type popup is not allowed to broadcast messages" |}) /\
  (forall r isBroadcast,
     isAuthorized (checkPermission (fun _ _ => false) (constructor emptyConfig)
                     ("request:" ++ r)%string popupContext isBroadcast) = false).
Proof.
  apply (X4_default_roles_restricted (fun _ _ => false) popupContext).
  right; left; reflexivity.
Defined.

(** X5: a broadcast is never easier to get through than a send.  For a
    message type that does not start with [request:], or when no origin
    entry takes the place of the role, a check that authorizes the type as a
    broadcast authorizes it as a plain message too. *)
Theorem X5_broadcast_implies_send (regExpTest : string -> string -> bool)
    (this : Provider) (t : string) (context : MessageContext) :
  Js.startsWith t "request:" = false \/
  originOverride regExpTest this (componentTypeOf context) context = None ->
  isAuthorized (checkPermission regExpTest this t context true) = true ->
  isAuthorized (checkPermission regExpTest this t context false) = true.
Proof.
  intros Hside. unfold checkPermission.
  destruct (cfgPermissions this !! componentTypeOf context) as [p|];
    [|trivial].
  destruct (originOverride regExpTest this (componentTypeOf context) context)
    as [[k o]|] eqn:Ho.
  - destruct Hside as [Hreq|]; [|discriminate].
    unfold checkOrigin. rewrite Hreq. cbn [andb].
    destruct (negb (originCanBroadcast o)); [discriminate|].
    destruct (negb (isMessageAllowed t (originCanSend o)));
      [discriminate|reflexivity].
  - unfold checkRole. cbn [andb].
    destruct (negb (canBroadcast p)); [discriminate|].
    destruct (negb (isMessageAllowed t _)); [discriminate|reflexivity].
Qed.

Lemma X5_broadcast_implies_send_witness :
  isAuthorized (checkPermission (fun _ _ => false) (constructor emptyConfig)
                                "page:read" backgroundContext false) = true.
Proof.
  apply (X5_broadcast_implies_send (fun _ _ => false) (constructor emptyConfig)
           "page:read" backgroundContext).
  - left. reflexivity.
  - reflexivity.
Defined.




End Permissions.

Section Authentication.
Import Authn Cases.

#[local] Open Scope list_scope.
#[local] Arguments String.append : simpl nomatch.

Lemma truthyOpt_Some (o : option string) (s : string) :
  truthyOpt o = Some s <-> o = Some s /\ s <> "".
Proof.
  unfold truthyOpt, Js.truthy. destruct o as [x|].
  - destruct (String.eqb x "") eqn:E; simpl.
    + apply String.eqb_eq in E. subst x. split; [discriminate|].
      intros [[= <-] H]. now destruct H.
    + apply String.eqb_neq in E. split.
      * intros [= <-]. now split.
      * now intros [[= <-] _].
  - split; [discriminate | now intros [? _]].
Qed.

Lemma truthyOpt_None (o : option string) :
  truthyOpt o = None <-> forall s, o = Some s -> s = "".
Proof.
  split.
  - intros H s Hs. destruct (String.eqb_spec s ""); [assumption|].
    assert (truthyOpt o = Some s) by now apply truthyOpt_Some.
    congruence.
  - intros H. destruct (truthyOpt o) as [s|] eqn:E; [|reflexivity].
    apply truthyOpt_Some in E as [E Hne]. now apply H in E.
Qed.

Lemma checkExtensionId_None (this : Provider) (context : MessageContext) :
  checkExtensionId this context = None <->
  forall e, cfgExtensionId this = Some e -> e <> "" -> userId context = Some e.
Proof.
  unfold checkExtensionId.
  destruct (truthyOpt (cfgExtensionId this)) as [ext|] eqn:E.
  - apply truthyOpt_Some in E as [E Hne].
    destruct (bool_decide_reflect (userId context = Some ext)) as [Hu|Hu]; simpl.
    + split; [|reflexivity]. intros _ e He _. congruence.
    + split; [discriminate|]. intros H. now destruct Hu; apply H.
  - split; [|reflexivity]. intros _ e He Hne.
    pose proof (proj1 (truthyOpt_None _) E e He). contradiction.
Qed.

Lemma checkComponentType_None (this : Provider) (context : MessageContext) :
  checkComponentType this context = None <->
  forall c, cfgRequireComponentTypeCheck this = true ->
    metaComponentType context = Some c -> c <> "" ->
    In c (cfgAllowedComponentTypes this).
Proof.
  unfold checkComponentType.
  destruct (cfgRequireComponentTypeCheck this); [|split; [discriminate|reflexivity]].
  destruct (truthyOpt (metaComponentType context)) as [c|] eqn:E.
  - apply truthyOpt_Some in E as [E Hne].
    destruct (Js.includes c (cfgAllowedComponentTypes this)) eqn:Hin; simpl.
    + apply includes_iff in Hin. split; [|reflexivity].
      intros _ c' _ Hc' _. congruence.
    + split; [discriminate|]. intros H.
      apply (H c eq_refl E) in Hne. apply includes_iff in Hne. congruence.
  - split; [|reflexivity]. intros _ c _ Hc Hne.
    pose proof (proj1 (truthyOpt_None _) E c Hc). contradiction.
Qed.

Lemma originAllowed_iff (regExpTest : string -> string -> bool)
    (this : Provider) (src : string) :
  originAllowed regExpTest this src = true <->
  cfgAllowedOrigins this = [] \/
  exists o, In o (cfgAllowedOrigins this) /\
            Authz.originMatches regExpTest src o = true.
Proof.
  unfold originAllowed. destruct (cfgAllowedOrigins this) as [|o os].
  - simpl. tauto.
  - cbn [List.length Nat.ltb Nat.leb]. rewrite existsb_exists. split.
    + intros H. now right.
    + intros [H|H]; [discriminate|assumption].
Qed.

Lemma checkOrigin_None (regExpTest : string -> string -> bool)
    (this : Provider) (context : MessageContext) :
  checkOrigin regExpTest this context = None <->
  forall src, cfgRequireOriginCheck this = true ->
    metaComponentType context = Some "content" ->
    source context = Some src -> src <> "" ->
    cfgAllowedOrigins this = [] \/
    exists o, In o (cfgAllowedOrigins this) /\
              Authz.originMatches regExpTest src o = true.
Proof.
  unfold checkOrigin.
  destruct (cfgRequireOriginCheck this);
    [|split; [discriminate|reflexivity]].
  destruct (bool_decide_reflect (metaComponentType context = Some "content"))
    as [Hc|Hc]; cbn [andb];
    [|split; [intros _ src _ Hc'; contradiction | reflexivity]].
  destruct (truthyOpt (source context)) as [src|] eqn:E.
  - apply truthyOpt_Some in E as [E Hne].
    destruct (originAllowed regExpTest this src) eqn:Ha; simpl.
    + apply originAllowed_iff in Ha. split; [|reflexivity].
      intros _ src' _ _ Hs _. assert (src' = src) as -> by congruence.
      exact Ha.
    + split; [discriminate|]. intros H.
      specialize (H src eq_refl Hc E Hne). apply originAllowed_iff in H.
      congruence.
  - split; [|reflexivity]. intros _ src _ _ Hs Hne.
    pose proof (proj1 (truthyOpt_None _) E src Hs). contradiction.
Qed.

Lemma checkToken_None (this : Provider) (context : MessageContext) :
  checkToken this context = None <->
  forall validator tok, cfgTokenValidator this = Some validator ->
    metaToken context = Some tok -> tok <> "" -> validator tok = true.
Proof.
  unfold checkToken.
  destruct (cfgTokenValidator this) as [v|];
    [|split; [discriminate|reflexivity]].
  destruct (truthyOpt (metaToken context)) as [tok|] eqn:E.
  - apply truthyOpt_Some in E as [E Hne].
    destruct (v tok) eqn:Hv; simpl.
    + split; [|reflexivity]. intros _ v' tok' [= <-] Ht _. congruence.
    + split; [discriminate|]. intros H.
      rewrite (H v tok eq_refl E Hne) in Hv. discriminate.
  - split; [|reflexivity]. intros _ v' tok _ Ht Hne.
    pose proof (proj1 (truthyOpt_None _) E tok Ht). contradiction.
Qed.

Lemma checks_refuse (regExpTest : string -> string -> bool)
    (this : Provider) (context : MessageContext) (r : AuthResult) :
  checkExtensionId this context = Some r \/
  checkComponentType this context = Some r \/
  checkOrigin regExpTest this context = Some r \/
  checkToken this context = Some r ->
  exists why, r = refuse why.
Proof.
  unfold checkExtensionId, checkComponentType, checkOrigin, checkToken.
  intros [H|[H|[H|H]]];
    repeat match type of H with
           | context [match ?x with _ => _ end] => destruct x; try discriminate
           end;
    injection H as <-; eexists; reflexivity.
Qed.

(** X7: what [authenticate] accepts.  A context is authenticated exactly
    when it passes the four checks: a configured (non-empty) extension id
    is the id of the user; a declared component type is on the allowed list
    when the type check is on; a content script with a source matches one
    of the allowed origins, or no origin is configured, when the origin
    check is on; and a token, when there is a validator, is valid.  An
    accepted context gets the user id (or [anonymous]) and its component
    type (or [unknown]) as only role, and no error; a refused one gets an
    error and no user. *)
Theorem X7_authenticate_exact (regExpTest : string -> string -> bool)
    (this : Provider) (context : MessageContext) :
  (isAuthenticated (authenticate regExpTest this context) = true <->
   (forall e, cfgExtensionId this = Some e -> e <> "" ->
      userId context = Some e) /\
   (forall c, cfgRequireComponentTypeCheck this = true ->
      metaComponentType context = Some c -> c <> "" ->
      In c (cfgAllowedComponentTypes this)) /\
   (forall src, cfgRequireOriginCheck this = true ->
      metaComponentType context = Some "content" ->
      source context = Some src -> src <> "" ->
      cfgAllowedOrigins this = [] \/
      exists o, In o (cfgAllowedOrigins this) /\
                Authz.originMatches regExpTest src o = true) /\
   (forall validator tok, cfgTokenValidator this = Some validator ->
      metaToken context = Some tok -> tok <> "" -> validator tok = true)) /\
  (isAuthenticated (authenticate regExpTest this context) = true ->
   authenticate regExpTest this context =
   {| isAuthenticated := true;
      user := Some {| id := Js.orElse (userId context) "anonymous";
                      roles := [Js.orElse (metaComponentType context) "unknown"] |};
      error := None |}) /\
  (isAuthenticated (authenticate regExpTest this context) = false ->
   user (authenticate regExpTest this context) = None /\
   exists why, error (authenticate regExpTest this context) = Some why).
Proof.
  rewrite <- checkExtensionId_None, <- checkComponentType_None,
    <- (checkOrigin_None regExpTest), <- checkToken_None.
  unfold authenticate.
  destruct (checkExtensionId this context) as [r|] eqn:E1.
  { destruct (checks_refuse regExpTest this context r) as [why ->]; [tauto|].
    simpl. repeat split; try discriminate; try tauto.
    - now intros [? _].
    - now exists why. }
  destruct (checkComponentType this context) as [r|] eqn:E2.
  { destruct (checks_refuse regExpTest this context r) as [why ->]; [tauto|].
    simpl. repeat split; try discriminate; try tauto.
    - now intros (_ & ? & _).
    - now exists why. }
  destruct (checkOrigin regExpTest this context) as [r|] eqn:E3.
  { destruct (checks_refuse regExpTest this context r) as [why ->]; [tauto|].
    simpl. repeat split; try discriminate; try tauto.
    - now intros (_ & _ & ? & _).
    - now exists why. }
  destruct (checkToken this context) as [r|] eqn:E4.
  { destruct (checks_refuse regExpTest this context r) as [why ->]; [tauto|].
    simpl. repeat split; try discriminate; try tauto.
    - now intros (_ & _ & _ & ?).
    - now exists why. }
  simpl. repeat split; discriminate.
Qed.

(** X8: a message that does not declare its component type goes past the
    component-type check and the origin check, whatever lists are
    configured: with no extension id and no token validator it is
    authenticated, with the role [unknown].  The default authorization
    provider then has no permissions for that role and refuses every
    message type. *)
Theorem X8_undeclared_component_type
    (regExpTest regExpTest' : string -> string -> bool)
    (this : Provider) (context : MessageContext)
    (t : string) (isBroadcast : bool) :
  metaComponentType context = None ->
  cfgExtensionId this = None ->
  cfgTokenValidator this = None ->
  authenticate regExpTest this context =
  {| isAuthenticated := true;
     user := Some {| id := Js.orElse (userId context) "anonymous";
                     roles := ["unknown"] |};
     error := None |} /\
  Authz.checkPermission regExpTest' (Authz.constructor emptyConfig) t
    (authorizationContext context (authenticate regExpTest this context))
    isBroadcast =
  {| Authz.isAuthorized := false;
     Authz.error := Some "No permissions defined for component type: unknown" |}.
Proof.
  intros Hc Hid Htok.
  assert (authenticate regExpTest this context =
          {| isAuthenticated := true;
             user := Some {| id := Js.orElse (userId context) "anonymous";
                             roles := ["unknown"] |};
             error := None |}) as Hauth.
  { unfold authenticate, checkExtensionId, checkComponentType, checkOrigin,
      checkToken, authenticated.
    rewrite Hc, Hid, Htok. simpl.
    destruct (cfgRequireComponentTypeCheck this);
      destruct (cfgRequireOriginCheck this); reflexivity. }
  split; [exact Hauth|].
  rewrite Hauth. unfold authorizationContext, Authz.checkPermission.
  simpl. rewrite Hc. reflexivity.
Qed.

Lemma X8_undeclared_component_type_witness :
  authenticate (fun _ _ => false) (constructor authConfig) anonymousContext =
  {| isAuthenticated := true;
     user := Some {| id := "anonymous"; roles := ["unknown"] |};
     error := None |} /\
  Authz.checkPermission (fun _ _ => false) (Authz.constructor emptyConfig)
    "page:read"
    (authorizationContext anonymousContext
       (authenticate (fun _ _ => false) (constructor authConfig)
                     anonymousContext))
    false =
  {| Authz.isAuthorized := false;
     Authz.error := Some "No permissions defined for component type: unknown" |}.
Proof.
  apply (X8_undeclared_component_type (fun _ _ => false) (fun _ _ => false)
           (constructor authConfig) anonymousContext "page:read" false);
    reflexivity.
Defined.

End Authentication.

(** ** The lifetime of a request *)

Section Requests.
Import ExtTransport Pending.
Context {Payload : Type}.

#[local] Open Scope list_scope.

#[local] Abbreviation World := (@World Payload).
#[local] Abbreviation Effect := (@Effect Payload).
#[local] Abbreviation Event := (@Event Payload).
#[local] Abbreviation Message := (@Message Payload).
#[local] Abbreviation WrappedMessage := (@WrappedMessage Payload).
#[local] Abbreviation RawMessage := (@RawMessage Payload).

Lemma send_tables (w : World) (m : Message) (ctx : option MessageContext) :
  let p := nextId w in
  responseHandlers (snd (send w m ctx)) =
    Js.set (msgId m) {| resolve := p; reject := p; timeout := p |}
           (responseHandlers w) /\
  exists fb,
    callbacks (snd (send w m ctx)) =
    <[p := {| cbCorrelationId := msgId m; cbTimeout := p; cbResolve := p;
              cbReject := p; cbFallback := fb |}]> (callbacks w).
Proof.
  unfold send.
  destruct (componentType (config w)), (truthyTab (targetTabId (config w)));
    try destruct (truthyTab (ctx ≫= ctxTabId));
    (split; [reflexivity | eexists; reflexivity]).
Qed.

Lemma handleIncomingMessage_tables (w : World) (m : option RawMessage)
    (sender : MessageSender) (sr : option nat) :
  let w' := snd (handleIncomingMessage w m sender sr) in
  callbacks w' = callbacks w /\ now w' = now w /\
  ((responseHandlers w' = responseHandlers w /\ timers w' = timers w) \/
   exists k rh, Js.get k (responseHandlers w) = Some rh /\
     carries k m = true /\
     responseHandlers w' = Js.delete k (responseHandlers w) /\
     timers w' = disarm (timeout rh) (timers w)).
Proof.
  unfold handleIncomingMessage.
  destruct m as [m|]; [|simpl; tauto].
  destruct (negb (optTruthy (rawNamespace m))
            || negb (optEq (rawNamespace m) (namespace w))); [simpl; tauto|].
  destruct (rawData m) as [d|] eqn:Hd; [|simpl; tauto].
  destruct (optEq (dataType d) "response" && optTruthy (dataCorrelationId d))
    eqn:Hresp.
  - destruct (dataCorrelationId d) as [cid|] eqn:Hcid;
      [|now rewrite andb_false_r in Hresp].
    simpl.
    destruct (Js.get cid (responseHandlers w)) as [rh|] eqn:Hget;
      [|simpl; tauto].
    assert (carries cid (Some m) = true) as Hc.
    { unfold carries. simpl. rewrite Hd. simpl. rewrite Hcid.
      apply String.eqb_refl. }
    destruct (dataError d); simpl; (split; [reflexivity|]);
      (split; [reflexivity|]); right; exists cid, rh; auto.
  - destruct (dataType d ≫= (fun t => messageHandlers w !! t)); simpl; tauto.
Qed.

Lemma runCallback_tables (w : World) (cb : nat)
    (lastError : option (option string)) (response : option RawMessage) :
  let w' := runCallback w cb lastError response in
  now w' = now w /\
  (forall c x, callbacks w' !! c = Some x -> callbacks w !! c = Some x) /\
  ((responseHandlers w' = responseHandlers w /\ timers w' = timers w) \/
   exists c, callbacks w !! cb = Some c /\
     (lastError <> None \/ response <> None) /\
     responseHandlers w' = Js.delete (cbCorrelationId c) (responseHandlers w) /\
     timers w' = disarm (cbTimeout c) (timers w)).
Proof.
  unfold runCallback.
  destruct (callbacks w !! cb) as [c|] eqn:Hcb; [|simpl; tauto].
  assert (forall c' x, base.delete cb (callbacks w) !! c' = Some x ->
            callbacks w !! c' = Some x) as Hsub.
  { intros c' x H. now apply lookup_delete_Some in H. }
  destruct lastError as [msg|]; [|destruct response as [r|];
    [destruct (rawData r ≫= dataError) as [e|]|]]; simpl;
    (split; [reflexivity|]); (split; [exact Hsub|]);
    try (right; exists c; repeat split; auto; (left + right); discriminate).
  now left.
Qed.

(** *** Every entry has an armed timer *)

Lemma tracked_frame (w w' : World) :
  tracked w ->
  responseHandlers w' = responseHandlers w -> timers w' = timers w ->
  now w' = now w -> tracked w'.
Proof.
  intros [He Hd] Hr Ht Hn. constructor.
  - intros k rh. rewrite Hr, Ht. apply He.
  - intros t tm. rewrite Ht, Hn. apply Hd.
Qed.

Lemma tracked_constructor (cfg : ChromeExtensionTransportConfig) (clock : N) :
  tracked (@constructor Payload cfg clock).
Proof.
  destruct cfg as [[] ? ? ?]; constructor; simpl; intros; contradiction.
Qed.

Lemma tracked_send (w : World) (m : Message) (ctx : option MessageContext) :
  tracked w -> tracked (snd (send w m ctx)).
Proof.
  intros [He Hd].
  destruct (send_spec w m ctx) as (_ & Hnow & Htimers).
  destruct (send_tables w m ctx) as (Hrh & _).
  constructor.
  - intros k rh. rewrite Hrh, Htimers. intros Hin.
    apply set_In in Hin as [[= -> ->]|Hin].
    + eexists. apply in_or_app. right. left. reflexivity.
    + destruct (He k rh Hin) as [tm Htm]. exists tm.
      apply in_or_app. now left.
  - intros t tm. rewrite Htimers, Hnow. intros Hin.
    apply in_app_or in Hin as [Hin|[[= <- <-]|[]]].
    + now apply (Hd t).
    + simpl. lia.
Qed.

(** One request ends: the entry [k] leaves the table and the timer [t] is
    disarmed, where [t] is the timer of no other entry. *)
Lemma tracked_complete (w w' : World) (k : string) (t : nat) :
  consistent w -> tracked w ->
  responseHandlers w' = Js.delete k (responseHandlers w) ->
  timers w' = disarm t (timers w) ->
  now w' = now w ->
  (forall k' rh, In (k', rh) (responseHandlers w) -> timeout rh = t -> k' = k) ->
  tracked w'.
Proof.
  intros C [He Hd] Hr Ht Hn Hkey. constructor.
  - intros k' rh. rewrite Hr, Ht. intros Hin.
    pose proof (delete_key _ _ _ (cons_keys w C) Hin) as Hne.
    apply delete_In in Hin.
    destruct (He k' rh Hin) as [tm Htm]. exists tm.
    apply disarm_In. split; [assumption|]. simpl. intros Heq.
    apply Hne. simpl. now apply (Hkey k' rh).
  - intros t' tm. rewrite Ht, Hn. intros Hin.
    apply disarm_In in Hin as [Hin _]. now apply (Hd t').
Qed.

Lemma tracked_handleIncomingMessage (w : World) (m : option RawMessage)
    (sender : MessageSender) (sr : option nat) :
  consistent w -> tracked w ->
  tracked (snd (handleIncomingMessage w m sender sr)).
Proof.
  intros C T.
  destruct (handleIncomingMessage_tables w m sender sr)
    as (_ & Hn & [[Hr Ht]|(k & rh & Hget & _ & Hr & Ht)]).
  - now apply (tracked_frame w).
  - apply (tracked_complete w _ k (timeout rh)); auto.
    intros k' rh' Hin Heq. apply get_In in Hget.
    pose proof (NoDup_map_eq (fun e => timeout (snd e)) _ (k', rh') (k, rh)
                  (cons_entry_ids w C) Hin Hget Heq) as E.
    congruence.
Qed.

Lemma tracked_runCallback (w : World) (cb : nat)
    (lastError : option (option string)) (response : option RawMessage) :
  consistent w -> tracked w -> tracked (runCallback w cb lastError response).
Proof.
  intros C T.
  destruct (runCallback_tables w cb lastError response)
    as (Hn & _ & [[Hr Ht]|(c & Hcb & _ & Hr & Ht)]).
  - now apply (tracked_frame w).
  - destruct (cons_callbacks w C cb c Hcb) as (Hto & _).
    apply (tracked_complete w _ (cbCorrelationId c) cb); auto.
    + now rewrite Ht, Hto.
    + intros k' rh' Hin Heq. symmetry.
      apply (cons_callback_key w C k' rh' c Hin). now rewrite Heq.
Qed.

Lemma tracked_fireTimer (w : World) (x : nat * Timer) :
  consistent w -> tracked w -> In x (timers w) -> tracked (fireTimer x w).
Proof.
  intros C T Hin. destruct x as [t tm].
  apply (tracked_complete w _ (tcCorrelationId (closure tm)) t); auto.
  intros k' rh Hk Heq. symmetry. apply (cons_timer_key w C k' rh tm Hk).
  now rewrite Heq.
Qed.

Lemma tracked_fireAll (l : list (nat * Timer)) (w : World) :
  consistent w -> tracked w ->
  List.NoDup (map fst l) -> (forall x, In x l -> In x (timers w)) ->
  tracked (fold_left (fun acc x => fireTimer x acc) l w).
Proof.
  revert w; induction l as [|x l IH]; intros w C T Hnd Hin; simpl; [exact T|].
  inversion Hnd as [|? ? Hx Hl]; subst.
  apply IH.
  - apply consistent_fireTimer; auto. apply Hin. now left.
  - apply tracked_fireTimer; auto. apply Hin. now left.
  - assumption.
  - intros y Hy. simpl. apply disarm_In. split; [apply Hin; now right|].
    intros Heq. apply Hx. rewrite <- Heq. now apply in_map.
Qed.

Lemma tracked_elapse (dt : N) (w : World) :
  consistent w -> tracked w -> tracked (elapse dt w).
Proof.
  intros C [He Hd]. unfold elapse. apply tracked_fireAll.
  - apply (consistent_shrink w _ (fun _ => False)); auto; try apply C.
    intros p [].
  - constructor; [exact He|]. intros t tm Hin. simpl.
    specialize (Hd t tm Hin). lia.
  - apply NoDup_map_filter, (cons_timer_ids w C).
  - intros x Hx. simpl in *. now apply List.filter_In in Hx.
Qed.

Lemma tracked_close (w : World) : tracked w -> tracked (close w).
Proof.
  intros [He Hd]. constructor.
  - simpl. intros k rh [].
  - intros t tm Hin. unfold close in *. simpl in *.
    apply clearAll_timers in Hin as [Hin _].
    rewrite clearAll_now. now apply (Hd t).
Qed.

Lemma tracked_step (w : World) (ev : Event) :
  consistent w -> tracked w -> tracked (step w ev).
Proof.
  intros C T. destruct ev; simpl.
  - now apply tracked_send.
  - apply (tracked_frame w); auto.
    + unfold broadcast. destruct (componentType (config w));
        try (destruct runtimeFailed; reflexivity).
      simpl. now rewrite (proj1 (proj2 (broadcastToTab_frame _ _ _ _))).
    + apply broadcast_timers.
    + unfold broadcast. destruct (componentType (config w));
        try (destruct runtimeFailed; reflexivity).
      simpl. now rewrite (proj2 (proj2 (proj2 (proj2 (broadcastToTab_frame _ _ _ _))))).
  - destruct (listening w); [|exact T].
    now apply tracked_handleIncomingMessage.
  - destruct (componentType (config w)); try exact T.
    destruct (Js.startsWith portName (namespace w ++ ":")); [|exact T].
    now apply tracked_handleIncomingMessage.
  - now apply tracked_runCallback.
  - now apply tracked_elapse.
  - now apply (tracked_frame w).
  - now apply (tracked_frame w).
  - apply (tracked_frame w); auto; unfold handlerSettled;
      destruct sendResponse; try reflexivity;
      destruct (respondsAllowed w); reflexivity.
  - now apply tracked_close.
Qed.

Lemma reachable_tracked (w : World) : reachable w -> tracked w.
Proof.
  induction 1 as [cfg clock|w ev R IH].
  - apply tracked_constructor.
  - apply tracked_step; [now apply reachable_consistent | exact IH].
Qed.

Lemma all_due (w : World) (dt : N) :
  tracked w -> (MESSAGE_TIMEOUT <= dt)%N ->
  List.filter (isDue (now w + dt)) (timers w) = timers w.
Proof.
  intros [_ Hd] Hdt.
  assert (forall x, In x (timers w) -> isDue (now w + dt) x = true) as Hall.
  { intros [t tm] Hin. unfold isDue. simpl. apply N.leb_le.
    specialize (Hd t tm Hin). lia. }
  clear Hd. induction (timers w) as [|x l IH]; simpl; [reflexivity|].
  rewrite (Hall x) by now left.
  f_equal. apply IH. intros y Hy. apply Hall. now right.
Qed.

(** X9: no request outlives the timeout.  In every world the transport can
    be in, each entry of [responseHandlers] has an armed timer that closes
    over the key of the entry and is due at most [MESSAGE_TIMEOUT] from now;
    so once that much time has passed, the table is empty and no timer is
    armed, whatever was sent, received or closed before. *)
Theorem X9_no_request_outlives_timeout (w : World) :
  reachable w ->
  (forall k rh, In (k, rh) (responseHandlers w) ->
     exists tm, In (timeout rh, tm) (timers w) /\
       tcCorrelationId (closure tm) = k /\
       (deadline tm <= now w + MESSAGE_TIMEOUT)%N) /\
  (forall dt, (MESSAGE_TIMEOUT <= dt)%N ->
     responseHandlers (elapse dt w) = [] /\ timers (elapse dt w) = []).
Proof.
  intros R. pose proof (reachable_consistent w R) as C.
  pose proof (reachable_tracked w R) as T.
  assert (forall k rh, In (k, rh) (responseHandlers w) ->
     exists tm, In (timeout rh, tm) (timers w) /\
       tcCorrelationId (closure tm) = k /\
       (deadline tm <= now w + MESSAGE_TIMEOUT)%N) as Hentry.
  { intros k rh Hin. destruct (tracked_entry w T k rh Hin) as [tm Htm].
    exists tm. split; [exact Htm|]. split.
    - now apply (cons_timer_key w C k rh tm).
    - now apply (tracked_deadline w T (timeout rh)). }
  split; [exact Hentry|].
  intros dt Hdt. unfold elapse. cbn [now timers setNow].
  rewrite (all_due w dt T Hdt).
  set (w' := fold_left (fun acc x => fireTimer x acc) (timers w)
                       (setNow (now w + dt) w)).
  split.
  - destruct (responseHandlers w') as [|[k v] rest] eqn:E; [reflexivity|].
    exfalso.
    assert (Js.get k (responseHandlers w') = None) as Hnone.
    { apply fireAll_get_None; [exact (cons_keys w C)|]. simpl.
      destruct (Js.get k (responseHandlers w)) as [rh|] eqn:Hget;
        [right | now left].
      apply get_In in Hget. destruct (Hentry k rh Hget) as (tm & Htm & Hk & _).
      now exists (timeout rh, tm). }
    rewrite E in Hnone. simpl in Hnone. now rewrite String.eqb_refl in Hnone.
  - destruct (timers w') as [|x rest] eqn:E; [reflexivity|]. exfalso.
    assert (In x (timers w')) as Hin by (rewrite E; now left).
    apply fireAll_timers in Hin as [Hin Hnot]. apply Hnot.
    now apply in_map.
Qed.

(** *** A request that is answered *)

Lemma get_set_other {V : Type} (k k' : string) (v : V) (m : Js.JsMap V) :
  k <> k' -> Js.get k (Js.set k' v m) = Js.get k m.
Proof.
  intros Hne. induction m as [|[k0 v0] m IH]; simpl.
  - apply String.eqb_neq in Hne. now rewrite Hne.
  - destruct (String.eqb k' k0) eqn:E; simpl.
    + apply String.eqb_eq in E. subst k0.
      apply String.eqb_neq in Hne. now rewrite Hne.
    + now rewrite IH.
Qed.

Lemma get_delete_other {V : Type} (k k' : string) (m : Js.JsMap V) :
  k <> k' -> Js.get k (Js.delete k' m) = Js.get k m.
Proof.
  intros Hne. induction m as [|[k0 v0] m IH]; simpl; [reflexivity|].
  destruct (String.eqb k' k0) eqn:E; simpl.
  - apply String.eqb_eq in E. subst k0.
    apply String.eqb_neq in Hne. now rewrite Hne.
  - now rewrite IH.
Qed.

Lemma broadcast_tables (w : World) (m : Message) (tabs : list (option Z))
    (failed : Z -> bool) (runtimeFailed : bool) :
  let w' := snd (broadcast w m tabs failed runtimeFailed) in
  responseHandlers w' = responseHandlers w /\ timers w' = timers w /\
  callbacks w' = callbacks w /\ now w' = now w /\ nextId w' = nextId w.
Proof.
  unfold broadcast. destruct (componentType (config w));
    [|destruct runtimeFailed; repeat split ..].
  cbn [snd].
  destruct (broadcastToTab_frame (wrap w m false) failed tabs (emit TabsQuery w))
    as (H1 & H2 & H3 & H4 & H5).
  repeat split; assumption.
Qed.

Lemma outstanding_frame (w w' : World) (p : nat) (cid : string) (tm : Timer) :
  outstanding p cid tm w ->
  responseHandlers w' = responseHandlers w -> timers w' = timers w ->
  (forall c x, callbacks w' !! c = Some x -> callbacks w !! c = Some x) ->
  outstanding p cid tm w'.
Proof.
  intros [He Ht Hc Hts Hcb] Hr Htm Hsub. constructor.
  - now rewrite Hr.
  - now rewrite Htm.
  - exact Hc.
  - rewrite Htm. exact Hts.
  - intros c cb H. apply (Hcb c cb). now apply Hsub.
Qed.

(** Another request ends: the entry [k] leaves the table and the timer [t]
    is disarmed. *)
Lemma outstanding_other (w w' : World) (p : nat) (cid : string) (tm : Timer)
    (k : string) (t : nat) :
  outstanding p cid tm w -> k <> cid -> t <> p ->
  responseHandlers w' = Js.delete k (responseHandlers w) ->
  timers w' = disarm t (timers w) ->
  (forall c x, callbacks w' !! c = Some x -> callbacks w !! c = Some x) ->
  outstanding p cid tm w'.
Proof.
  intros [He Ht Hc Hts Hcb] Hk Hp Hr Htm Hsub. constructor.
  - rewrite Hr, get_delete_other; [exact He | congruence].
  - rewrite Htm. apply disarm_In. split; [exact Ht | simpl; congruence].
  - exact Hc.
  - intros t' tm'. rewrite Htm. intros Hin. apply disarm_In in Hin as [Hin _].
    now apply Hts.
  - intros c cb H. apply (Hcb c cb). now apply Hsub.
Qed.

Lemma outstanding_handleIncomingMessage (w : World) (p : nat) (cid : string)
    (tm : Timer) (m : option RawMessage) (sender : MessageSender)
    (sr : option nat) :
  consistent w -> outstanding p cid tm w -> carries cid m = false ->
  outstanding p cid tm (snd (handleIncomingMessage w m sender sr)).
Proof.
  intros C O Hq.
  destruct (handleIncomingMessage_tables w m sender sr)
    as (Hcb & _ & [[Hr Ht]|(k & rh & Hget & Hk & Hr & Ht)]).
  - apply (outstanding_frame w); auto. intros c x. now rewrite Hcb.
  - assert (k <> cid) as Hne by (intros ->; congruence).
    apply (outstanding_other w _ p cid tm k (timeout rh)); auto.
    + intros Heq. apply Hne.
      pose proof (get_In _ _ _ Hget) as Hin.
      pose proof (get_In _ _ _ (out_entry p cid tm w O)) as Hin'.
      pose proof (NoDup_map_eq (fun e => timeout (snd e)) _ _ _
                    (cons_entry_ids w C) Hin Hin' Heq) as E.
      congruence.
    + intros c x. now rewrite Hcb.
Qed.

Lemma outstanding_runCallback (w : World) (p : nat) (cid : string)
    (tm : Timer) (cb : nat) (lastError : option (option string))
    (response : option RawMessage) :
  consistent w -> outstanding p cid tm w ->
  cb <> p \/ (lastError = None /\ response = None) ->
  outstanding p cid tm (runCallback w cb lastError response).
Proof.
  intros C O Hq.
  destruct (runCallback_tables w cb lastError response)
    as (_ & Hsub & [[Hr Ht]|(c & Hcb & Hwhy & Hr & Ht)]).
  - now apply (outstanding_frame w).
  - assert (cb <> p) as Hne.
    { destruct Hq as [H|[-> ->]]; [exact H|]. now destruct Hwhy. }
    destruct (cons_callbacks w C cb c Hcb) as (Hto & _).
    apply (outstanding_other w _ p cid tm (cbCorrelationId c) cb); auto.
    + intros Heq. apply Hne. now apply (out_callbacks p cid tm w O cb c).
    + now rewrite Ht, Hto.
Qed.

Lemma outstanding_fireAll (l : list (nat * Timer)) (w : World) (p : nat)
    (cid : string) (tm : Timer) :
  outstanding p cid tm w ->
  (forall x, In x l ->
     fst x <> p /\ tcCorrelationId (closure (snd x)) <> cid) ->
  outstanding p cid tm (fold_left (fun acc x => fireTimer x acc) l w).
Proof.
  revert w; induction l as [|x l IH]; intros w O Hl; simpl; [exact O|].
  apply IH; [|intros y Hy; apply Hl; now right].
  destruct (Hl x) as [Hp Hk]; [now left|].
  apply (outstanding_other w _ p cid tm
           (tcCorrelationId (closure (snd x))) (fst x)); auto.
Qed.

Lemma outstanding_elapse (w : World) (p : nat) (cid : string) (tm : Timer)
    (dt : N) :
  consistent w -> outstanding p cid tm w -> (now w + dt < deadline tm)%N ->
  outstanding p cid tm (elapse dt w).
Proof.
  intros C O Hnow. unfold elapse. apply outstanding_fireAll.
  - now apply (outstanding_frame w).
  - intros [t tm'] Hx. cbn [now timers setNow] in Hx.
    apply List.filter_In in Hx as [Hin Hdue].
    assert (t <> p) as Hp.
    { intros ->.
      pose proof (NoDup_map_eq fst _ (p, tm') (p, tm) (cons_timer_ids w C)
                    Hin (out_timer p cid tm w O) eq_refl) as E.
      injection E as ->. unfold isDue in Hdue. simpl in Hdue.
      apply N.leb_le in Hdue. lia. }
    split; [exact Hp|]. simpl. intros Hk. apply Hp.
    now apply (out_timers p cid tm w O t tm').
Qed.

Lemma outstanding_send (w : World) (p : nat) (cid : string) (tm : Timer)
    (m : Message) (ctx : option MessageContext) :
  outstanding p cid tm w -> msgId m <> cid ->
  outstanding p cid tm (snd (send w m ctx)).
Proof.
  intros [He Ht Hc Hts Hcb] Hne.
  destruct (send_spec w m ctx) as (_ & _ & Htimers).
  destruct (send_tables w m ctx) as (Hrh & fb & Hcbs).
  constructor.
  - rewrite Hrh, get_set_other; [exact He | congruence].
  - rewrite Htimers. apply in_or_app. now left.
  - exact Hc.
  - intros t tm'. rewrite Htimers. intros Hin Hk.
    apply in_app_or in Hin as [Hin|[[= <- <-]|[]]]; [now apply (Hts t tm')|].
    simpl in Hk. contradiction.
  - intros c cb. rewrite Hcbs. intros Hin Hk.
    apply lookup_insert_Some in Hin as [[<- <-]|[_ Hin]];
      [simpl in Hk; contradiction | now apply (Hcb c cb)].
Qed.

Lemma outstanding_step (w : World) (p : nat) (cid : string) (tm : Timer)
    (ev : Event) :
  consistent w -> outstanding p cid tm w ->
  quiet p cid ev = true -> resends cid ev = false ->
  (now (step w ev) < deadline tm)%N ->
  outstanding p cid tm (step w ev).
Proof.
  intros C O Hq Hr Hnow. destruct ev; simpl in *.
  - apply outstanding_send; [exact O|]. now apply String.eqb_neq.
  - destruct (broadcast_tables w m tabs failed runtimeFailed)
      as (Hrh & Htm & Hcb & _).
    apply (outstanding_frame w); auto. intros c x. now rewrite Hcb.
  - destruct (listening w); [|exact O].
    apply outstanding_handleIncomingMessage; auto. now apply negb_true_iff.
  - destruct (componentType (config w)); try exact O.
    destruct (Js.startsWith portName (namespace w ++ ":")); [|exact O].
    apply outstanding_handleIncomingMessage; auto. now apply negb_true_iff.
  - apply outstanding_runCallback; auto.
    apply orb_true_iff in Hq as [Hq|Hq].
    + left. now apply Nat.eqb_neq, negb_true_iff.
    + right. destruct lastError, response; try discriminate. now split.
  - apply outstanding_elapse; auto.
    unfold elapse in Hnow. now rewrite fireAll_now in Hnow.
  - now apply (outstanding_frame w).
  - now apply (outstanding_frame w).
  - apply (outstanding_frame w); auto; unfold handlerSettled;
      destruct sendResponse; try reflexivity; trivial;
      destruct (respondsAllowed w); trivial.
  - discriminate.
Qed.

Lemma outstanding_run (evs : list Event) (w : World) (p : nat) (cid : string)
    (tm : Timer) :
  consistent w -> outstanding p cid tm w ->
  forallb (fun ev => quiet p cid ev && negb (resends cid ev)) evs = true ->
  (now (run w evs) < deadline tm)%N ->
  outstanding p cid tm (run w evs).
Proof.
  revert w; induction evs as [|ev evs IH]; intros w C O Hq Hnow; simpl in *;
    [exact O|].
  apply andb_true_iff in Hq as [Hev Hq].
  apply andb_true_iff in Hev as [Hquiet Hres].
  apply negb_true_iff in Hres.
  apply IH; auto.
  - now apply consistent_step.
  - apply outstanding_step; auto.
    pose proof (now_run evs (step w ev)). unfold run in *. lia.
Qed.

Lemma outstanding_sent (w : World) (m : Message) (ctx : option MessageContext) :
  unused (msgId m) w ->
  outstanding (nextId w) (msgId m)
    {| deadline := (now w + MESSAGE_TIMEOUT)%N;
       closure := {| tcCorrelationId := msgId m; tcReject := nextId w;
                     tcType := msgType m |} |}
    (snd (send w m ctx)).
Proof.
  intros [Hts Hcbs].
  destruct (send_spec w m ctx) as (_ & _ & Htimers).
  destruct (send_tables w m ctx) as (Hrh & fb & Hcb).
  constructor.
  - rewrite Hrh. apply get_set_eq.
  - rewrite Htimers. apply in_or_app. right. now left.
  - reflexivity.
  - intros t tm'. rewrite Htimers. intros Hin Hk.
    apply in_app_or in Hin as [Hin|[[= <- <-]|[]]]; [|reflexivity].
    now destruct (Hts t tm' Hin).
  - intros c cb. rewrite Hcb. intros Hin Hk.
    apply lookup_insert_Some in Hin as [[<- _]|[_ Hin]]; [reflexivity|].
    now destruct (Hcbs c cb Hin).
Qed.

Lemma effects_step (w : World) (ev : Event) :
  exists es, effects (step w ev) = effects w ++ es.
Proof.
  assert (forall m sender sr,
            exists es, effects (snd (handleIncomingMessage w m sender sr)) =
                       effects w ++ es) as Hin.
  { intros m sender sr. unfold handleIncomingMessage.
    destruct m as [m|]; [|exists []; simpl; now rewrite app_nil_r].
    destruct (negb (optTruthy (rawNamespace m))
              || negb (optEq (rawNamespace m) (namespace w)));
      [exists []; simpl; now rewrite app_nil_r|].
    destruct (rawData m) as [d|]; [|exists []; simpl; now rewrite app_nil_r].
    destruct (optEq (dataType d) "response" && optTruthy (dataCorrelationId d)).
    - destruct (Js.get _ (responseHandlers w)) as [rh|];
        [|exists []; simpl; now rewrite app_nil_r].
      destruct (dataError d); simpl; rewrite <- app_assoc; eexists; reflexivity.
    - destruct (dataType d ≫= (fun t => messageHandlers w !! t));
        [eexists; reflexivity | exists []; simpl; now rewrite app_nil_r]. }
  destruct ev; cbn [step].
  - unfold send.
    destruct (componentType (config w)), (truthyTab (targetTabId (config w)));
      try destruct (truthyTab (context ≫= ctxTabId)); simpl;
      rewrite <- app_assoc; eexists; reflexivity.
  - unfold broadcast. destruct (componentType (config w));
      [|destruct runtimeFailed; eexists; reflexivity ..].
    cbn [snd]. rewrite effects_broadcastToTab, effects_emit, <- app_assoc.
    eexists; reflexivity.
  - destruct (listening w); [apply Hin | exists []; now rewrite app_nil_r].
  - destruct (componentType (config w));
      try (exists []; now rewrite app_nil_r).
    destruct (Js.startsWith portName (namespace w ++ ":"));
      [apply Hin | exists []; now rewrite app_nil_r].
  - unfold runCallback.
    destruct (callbacks w !! cb) as [c|]; [|exists []; now rewrite app_nil_r].
    destruct lastError as [msg|]; [|destruct response as [r|];
      [destruct (rawData r ≫= dataError) as [e|]|]]; simpl;
      rewrite <- ?app_assoc; try (eexists; reflexivity).
    exists []; now rewrite app_nil_r.
  - rewrite elapse_effects. eexists; reflexivity.
  - exists []; now rewrite app_nil_r.
  - exists []; now rewrite app_nil_r.
  - unfold handlerSettled. destruct sendResponse;
      [|exists []; now rewrite app_nil_r].
    destruct (respondsAllowed w);
      [eexists; reflexivity | exists []; now rewrite app_nil_r].
  - rewrite close_effects. eexists; reflexivity.
Qed.

Lemma effects_run (evs : list Event) (w : World) :
  exists es, effects (run w evs) = effects w ++ es.
Proof.
  revert w; induction evs as [|ev evs IH]; intros w; simpl.
  - exists []. now rewrite app_nil_r.
  - destruct (IH (step w ev)) as [es Hes].
    destruct (effects_step w ev) as [es' Hes'].
    exists (es' ++ es). unfold run in *. simpl. now rewrite Hes, Hes', app_assoc.
Qed.

Lemma promiseState_stable (p : nat) (es es' : list Effect) (e : Effect) :
  promiseState p es = Some e -> promiseState p (es ++ es') = Some e.
Proof.
  unfold promiseState. rewrite settlements_app.
  destruct (settlements p es); [discriminate | trivial].
Qed.

Lemma namespace_run (evs : list Event) (w : World) :
  namespace (run w evs) = namespace w.
Proof.
  revert w; induction evs as [|ev evs IH]; intros w; simpl; [reflexivity|].
  unfold run in *. simpl. now rewrite IH, namespace_step.
Qed.

(** X10: a request that is answered in time.  A transport sends a message
    whose id no outstanding request uses; until the answer comes nothing
    answers or closes the request, no message with the same id is sent
    again, and less than 30000 ms pass.  Then the promise is pending up to
    the answer; a response in the namespace that carries the id as
    correlation id settles it, with the payload of the response or, when the
    response has an error, by a rejection with that error; the entry leaves
    [responseHandlers] and the timer is disarmed; and nothing that happens
    later, no timeout in particular, changes the state of the promise. *)
Theorem X10_response_settles_request (w : World) (m : Message)
    (ctx : option MessageContext) (evs : list Event)
    (r : RawMessage) (d : RawData) (sender : MessageSender) (sr : option nat) :
  reachable w -> unused (msgId m) w -> msgId m <> ""%string ->
  let p := fst (send w m ctx) in
  let w2 := run (snd (send w m ctx)) evs in
  let w3 := snd (handleIncomingMessage w2 (Some r) sender sr) in
  forallb (fun ev => quiet p (msgId m) ev && negb (resends (msgId m) ev)) evs
    = true ->
  (now w2 < now w + MESSAGE_TIMEOUT)%N ->
  rawNamespace r = Some (namespace w) -> rawData r = Some d ->
  dataType d = Some "response"%string ->
  dataCorrelationId d = Some (msgId m) ->
  promiseState p (effects w2) = None /\
  Js.get (msgId m) (responseHandlers w2) =
    Some {| resolve := p; reject := p; timeout := p |} /\
  fst (handleIncomingMessage w2 (Some r) sender sr) = Returned false /\
  Js.get (msgId m) (responseHandlers w3) = None /\
  (forall tm, ~ In (p, tm) (timers w3)) /\
  (forall later,
     promiseState p (effects (run w3 later)) =
     Some (match dataError d with
           | Some e => CallReject p (RemoteError e)
           | None => CallResolve p (dataPayload d)
           end)).
Proof.
  intros R Hun Hid p w2 w3 Hq Hnow Hns Hd Hty Hcid.
  pose proof (reachable_consistent w R) as C.
  pose proof (reachable_namespace w R) as Hne.
  destruct (send_spec w m ctx) as (Hp & _ & _).
  set (tm := {| deadline := (now w + MESSAGE_TIMEOUT)%N;
                closure := {| tcCorrelationId := msgId m; tcReject := nextId w;
                              tcType := msgType m |} |}).
  assert (consistent (snd (send w m ctx))) as C1 by now apply consistent_send.
  assert (consistent w2) as C2 by now apply consistent_run.
  assert (outstanding p (msgId m) tm w2) as O.
  { apply outstanding_run; auto. unfold p. rewrite Hp.
    now apply outstanding_sent. }
  assert (settlements p (effects w2) = []) as Hpending.
  { apply not_settled_nil. intros H.
    exact (cons_settled_timer w2 C2 p tm H (out_timer p _ tm w2 O)). }
  pose proof (out_entry p _ tm w2 O) as Hget.
  assert (handleIncomingMessage w2 (Some r) sender sr =
          (Returned false,
           match dataError d with
           | Some e => callReject p (RemoteError e)
           | None => callResolve p (dataPayload d)
           end (clearTimeout p (deleteResponseHandler (msgId m) w2)))) as Hrun.
  { unfold handleIncomingMessage.
    assert (namespace w2 = namespace w) as Hn2.
    { unfold w2. rewrite namespace_run.
      exact (namespace_step w (EvSend m ctx)). }
    rewrite Hns, Hd, Hty, Hcid, Hn2. simpl.
    rewrite String.eqb_refl.
    assert (Js.truthy (namespace w) = true) as ->
      by (unfold Js.truthy; now apply negb_true_iff, String.eqb_neq).
    assert (Js.truthy (msgId m) = true) as ->
      by (unfold Js.truthy; now apply negb_true_iff, String.eqb_neq).
    simpl. rewrite Hget. simpl. now destruct (dataError d). }
  assert (effects w3 = effects w2 ++
            [ClearTimeout p;
             match dataError d with
             | Some e => CallReject p (RemoteError e)
             | None => CallResolve p (dataPayload d)
             end]) as Heff.
  { unfold w3. rewrite Hrun. destruct (dataError d); simpl;
      now rewrite <- app_assoc. }
  split; [unfold promiseState; now rewrite Hpending|].
  split; [exact Hget|].
  split; [now rewrite Hrun|].
  split; [|split].
  - unfold w3. rewrite Hrun.
    destruct (dataError d); simpl; apply get_delete, (cons_keys w2 C2).
  - intros tm' Hin. unfold w3 in Hin. rewrite Hrun in Hin.
    assert (In (p, tm') (disarm p (timers w2))) as Hin'
      by (destruct (dataError d); exact Hin).
    apply disarm_In in Hin' as [_ Hp']. now apply Hp'.
  - intros later. destruct (effects_run later w3) as [es ->].
    apply promiseState_stable. unfold promiseState.
    rewrite Heff, settlements_app, Hpending.
    destruct (dataError d); simpl; now rewrite Nat.eqb_refl.
Qed.

(** *** A request that a handler of another component answers *)



(** *** The listener and the registry of handlers *)

Lemma truthy_iff (s : string) : Js.truthy s = true <-> s <> ""%string.
Proof.
  unfold Js.truthy. rewrite negb_true_iff. apply String.eqb_neq.
Qed.

Lemma in_namespace_iff (w : World) (r : RawMessage) :
  negb (optTruthy (rawNamespace r))
  || negb (optEq (rawNamespace r) (namespace w)) = false <->
  rawNamespace r = Some (namespace w) /\ namespace w <> ""%string.
Proof.
  rewrite orb_false_iff, !negb_false_iff. unfold optTruthy, optEq.
  destruct (rawNamespace r) as [n|].
  - rewrite truthy_iff, String.eqb_eq. split.
    + intros [Hn ->]. now split.
    + intros [[= ->] Hn]. now split.
  - split; [intros [? _]; discriminate | intros [? _]; discriminate].
Qed.

(** X12: how a call of the listener ends.  [handleIncomingMessage] throws
    exactly when the message is of the namespace of the transport and has no
    [data]; then nothing has changed.  It returns [true], the promise of an
    answer to come, only when it has called a handler and responses are not
    switched off; and a message of type [response] that carries a
    correlation id is never given to a handler, not even to one registered
    for the type [response]. *)
Theorem X12_listener_outcomes (w : World) (message : option RawMessage)
    (sender : MessageSender) (sr : option nat) :
  (fst (handleIncomingMessage w message sender sr) = Threw <->
   exists r, message = Some r /\ rawNamespace r = Some (namespace w) /\
             namespace w <> ""%string /\ rawData r = None) /\
  (fst (handleIncomingMessage w message sender sr) = Threw ->
   snd (handleIncomingMessage w message sender sr) = w) /\
  (fst (handleIncomingMessage w message sender sr) = Returned true ->
   handleResponses (config w) <> Some false /\
   exists h d c,
     (message ≫= rawData) = Some d /\
     (dataType d ≫= (fun t => messageHandlers w !! t)) = Some h /\
     added w (snd (handleIncomingMessage w message sender sr)) =
       [InvokeHandler h (dataPayload d) c (dataId d) sr]) /\
  (forall d, (message ≫= rawData) = Some d ->
     dataType d = Some "response"%string ->
     optTruthy (dataCorrelationId d) = true ->
     forall h p c i s,
       ~ In (InvokeHandler h p c i s)
            (added w (snd (handleIncomingMessage w message sender sr)))).
Proof.
  assert (added w w = []) as Hsame
    by (apply added_app; now rewrite app_nil_r).
  unfold handleIncomingMessage.
  destruct message as [r|]; cbn [mbind option_bind fst snd].
  { destruct (negb (optTruthy (rawNamespace r))
              || negb (optEq (rawNamespace r) (namespace w))) eqn:Hns;
      cbn [fst snd].
    { split; [split; [intros H; discriminate H|]|].
      - intros (r' & Hr' & H1 & H2 & _). injection Hr' as <-.
        assert (negb (optTruthy (rawNamespace r))
                || negb (optEq (rawNamespace r) (namespace w)) = false)
          by now apply in_namespace_iff.
        congruence.
      - split; [intros H; discriminate H|].
        split; [intros H; discriminate H|].
        intros d _ _ _ h p c i s. rewrite Hsame. intros []. }
    apply in_namespace_iff in Hns as [Hns Hne].
    destruct (rawData r) as [d|] eqn:Hd; cbn [fst snd].
    2:{ split; [split; [intros _; now exists r | reflexivity]|].
        split; [reflexivity|].
        split; [intros H; discriminate H|].
        intros d H. discriminate H. }
    assert (~ exists r0 : RawMessage, Some r = Some r0 /\
              rawNamespace r0 = Some (namespace w) /\
              namespace w <> ""%string /\ rawData r0 = None) as Hnot.
    { intros (r' & Hr' & _ & _ & H). injection Hr' as <-. congruence. }
    destruct (optEq (dataType d) "response" && optTruthy (dataCorrelationId d))
      eqn:Hresp.
    - destruct (Js.get _ (responseHandlers w)) as [rh|];
        [destruct (dataError d)|]; cbn [fst snd];
        (split; [split; [intros H; discriminate H | intros H; now destruct Hnot]|]);
        (split; [intros H; discriminate H|]);
        (split; [intros H; discriminate H|]);
        intros d' _ _ _ h p c i s;
        try (rewrite Hsame; intros []).
      all: erewrite added_app by (simpl; rewrite <- app_assoc; reflexivity).
      all: intros [H|[H|[]]]; discriminate H.
    - destruct (dataType d ≫= (fun t => messageHandlers w !! t)) as [h|] eqn:Hh;
        cbn [fst snd];
        (split; [split; [intros H; discriminate H | intros H; now destruct Hnot]|]);
        (split; [intros H; discriminate H|]).
      + split.
        * intros Hallowed. injection Hallowed as Hallowed. split.
          { unfold respondsAllowed in Hallowed.
            destruct (handleResponses (config w)) as [[]|]; congruence. }
          eexists h, d, _. split; [reflexivity|]. split; [exact Hh|].
          now apply added_app.
        * intros d' Hd' Hty Hcid. injection Hd' as <-.
          rewrite Hty, Hcid in Hresp. discriminate Hresp.
      + split; [intros H; discriminate H|].
        intros d' _ _ _ h p c i s. rewrite Hsame. intros []. }
  split; [split; [intros H; discriminate H|]|].
  - intros (r & H & _). discriminate H.
  - split; [intros H; discriminate H|].
    split; [intros H; discriminate H|].
    intros d H. discriminate H.
Qed.

Lemma dispatch (w : World) (r : RawMessage) (d : RawData) (t : string)
    (sender : MessageSender) (sr : option nat) :
  rawNamespace r = Some (namespace w) -> namespace w <> ""%string ->
  rawData r = Some d -> dataType d = Some t ->
  t <> "response"%string \/ optTruthy (dataCorrelationId d) = false ->
  handleIncomingMessage w (Some r) sender sr =
  match messageHandlers w !! t with
  | Some h =>
      (Returned (respondsAllowed w),
       emit (InvokeHandler h (dataPayload d)
               {| ctxSource := Js.orElse (url sender) "unknown";
                  ctxTimestamp := now w;
                  ctxUserId := Js.orElse (senderId sender) "unknown";
                  ctxTabId := senderTabId sender;
                  ctxFrameId := frameId sender;
                  ctxComponentType := Js.orElse (rawComponentType r) "unknown" |}
               (dataId d) sr) w)
  | None => (Returned false, w)
  end.
Proof.
  intros Hns Hne Hd Hty Hplain. unfold handleIncomingMessage.
  assert (negb (optTruthy (rawNamespace r))
          || negb (optEq (rawNamespace r) (namespace w)) = false) as ->
    by now apply in_namespace_iff.
  rewrite Hd, Hty.
  assert (optEq (Some t) "response" && optTruthy (dataCorrelationId d) = false)
    as ->.
  { destruct Hplain as [H| ->]; [|apply andb_false_r].
    simpl. apply String.eqb_neq in H. now rewrite H. }
  reflexivity.
Qed.

(** X13: the registry of handlers.  After [onMessage(type, handler)] a
    message of the namespace with that type is given to the handler, with
    its payload, its id and a context made from the sender in which what
    the sender does not say is ["unknown"]; a second [onMessage] for the
    type takes the place of the first; after [offMessage(type)] the message
    is dropped and the listener returns [false]; and the handlers of other
    types are not touched by either. *)
Theorem X13_handler_registry (w : World) (r : RawMessage) (d : RawData)
    (t : string) (h h' : nat) (sender : MessageSender) (sr : option nat) :
  rawNamespace r = Some (namespace w) -> namespace w <> ""%string ->
  rawData r = Some d -> dataType d = Some t ->
  t <> "response"%string \/ optTruthy (dataCorrelationId d) = false ->
  let context :=
    {| ctxSource := Js.orElse (url sender) "unknown";
       ctxTimestamp := now w;
       ctxUserId := Js.orElse (senderId sender) "unknown";
       ctxTabId := senderTabId sender;
       ctxFrameId := frameId sender;
       ctxComponentType := Js.orElse (rawComponentType r) "unknown" |} in
  handleIncomingMessage (onMessage w t h) (Some r) sender sr =
    (Returned (respondsAllowed w),
     emit (InvokeHandler h (dataPayload d) context (dataId d) sr)
          (onMessage w t h)) /\
  handleIncomingMessage (onMessage (onMessage w t h) t h') (Some r) sender sr =
    (Returned (respondsAllowed w),
     emit (InvokeHandler h' (dataPayload d) context (dataId d) sr)
          (onMessage (onMessage w t h) t h')) /\
  handleIncomingMessage (offMessage (onMessage w t h) t) (Some r) sender sr =
    (Returned false, offMessage (onMessage w t h) t) /\
  (forall t', t' <> t ->
     messageHandlers (onMessage w t h) !! t' = messageHandlers w !! t' /\
     messageHandlers (offMessage w t) !! t' = messageHandlers w !! t').
Proof.
  intros Hns Hne Hd Hty Hplain context.
  split; [|split; [|split]].
  - rewrite (dispatch (onMessage w t h) r d t sender sr); auto.
    cbn [onMessage messageHandlers setMessageHandlers].
    now rewrite lookup_insert_eq.
  - rewrite (dispatch (onMessage (onMessage w t h) t h') r d t sender sr); auto.
    cbn [onMessage messageHandlers setMessageHandlers].
    now rewrite lookup_insert_eq.
  - rewrite (dispatch (offMessage (onMessage w t h) t) r d t sender sr); auto.
    cbn [offMessage onMessage messageHandlers setMessageHandlers].
    now rewrite lookup_delete_eq.
  - intros t' Hne'. cbn [offMessage onMessage messageHandlers setMessageHandlers].
    split; [now apply lookup_insert_ne | now apply lookup_delete_ne].
Qed.

End Requests.

(** ** Runs of the lifetime properties *)

Section RequestRuns.
Import ExtTransport Pending Scenarios Cases.
#[local] Open Scope list_scope.

Lemma X9_no_request_outlives_timeout_witness :
  let w := twoPending in
  (forall k rh, In (k, rh) (responseHandlers w) ->
     exists tm, In (timeout rh, tm) (timers w) /\
       tcCorrelationId (closure tm) = k /\
       (deadline tm <= now w + MESSAGE_TIMEOUT)%N) /\
  (forall dt, (MESSAGE_TIMEOUT <= dt)%N ->
     responseHandlers (elapse dt w) = [] /\ timers (elapse dt w) = []).
Proof.
  apply X9_no_request_outlives_timeout.
  exact (reachable_step _ (EvSend (request "r2" "settings:update") None)
           (reachable_step _ (EvSend (request "r1" "settings:get") None)
              (reachable_new (runtimeConfig popup) 0))).
Defined.

Lemma X10_response_settles_request_witness :
  let w := @constructor unit (runtimeConfig popup) 0 in
  let m := request "r1" "settings:get" in
  let p := fst (send w m None) in
  let w2 := run (snd (send w m None)) [EvElapse 1000] in
  let w3 := snd (handleIncomingMessage w2 (Some (response "r1")) anySender None) in
  promiseState p (effects w2) = None /\
  Js.get "r1" (responseHandlers w2) =
    Some {| resolve := p; reject := p; timeout := p |} /\
  fst (handleIncomingMessage w2 (Some (response "r1")) anySender None) =
    Returned false /\
  Js.get "r1" (responseHandlers w3) = None /\
  (forall tm, ~ In (p, tm) (timers w3)) /\
  (forall later,
     promiseState p (effects (run w3 later)) = Some (CallResolve p (Some tt))).
Proof.
  apply (X10_response_settles_request
           (@constructor unit (runtimeConfig popup) 0)
           (request "r1" "settings:get") None [EvElapse 1000]
           (response "r1")
           {| dataId := None; dataType := Some "response"%string;
              dataCorrelationId := Some "r1"%string; dataPayload := Some tt;
              dataError := None |}
           anySender None); try reflexivity.
  - apply reachable_new.
  - split.
    + intros t tm [].
    + intros c cb H. discriminate H.
  - discriminate.
Defined.


Lemma X13_handler_registry_witness :
  let w := @constructor unit (runtimeConfig background) 5 in
  let r := Wire.delivered (wrap w (request "e1" "settings:updated") false) in
  let context :=
    {| ctxSource := "unknown"; ctxTimestamp := 5; ctxUserId := "unknown";
       ctxTabId := None; ctxFrameId := None;
       ctxComponentType := "background" |} in
  handleIncomingMessage (onMessage w "settings:updated" 1) (Some r) anySender None =
    (Returned true,
     emit (InvokeHandler 1 (Some tt) context (Some "e1"%string) None)
          (onMessage w "settings:updated" 1)) /\
  handleIncomingMessage
    (onMessage (onMessage w "settings:updated" 1) "settings:updated" 2)
    (Some r) anySender None =
    (Returned true,
     emit (InvokeHandler 2 (Some tt) context (Some "e1"%string) None)
          (onMessage (onMessage w "settings:updated" 1) "settings:updated" 2)) /\
  handleIncomingMessage
    (offMessage (onMessage w "settings:updated" 1) "settings:updated")
    (Some r) anySender None =
    (Returned false,
     offMessage (onMessage w "settings:updated" 1) "settings:updated") /\
  (forall t', t' <> "settings:updated"%string ->
     messageHandlers (onMessage w "settings:updated" 1) !! t' =
       messageHandlers w !! t' /\
     messageHandlers (offMessage w "settings:updated") !! t' =
       messageHandlers w !! t').
Proof.
  apply (X13_handler_registry
           (@constructor unit (runtimeConfig background) 5)
           (Wire.delivered
              (wrap (@constructor unit (runtimeConfig background) 5)
                    (request "e1" "settings:updated") false))
           {| dataId := Some "e1"%string;
              dataType := Some "settings:updated"%string;
              dataCorrelationId := None; dataPayload := Some tt;
              dataError := None |}
           "settings:updated" 1 2 anySender None); try reflexivity.
  - discriminate.
  - left. discriminate.
Defined.

End RequestRuns.

(** ** The factories of the extension server *)

Section ServerFactory.
Import ExtServer.
Context {Payload : Type}.

#[local] Open Scope list_scope.
#[local] Arguments String.append : simpl nomatch.

#[local] Abbreviation create := (@create Payload).
#[local] Abbreviation ServerSetup := (@ServerSetup Payload).

Lemma orElse_Some_truthy (s d : string) :
  s <> ""%string -> Js.orElse (Some s) d = s.
Proof.
  intros H. unfold Js.orElse, Js.truthy.
  apply String.eqb_neq in H. now rewrite H.
Qed.

Lemma orElse_default_truthy (o : option string) :
  Js.orElse o "magicbutton" <> ""%string.
Proof.
  unfold Js.orElse, Js.truthy. destruct o as [s|]; [|discriminate].
  destruct (String.eqb s "") eqn:E; simpl; [discriminate|].
  now apply String.eqb_neq.
Qed.

Lemma parse_name (c : ExtTransport.ComponentType) :
  parseComponentType (Wire.componentTypeName c) = Some c.
Proof. destruct c; reflexivity. Qed.

Lemma valid_name (s : string) :
  Js.includes s validComponentTypes = true ->
  exists c, s = Wire.componentTypeName c.
Proof.
  intros H. apply includes_iff in H. simpl in H.
  destruct H as [<-|[<-|[<-|[<-|[<-|[]]]]]];
    [exists ExtTransport.background | exists ExtTransport.content
    | exists ExtTransport.popup | exists ExtTransport.sidepanel
    | exists ExtTransport.options]; reflexivity.
Qed.

Lemma validateComponentType_name (who : string) (c : ExtTransport.ComponentType) :
  validateComponentType who (Some (Wire.componentTypeName c)) =
  Ok (Wire.componentTypeName c).
Proof. destruct c; reflexivity. Qed.

(** X14: the transport that the server factory makes.  For a
    configuration whose component type is one of the five, [create] makes a
    transport of that component type and of the target tab of the server
    configuration, which answers requests ([handleResponses] is [true]), is
    registered as listener, and whose namespace is that of the server
    configuration or ["magicbutton"], never empty; what
    [transportConfig] says about these four is not used.  For any other
    component type, missing or empty or unknown, [create] throws and makes
    nothing. *)
Theorem X14_server_transport (config : ChromeExtensionServerConfig) (clock : N) :
  (forall c, componentType config = Some (Wire.componentTypeName c) ->
     exists s : ServerSetup,
       create config clock = Ok s /\
       transport s =
         ExtTransport.constructor
           {| ExtTransport.componentType := c;
              ExtTransport.targetTabId := targetTabId config;
              ExtTransport.handleResponses := Some true;
              ExtTransport.configNamespace :=
                Some (Js.orElse (namespace config) "magicbutton") |} clock /\
       ExtTransport.namespace (transport s) =
         Js.orElse (namespace config) "magicbutton" /\
       ExtTransport.namespace (transport s) <> ""%string /\
       ExtTransport.respondsAllowed (transport s) = true /\
       ExtTransport.listening (transport s) = true) /\
  ((forall c, componentType config <> Some (Wire.componentTypeName c)) ->
   exists e, create config clock = Throws e /\
     (e = "ChromeExtensionServerConfig requires componentType"%string \/
      exists c, componentType config = Some c /\
        e = ("Invalid componentType: " ++ c ++
             ". Must be one of: background, content, popup, sidepanel, options")%string)).
Proof.
  split.
  - intros c Hc. unfold create, ExtServer.create, validateServerConfig,
      createTransport, validateTransportConfig, serverTransportConfig.
    cbn [tcComponentType tcTargetTabId tcHandleResponses tcNamespace].
    rewrite Hc, !validateComponentType_name. cbn [mbind option_bind].
    rewrite parse_name. eexists. split; [reflexivity|].
    cbn [transport]. split; [reflexivity|].
    assert (ExtTransport.namespace
              (@ExtTransport.constructor Payload
                 {| ExtTransport.componentType := c;
                    ExtTransport.targetTabId := targetTabId config;
                    ExtTransport.handleResponses := Some true;
                    ExtTransport.configNamespace :=
                      Some (Js.orElse (namespace config) "magicbutton") |} clock) =
            Js.orElse (namespace config) "magicbutton") as Hns.
    { destruct c; cbn; apply orElse_Some_truthy, orElse_default_truthy. }
    split; [exact Hns|]. split; [rewrite Hns; apply orElse_default_truthy|].
    split; destruct c; reflexivity.
  - intros Hnone. unfold create, ExtServer.create, validateServerConfig,
      validateComponentType.
    destruct (componentType config) as [c|] eqn:Hc;
      [|eexists; split; [reflexivity | now left]].
    destruct (Js.truthy c); cbn [negb];
      [|eexists; split; [reflexivity | now left]].
    destruct (Js.includes c validComponentTypes) eqn:Hin; cbn [negb].
    + apply valid_name in Hin as [c' ->]. now destruct (Hnone c').
    + eexists; split; [reflexivity|]. right. exists c. split; reflexivity.
Qed.

Lemma create_valid (config : ChromeExtensionServerConfig) (clock : N)
    (c : ExtTransport.ComponentType) :
  componentType config = Some (Wire.componentTypeName c) ->
  exists t warned,
    create config clock =
    Ok {| transport := t;
          options := extensionOptions config;
          systemEventsEnabled :=
            default true (extensionOptions config ≫= handleSystemEvents);
          heartbeatIntervalMs :=
            default 0%Z (extensionOptions config ≫= heartbeatInterval);
          backgroundEvents :=
            if negb (bool_decide (componentType config = Some "background"%string))
               && negb (bool_decide
                          (extensionOptions config ≫= autoConnectToBackground
                           = Some false))
            then ["system:connected"; "system:disconnected";
                  "system:heartbeat"]%string
            else [];
          warnings := warned |} /\
    ExtTransport.config t =
      {| ExtTransport.componentType := c;
         ExtTransport.targetTabId := targetTabId config;
         ExtTransport.handleResponses := Some true;
         ExtTransport.configNamespace :=
           Some (Js.orElse (namespace config) "magicbutton") |}.
Proof.
  intros Hc. unfold create, ExtServer.create, validateServerConfig,
    createTransport, validateTransportConfig, serverTransportConfig.
  cbn [tcComponentType tcTargetTabId tcHandleResponses tcNamespace].
  rewrite Hc, !validateComponentType_name. cbn [mbind option_bind].
  rewrite parse_name. eexists _, _. split; [reflexivity|].
  destruct c; reflexivity.
Qed.

(** X15: the servers that the configuration helpers give.  Every helper
    gives a configuration that [create] accepts.  A background server
    always gets a heartbeat: an interval of [0], which is documented to
    switch it off, is replaced by 30000 like a missing one; and it gets no
    handlers for a connection to the background.  The servers of the other
    components get the heartbeat interval [0] and system events switched on,
    and handlers for the three events of the connection to the background
    unless [autoConnectToBackground] is [false]; a content script server
    gives its target tab to the transport. *)
Theorem X15_component_configs (clock : N) :
  (forall o, exists s : ServerSetup,
     create (createBackgroundConfig o) clock = Ok s /\
     heartbeatIntervalMs s =
       match bgHeartbeatInterval o with
       | Some z => if Z.eqb z 0 then 30000%Z else z
       | None => 30000%Z
       end /\
     heartbeatIntervalMs s <> 0%Z /\
     systemEventsEnabled s = true /\
     backgroundEvents s = []) /\
  (forall o, exists s : ServerSetup,
     create (createContentScriptConfig o) clock = Ok s /\
     heartbeatIntervalMs s = 0%Z /\
     systemEventsEnabled s = true /\
     backgroundEvents s =
       (if bool_decide (csAutoConnectToBackground o = Some false) then []
        else ["system:connected"; "system:disconnected";
              "system:heartbeat"]%string) /\
     ExtTransport.targetTabId (ExtTransport.config (transport s)) =
       csTargetTabId o) /\
  (forall c longLived o,
     In c ["popup"; "sidepanel"; "options"]%string ->
     exists s : ServerSetup,
       create (createPageConfig c longLived o) clock = Ok s /\
       heartbeatIntervalMs s = 0%Z /\
       systemEventsEnabled s = true /\
       backgroundEvents s =
         (if bool_decide (pgAutoConnectToBackground o = Some false) then []
          else ["system:connected"; "system:disconnected";
                "system:heartbeat"]%string)).
Proof.
  split; [|split].
  - intros o.
    destruct (create_valid (createBackgroundConfig o) clock
                ExtTransport.background eq_refl) as (t & warned & -> & _).
    eexists. split; [reflexivity|]. cbn.
    split; [reflexivity|]. split; [|split; reflexivity].
    unfold orNumber. destruct (bgHeartbeatInterval o) as [z|]; [|discriminate].
    destruct (Z.eqb z 0) eqn:E; [discriminate|]. now apply Z.eqb_neq.
  - intros o.
    destruct (create_valid (createContentScriptConfig o) clock
                ExtTransport.content eq_refl) as (t & warned & -> & Hcfg).
    eexists. split; [reflexivity|]. cbn.
    split; [reflexivity|]. split; [reflexivity|].
    split; [|now rewrite Hcfg].
    destruct (bool_decide (csAutoConnectToBackground o = Some false));
      reflexivity.
  - intros c longLived o Hc.
    assert (exists c', c = Wire.componentTypeName c' /\
                       c <> "background"%string) as (c' & Hc' & Hbg).
    { simpl in Hc. destruct Hc as [<-|[<-|[<-|[]]]];
        [exists ExtTransport.popup | exists ExtTransport.sidepanel
        | exists ExtTransport.options]; split; (reflexivity || discriminate). }
    destruct (create_valid (createPageConfig c longLived o) clock c')
      as (t & warned & -> & _); [cbn; now rewrite Hc'|].
    eexists. split; [reflexivity|]. cbn.
    split; [reflexivity|]. split; [reflexivity|].
    rewrite bool_decide_eq_false_2 by congruence.
    destruct (bool_decide (pgAutoConnectToBackground o = Some false));
      reflexivity.
Qed.

End ServerFactory.

(** ** The reconnection controller in every world *)

Section Reconnection.
Import ChromeTransport ChromeReach.
Context {Msg : Type}.

#[local] Open Scope list_scope.

#[local] Abbreviation World := (@World Msg).
#[local] Abbreviation Effect := (@Effect Msg).
#[local] Abbreviation Event := (@Event Msg).

Lemma chrome_settlements_app (p : nat) (a b : list Effect) :
  settlements p (a ++ b) = settlements p a ++ settlements p b.
Proof. apply List.filter_app. Qed.

(** A world that differs in what [steady] does not read, or reads only
    through a log that has grown by calls that settle nothing. *)
Lemma steady_quiet (w w' : World) (es : list Effect) :
  steady w ->
  isConnected w' = isConnected w -> port w' = port w ->
  connectResolver w' = connectResolver w ->
  connectRejecter w' = connectRejecter w ->
  timers w' = timers w -> nextTimer w' = nextTimer w ->
  reconnectAttempts w' = reconnectAttempts w -> config w' = config w ->
  connectPromise w' = connectPromise w ->
  nextPromise w' = nextPromise w ->
  effects w' = effects w ++ es ->
  (forall p, settlements p es = []) ->
  steady w'.
Proof.
  intros S Hc Hp Hres Hrej Ht Hnt Ha Hcfg Hpr Hnp He Hes.
  destruct S. constructor.
  - now rewrite Hc, Hp.
  - now rewrite Hres.
  - now rewrite Hrej.
  - rewrite Ht, Hnt. assumption.
  - now rewrite Ha, Hcfg.
  - rewrite Hc, Ha. assumption.
  - rewrite Hnp, Hpr. assumption.
  - rewrite Hc, Hpr. assumption.
  - rewrite Hnp, He. intros p Hlt.
    destruct (st_settled0 p Hlt) as [e Hs]. exists e.
    now rewrite chrome_settlements_app, Hs, Hes.
  - rewrite Hnp, He. intros p Hle.
    now rewrite chrome_settlements_app, st_unborn0, Hes.
Qed.

Lemma steady_constructor (o : ChromeTransportOptions)
    (throws : nat -> option string) :
  steady (@constructor Msg o throws).
Proof.
  constructor; simpl; try reflexivity; try discriminate; try lia.
  split; [discriminate | intros [? H]; discriminate H].
Qed.

Lemma handleReconnect_fields (w : World) :
  let w' := handleReconnect w in
  isConnected w' = isConnected w /\ port w' = port w /\
  connectResolver w' = connectResolver w /\
  connectRejecter w' = connectRejecter w /\
  config w' = config w /\ connectPromise w' = connectPromise w /\
  nextPromise w' = nextPromise w /\
  connectCalls w' = connectCalls w /\
  connectThrows w' = connectThrows w /\ nextPort w' = nextPort w /\
  (exists es, effects w' = effects w ++ es /\
     (forall p, settlements p es = []) /\
     connectAttempts es = 0) /\
  ((reconnectAttempts w < maxRetries (config w) /\
    reconnectAttempts w' = S (reconnectAttempts w) /\
    timers w' = timers w ++ [(nextTimer w, Reconnect)] /\
    nextTimer w' = S (nextTimer w)) \/
   (maxRetries (config w) <= reconnectAttempts w /\
    reconnectAttempts w' = reconnectAttempts w /\
    timers w' = timers w /\ nextTimer w' = nextTimer w)).
Proof.
  unfold handleReconnect, logDebug.
  destruct (reconnectAttempts w <? maxRetries (config w))%nat eqn:Hlt.
  - apply Nat.ltb_lt in Hlt.
    destruct (debug (config w)) eqn:Hd; simpl; rewrite ?Hd; simpl;
      repeat (split; [reflexivity|]);
      (split; [|left; repeat split; assumption]);
      rewrite <- ?app_assoc; eexists; (split; [reflexivity|]);
      split; reflexivity.
  - apply Nat.ltb_ge in Hlt.
    destruct (debug (config w)) eqn:Hd; simpl;
      repeat (split; [reflexivity|]);
      (split; [|right; repeat split; assumption]).
    + eexists; (split; [reflexivity|]); split; reflexivity.
    + exists []. rewrite app_nil_r. repeat split.
Qed.

Lemma steady_handleReconnect (w : World) :
  steady w -> isConnected w = false -> steady (handleReconnect w).
Proof.
  intros S Hc.
  destruct (handleReconnect_fields w)
    as (Hco & Hpo & Hres & Hrej & Hcfg & Hpr & Hnp & _ & _ & _ &
        (es & He & Hes & _) & Hcase).
  destruct S. constructor.
  - now rewrite Hco, Hpo.
  - now rewrite Hres.
  - now rewrite Hrej.
  - destruct Hcase as [(_ & _ & -> & ->)|(_ & _ & -> & ->)]; [|assumption].
    intros t a Hin. apply in_app_or in Hin as [Hin|[[= <- <-]|[]]].
    + destruct (st_timers0 t a Hin). split; [assumption | lia].
    + split; [reflexivity | lia].
  - rewrite Hcfg.
    destruct Hcase as [(Hlt & -> & _)|(_ & -> & _)]; [lia | assumption].
  - rewrite Hco, Hc. discriminate.
  - rewrite Hpr, Hnp. assumption.
  - rewrite Hco, Hc. discriminate.
  - rewrite Hnp, He. intros p Hlt. destruct (st_settled0 p Hlt) as [e Hs].
    exists e. now rewrite chrome_settlements_app, Hs, Hes.
  - rewrite Hnp, He. intros p Hle.
    now rewrite chrome_settlements_app, st_unborn0, Hes.
Qed.

Lemma steady_setConnectPromise (w : World) (p : nat) :
  steady w -> p < nextPromise w -> steady (setConnectPromise (Some p) w).
Proof.
  intros [] Hp. constructor; cbn; try assumption.
  - intros q [= <-]. exact Hp.
  - intros _. now eexists.
Qed.

Lemma disarm_fresh (t : nat) (a : TimerAction) (ts : list (nat * TimerAction)) :
  (forall t' a', In (t', a') ts -> t' < t) ->
  List.filter (fun x => negb (Nat.eqb (fst x) t)) (ts ++ [(t, a)]) = ts.
Proof.
  intros Hlt. rewrite List.filter_app. simpl. rewrite Nat.eqb_refl. simpl.
  rewrite app_nil_r. induction ts as [|[t' a'] ts IH]; simpl; [reflexivity|].
  assert (t' <> t) as Hne by (specialize (Hlt t' a' (or_introl eq_refl)); lia).
  apply Nat.eqb_neq in Hne. rewrite Hne. simpl. f_equal.
  apply IH. intros t'' a'' Hin. apply (Hlt t'' a''). now right.
Qed.

Lemma steady_connect (w : World) : steady w -> steady (snd (connect w)).
Proof.
  intros St. unfold connect.
  destruct (isConnected w && bool_decide (is_Some (port w))) eqn:Hg;
    [exact St|].
  destruct (connectPromise w) as [q|] eqn:Hp; [exact St|].
  assert (isConnected w = false) as Hc.
  { destruct (isConnected w) eqn:E; [|reflexivity].
    rewrite bool_decide_eq_true_2 in Hg; [discriminate|].
    now apply (st_port w St). }
  pose proof (st_timers w St) as Htimers.
  pose proof (st_settled w St) as Hsettled.
  pose proof (st_unborn w St) as Hunborn.
  assert (forall p, nextPromise w <> p ->
            Nat.eqb (nextPromise w) p = false) as Hneq
    by (intros p H; now apply Nat.eqb_neq).
  cbn. destruct (connectThrows w (connectCalls w)) as [err|].
  - assert (steady
              (cleanupConnectionPromise
                 (emit (CallReject (nextPromise w) err)
                    (clearTimeout (nextTimer w)
                       (emit (RuntimeConnect
                                (extensionId (config w) ≫= (fun e =>
                                   if Js.truthy e then Some e else None))
                                (connectionName (config w)))
                          (setConnectCalls (S (connectCalls w))
                             (snd (setTimeout ConnectionTimeout
                                     (connectTimeoutMs (config w))
                                     (setConnectRejecter (Some (nextPromise w))
                                        (setConnectResolver (Some (nextPromise w))
                                           (setNextPromise (S (nextPromise w))
                                              w))))))))))) as S5.
    { destruct St. constructor; cbn.
      - assumption.
      - reflexivity.
      - reflexivity.
      - rewrite disarm_fresh by (intros t' a' H; now apply (Htimers t' a')).
        intros t a Hin. destruct (Htimers t a Hin). split; [assumption | lia].
      - assumption.
      - assumption.
      - discriminate.
      - rewrite Hc. discriminate.
      - intros p Hlt. unfold settlements in *.
        rewrite !List.filter_app. cbn.
        destruct (Nat.eq_dec (nextPromise w) p) as [<-|Hne].
        + rewrite Nat.eqb_refl, Hunborn by lia. eexists. reflexivity.
        + destruct (Hsettled p) as [e He]; [lia|].
          rewrite (Hneq p Hne), He. now exists e.
      - intros p Hle. unfold settlements in *.
        rewrite !List.filter_app. cbn. rewrite Hunborn by lia.
        rewrite Hneq by lia. reflexivity. }
    apply steady_setConnectPromise.
    + destruct (reconnect (config w)); [|exact S5].
      apply steady_handleReconnect; [exact S5 | exact Hc].
    + destruct (reconnect (config w)); cbn;
        [rewrite (proj1 (proj2 (proj2 (proj2 (proj2 (proj2 (proj2
                    (handleReconnect_fields _)))))))); cbn|]; lia.
  - destruct St. constructor; cbn.
    + split; [intros _; now eexists | reflexivity].
    + reflexivity.
    + reflexivity.
    + rewrite disarm_fresh by (intros t' a' H; now apply (Htimers t' a')).
      intros t a Hin. destruct (Htimers t a Hin). split; [assumption | lia].
    + lia.
    + reflexivity.
    + intros p [= <-]. lia.
    + intros _. now eexists.
    + intros p Hlt. unfold settlements in *.
      rewrite !List.filter_app. cbn.
      destruct (Nat.eq_dec (nextPromise w) p) as [<-|Hne].
      * rewrite Nat.eqb_refl, Hunborn by lia. eexists. reflexivity.
      * destruct (Hsettled p) as [e He]; [lia|].
        rewrite (Hneq p Hne), He. now exists e.
    + intros p Hle. unfold settlements in *.
      rewrite !List.filter_app. cbn. rewrite Hunborn by lia.
      rewrite Hneq by lia. reflexivity.
Qed.

Lemma steady_logDebug (n : DebugNote) (w : World) :
  steady w -> steady (logDebug n w).
Proof.
  intros St. unfold logDebug. destruct (debug (config w)); [|exact St].
  now apply (steady_quiet w _ [ConsoleLog n]); auto.
Qed.

Lemma steady_disconnect (w : World) : steady w -> steady (disconnect w).
Proof.
  intros St. unfold disconnect.
  destruct (port w) as [q|] eqn:Hq; destruct St; unfold settlements in *;
    constructor; cbn; rewrite ?Hq;
    try assumption; try reflexivity; try discriminate;
    try (split; [discriminate | intros [? H]; discriminate H]);
    intros p Hp; rewrite List.filter_app; cbn; rewrite app_nil_r; auto.
Qed.

Lemma steady_handleDisconnection (w : World) :
  steady w -> steady (handleDisconnection w).
Proof.
  intros St. unfold handleDisconnection.
  assert (steady (setPort None (setIsConnected false w))) as S1.
  { destruct St. constructor; cbn; try assumption; try discriminate.
    split; [discriminate | intros [? H]; discriminate H]. }
  destruct (isConnected w && reconnect (config (setPort None (setIsConnected false w))));
    [|exact S1].
  now apply steady_handleReconnect.
Qed.

Lemma steady_send (w : World) (m : Msg) (postThrows : option string) :
  steady w -> steady (snd (send w m postThrows)).
Proof.
  intros St. unfold send.
  destruct (port w) as [p|] eqn:Hp; [|exact St].
  destruct (isConnected w) eqn:Hc; [|exact St].
  assert (steady (emit (PortPostMessage p m) w)) as S1
    by now apply (steady_quiet w _ [PortPostMessage p m]); auto.
  destruct postThrows as [err|]; [|exact S1].
  cbn [snd]. now apply steady_handleDisconnection, steady_logDebug.
Qed.

Lemma steady_fireTimer (w : World) (t : nat) :
  steady w -> steady (fireTimer w t).
Proof.
  intros St. unfold fireTimer.
  destruct (List.find (fun x => Nat.eqb (fst x) t) (timers w))
    as [[t' a]|] eqn:Hfind; [|exact St].
  apply List.find_some in Hfind as [Hin _].
  destruct (st_timers w St t' a Hin) as [-> _].
  assert (steady (setTimers
                    (List.filter (fun x => negb (Nat.eqb (fst x) t)) (timers w))
                    w)) as S1.
  { destruct St. constructor; cbn; try assumption.
    intros t0 a0 H. apply List.filter_In in H as [H _]. now apply st_timers0. }
  pose proof (steady_connect _ S1) as S2.
  destruct (connect _) as [r w2]. cbn [snd] in S2.
  destruct r as [|p]; [exact S2|].
  destruct (promiseState p (effects w2)) as [[]|]; try exact S2.
  now apply steady_logDebug.
Qed.

Lemma steady_step (w : World) (ev : Event) : steady w -> steady (step w ev).
Proof.
  intros St. destruct ev; cbn [step].
  - now apply steady_connect.
  - now apply steady_disconnect.
  - now apply steady_send.
  - now apply steady_handleDisconnection.
  - now apply steady_fireTimer.
Qed.

Lemma reachable_steady (w : World) : reachable w -> steady w.
Proof.
  induction 1 as [o throws|w ev _ IH].
  - apply steady_constructor.
  - now apply steady_step.
Qed.

Lemma connect_stores (w : World) (p : nat) :
  fst (connect w) = Adopts p -> connectPromise (snd (connect w)) = Some p.
Proof.
  unfold connect.
  destruct (isConnected w && bool_decide (is_Some (port w))); [discriminate|].
  destruct (connectPromise w) as [q|] eqn:Hq.
  - intros [= <-]. exact Hq.
  - cbn. intros [= <-]. reflexivity.
Qed.

Lemma settled_state (p : nat) (es : list Effect) (e : Effect) :
  settlements p es = [e] ->
  promiseState p es = Some e /\
  (e = CallResolve p \/ exists err, e = CallReject p err).
Proof.
  intros H. unfold promiseState. unfold settlements in H. rewrite H.
  split; [reflexivity|].
  assert (In e (List.filter (settles p) es)) as Hin by (rewrite H; now left).
  apply List.filter_In in Hin as [_ Hs].
  destruct e; try discriminate Hs; apply Nat.eqb_eq in Hs; subst; eauto.
Qed.


(** X17: the promises of [connect].  Every promise that [connect] has
    made is settled, by exactly one call of its [resolve] or [reject],
    before [connect] returns; so the promise kept in [connectPromise] is
    never pending, and a call of [connect] that returns a promise returns a
    settled one: a caller can never join an attempt that is under way. *)
Theorem X17_connect_promises_settled (w : World) :
  reachable w ->
  (forall p, p < nextPromise w ->
     exists e, settlements p (effects w) = [e] /\
       promiseState p (effects w) = Some e /\
       (e = CallResolve p \/ exists err, e = CallReject p err)) /\
  (forall p, connectPromise w = Some p ->
     exists e, promiseState p (effects w) = Some e) /\
  (forall p, fst (connect w) = Adopts p ->
     exists e, promiseState p (effects (snd (connect w))) = Some e /\
       (e = CallResolve p \/ exists err, e = CallReject p err)).
Proof.
  intros R. pose proof (reachable_steady w R) as St.
  split; [|split].
  - intros p Hlt. destruct (st_settled w St p Hlt) as [e He].
    exists e. split; [exact He|]. now apply settled_state.
  - intros p Hp. destruct (st_settled w St p (st_promise w St p Hp)) as [e He].
    exists e. now apply settled_state.
  - intros p Hp. pose proof (steady_connect w St) as St'.
    apply connect_stores in Hp.
    destruct (st_settled _ St' p (st_promise _ St' p Hp)) as [e He].
    exists e. now apply settled_state.
Qed.

(** *** Reconnecting after the other side has closed the port *)














End Reconnection.

(** ** Runs of the reconnection controller *)

Section ReconnectionRuns.
Import ChromeTransport ChromeReach Scenarios.
#[local] Open Scope list_scope.


Lemma X17_connect_promises_settled_witness :
  let w := run (@constructor unit backoffOptions refused) [EvConnect] in
  (forall p, p < nextPromise w ->
     exists e, settlements p (effects w) = [e] /\
       promiseState p (effects w) = Some e /\
       (e = CallResolve p \/ exists err, e = CallReject p err)) /\
  (forall p, connectPromise w = Some p ->
     exists e, promiseState p (effects w) = Some e) /\
  (forall p, fst (connect w) = Adopts p ->
     exists e, promiseState p (effects (snd (connect w))) = Some e /\
       (e = CallResolve p \/ exists err, e = CallReject p err)).
Proof.
  apply X17_connect_promises_settled.
  exact (after _ EvConnect (start backoffOptions refused)).
Defined.


End ReconnectionRuns.

(** ** Events and requests over the port *)

Section Routing.
Import ChromeRouter.
Context {Payload : Type}.

#[local] Open Scope list_scope.
#[local] Arguments String.append : simpl nomatch.

#[local] Abbreviation Router := (@Router Payload).
#[local] Abbreviation Message := (@Message Payload).
#[local] Abbreviation Call := (@Call Payload).
#[local] Abbreviation Host := (@Host Payload).
#[local] Abbreviation Op := (@Op Payload).

Lemma set_absent {V : Type} (k : string) (v : V) (m : Js.JsMap V) :
  Js.get k m = None -> Js.set k v m = m ++ [(k, v)].
Proof.
  induction m as [|[k' v'] m IH]; simpl; [reflexivity|].
  destruct (String.eqb k k'); [discriminate|].
  intros H. now rewrite IH.
Qed.

Lemma delete_last {V : Type} (k : string) (v : V) (m : Js.JsMap V) :
  Js.get k m = None -> Js.delete k (m ++ [(k, v)]) = m.
Proof.
  induction m as [|[k' v'] m IH]; simpl.
  - now rewrite String.eqb_refl.
  - destruct (String.eqb k k'); [discriminate|].
    intros H. now rewrite IH.
Qed.

Lemma set_set {V : Type} (k : string) (v v' : V) (m : Js.JsMap V) :
  Js.set k v (Js.set k v' m) = Js.set k v m.
Proof.
  induction m as [|[k0 v0] m IH]; simpl.
  - now rewrite String.eqb_refl.
  - destruct (String.eqb k k0) eqn:E; simpl; rewrite E; [reflexivity|].
    now rewrite IH.
Qed.

Lemma set_same {V : Type} (k : string) (v : V) (m : Js.JsMap V) :
  Js.get k m = Some v -> Js.set k v m = m.
Proof.
  induction m as [|[k0 v0] m IH]; simpl; [discriminate|].
  destruct (String.eqb k k0) eqn:E.
  - intros [= ->]. reflexivity.
  - intros H. now rewrite IH.
Qed.

Lemma remove_fresh (k h : nat) (hs : list (nat * nat)) :
  (forall k' h', In (k', h') hs -> k' < k) ->
  remove k (hs ++ [(k, h)]) = hs.
Proof.
  intros Hlt. unfold remove. rewrite List.filter_app. simpl.
  rewrite Nat.eqb_refl. simpl. rewrite app_nil_r.
  induction hs as [|[k' h'] hs IH]; simpl; [reflexivity|].
  assert (k' <> k) as Hne by (specialize (Hlt k' h' (or_introl eq_refl)); lia).
  apply Nat.eqb_neq in Hne. rewrite Hne. simpl. f_equal.
  apply IH. intros k'' h'' Hin. apply (Hlt k'' h''). now right.
Qed.

Lemma remove_absent (k : nat) (hs : list (nat * nat)) :
  (forall k' h', In (k', h') hs -> k' <> k) -> remove k hs = hs.
Proof.
  intros Hne. unfold remove.
  induction hs as [|[k' h'] hs IH]; simpl; [reflexivity|].
  assert (k' <> k) as H by (apply (Hne k' h'); now left).
  apply Nat.eqb_neq in H. rewrite H. simpl. f_equal.
  apply IH. intros k'' h'' Hin. apply (Hne k'' h''). now right.
Qed.

(** *** Every router is tidy *)

Lemma tidy_frame (r r' : Router) :
  tidy r -> eventHandlers r' = eventHandlers r ->
  requestHandlers r' = requestHandlers r -> nextWrapper r' = nextWrapper r ->
  tidy r'.
Proof.
  intros [] He Hr Hn. constructor; rewrite ?He, ?Hr, ?Hn; assumption.
Qed.

Lemma subscribe_handlers (r : Router) (t : string) (h : nat) :
  fst (subscribe r t h) = nextWrapper r /\
  nextWrapper (snd (subscribe r t h)) = S (nextWrapper r) /\
  requestHandlers (snd (subscribe r t h)) = requestHandlers r /\
  eventHandlers (snd (subscribe r t h)) =
    Js.set t (default [] (Js.get t (eventHandlers r)) ++ [(nextWrapper r, h)])
           (eventHandlers r).
Proof.
  unfold subscribe. destruct (Js.get t (eventHandlers r)) as [hs|] eqn:Hget.
  - cbn. rewrite Hget. repeat split.
  - cbn. rewrite get_set_eq, set_set. repeat split.
Qed.

Lemma tidy_subscribe (r : Router) (t : string) (h : nat) :
  tidy r -> tidy (snd (subscribe r t h)).
Proof.
  intros [Hk Hs Hw Hr].
  destruct (subscribe_handlers r t h) as (_ & Hn & Hreq & He).
  constructor; rewrite ?He, ?Hn, ?Hreq.
  - now apply set_keys_NoDup.
  - intros t' hs Hin. apply set_In in Hin as [[= -> ->]|Hin]; [|eauto].
    now destruct (default [] (Js.get t (eventHandlers r))).
  - intros t' hs k h' Hin Hk'. apply set_In in Hin as [[= -> ->]|Hin].
    + apply in_app_or in Hk' as [Hk'|[[= <- <-]|[]]]; [|lia].
      destruct (Js.get t (eventHandlers r)) as [hs|] eqn:Hget; [|destruct Hk'].
      apply get_In in Hget. specialize (Hw t hs k h' Hget Hk'). lia.
    + specialize (Hw t' hs k h' Hin Hk'). lia.
  - assumption.
Qed.

Lemma tidy_unsubscribe (r : Router) (t : string) (k : nat) :
  tidy r -> tidy (unsubscribe r t k).
Proof.
  intros T. pose proof T as [Hk Hs Hw Hr]. unfold unsubscribe.
  destruct (Js.get t (eventHandlers r)) as [hs|] eqn:Hget; [|exact T].
  apply get_In in Hget.
  destruct (Nat.eqb (List.length (remove k hs)) 0) eqn:Hlen; constructor; cbn.
  - now apply delete_NoDup.
  - intros t' hs' Hin. apply delete_In in Hin. eauto.
  - intros t' hs' k' h' Hin. apply delete_In in Hin. eauto.
  - assumption.
  - now apply set_keys_NoDup.
  - intros t' hs' Hin. apply set_In in Hin as [[= -> ->]|Hin]; [|eauto].
    intros E. rewrite E in Hlen. discriminate Hlen.
  - intros t' hs' k' h' Hin Hk'. apply set_In in Hin as [[= -> ->]|Hin];
      [|eauto].
    apply List.filter_In in Hk' as [Hk' _]. eauto.
  - assumption.
Qed.

Lemma same_refl (r : Router) : sameHandlers r r.
Proof. repeat split. Qed.

Lemma same_trans (a b c : Router) :
  sameHandlers a b -> sameHandlers b c -> sameHandlers a c.
Proof.
  intros (H1 & H2 & H3 & H4) (G1 & G2 & G3 & G4).
  repeat split; congruence.
Qed.

Lemma same_log (c : Call) (r : Router) : sameHandlers r (log c r).
Proof. repeat split. Qed.

Lemma same_logDebug (n : Note) (r : Router) : sameHandlers r (logDebug n r).
Proof.
  unfold logDebug. destruct (ChromeTransport.debug _); repeat split.
Qed.

Lemma same_send (r : Router) (m : Message) (post : option string) :
  sameHandlers r (snd (send r m post)).
Proof.
  unfold send. destruct (ChromeTransport.send (transport r) m post).
  repeat split.
Qed.

Lemma same_callEventHandlers (host : Host) (e : string) (p : option Payload)
    (hs : list (nat * nat)) (r : Router) :
  sameHandlers r (fold_left (callEventHandler host e p) hs r).
Proof.
  revert r; induction hs as [|h hs IH]; intros r; simpl; [apply same_refl|].
  eapply same_trans; [|apply IH]. unfold callEventHandler.
  destruct (eventThrows host (fst h)); [|apply same_log].
  eapply same_trans; [apply same_log | apply same_logDebug].
Qed.

Lemma same_answerError (host : Host) (r : Router) (t id : string)
    (e : HandlerError) :
  sameHandlers r (snd (answerError host r t id e)).
Proof.
  unfold answerError.
  pose proof (same_send (logDebug (RequestHandlerFailed t) r)
                {| type := Some (t ++ "_response")%string; payload := None;
                   requestId := Some id; error := Some e |} (postError host))
    as H.
  destruct (send _ _ _) as [[|err] r2]; cbn [snd] in *;
    (eapply same_trans; [apply same_logDebug | exact H]).
Qed.

Lemma same_answer (host : Host) (r : Router) (t id : string)
    (result : option Payload) :
  sameHandlers r
    (snd (match send r {| type := Some (t ++ "_response")%string;
                          payload := result; requestId := Some id;
                          error := None |} (postResult host) with
          | (ChromeTransport.Sent, r3) => (Fulfilled, r3)
          | (ChromeTransport.Thrown err, r3) =>
              answerError host r3 t id
                {| heMessage := Some err; heStack := sendStack host |}
          end)).
Proof.
  pose proof (same_send r {| type := Some (t ++ "_response")%string;
                             payload := result; requestId := Some id;
                             error := None |} (postResult host)) as H.
  destruct (send _ _ _) as [[|err] r3]; cbn [snd] in *; [exact H|].
  eapply same_trans; [exact H | apply same_answerError].
Qed.

Lemma handleMessage_frame (r : Router) (m : Message) (host : Host) :
  sameHandlers r (snd (handleMessage r m host)).
Proof.
  unfold handleMessage.
  set (r1 := match messageCallback r with
             | Some callback => log (MessageCallback callback m) r
             | None => r
             end).
  assert (sameHandlers r r1) as H1
    by (unfold r1; destruct (messageCallback r); [apply same_log | apply same_refl]).
  assert (sameHandlers r
            (snd (match truthyOpt (type m) with
                  | Some t =>
                      if Js.startsWith t "event:"
                      then
                        match Js.get (substring6 t) (eventHandlers r1) with
                        | Some handlers =>
                            (Fulfilled,
                             fold_left
                               (callEventHandler host (substring6 t) (payload m))
                               handlers r1)
                        | None => (Fulfilled, r1)
                        end
                      else
                        match truthyOpt (requestId m) with
                        | Some id =>
                            if Js.endsWith t "_response" then (Fulfilled, r1)
                            else
                              match Js.get t (requestHandlers r1) with
                              | Some handler =>
                                  match outcome host with
                                  | inl result =>
                                      match
                                        send (log (RequestHandler handler
                                                     (payload m) id) r1)
                                          {| type := Some (t ++ "_response")%string;
                                             payload := result;
                                             requestId := Some id;
                                             error := None |} (postResult host)
                                      with
                                      | (ChromeTransport.Sent, r3) =>
                                          (Fulfilled, r3)
                                      | (ChromeTransport.Thrown err, r3) =>
                                          answerError host r3 t id
                                            {| heMessage := Some err;
                                               heStack := sendStack host |}
                                      end
                                  | inr e =>
                                      answerError host
                                        (log (RequestHandler handler
                                                (payload m) id) r1)
                                        t id e
                                  end
                              | None => (Fulfilled, r1)
                              end
                        | None => (Fulfilled, r1)
                        end
                  | None => (Fulfilled, r1)
                  end))) as Hrest.
  { destruct (truthyOpt (type m)) as [t|]; [|exact H1].
    destruct (Js.startsWith t "event:").
    - destruct (Js.get (substring6 t) (eventHandlers r1)) as [hs|]; [|exact H1].
      eapply same_trans; [exact H1 | apply same_callEventHandlers].
    - destruct (truthyOpt (requestId m)) as [id|]; [|exact H1].
      destruct (Js.endsWith t "_response"); [exact H1|].
      destruct (Js.get t (requestHandlers r1)) as [handler|]; [|exact H1].
      destruct (outcome host) as [result|e].
      + eapply same_trans; [exact H1|].
        eapply same_trans; [apply same_log | apply same_answer].
      + eapply same_trans; [exact H1|].
        eapply same_trans; [apply same_log | apply same_answerError]. }
  destruct (messageCallback r); [|exact Hrest].
  destruct (callbackThrows host); [exact H1 | exact Hrest].
Qed.

Lemma tidy_apply (r : Router) (op : Op) : tidy r -> tidy (apply r op).
Proof.
  intros T. destruct op; cbn [apply].
  - now apply (tidy_frame r).
  - now apply tidy_subscribe.
  - now apply tidy_unsubscribe.
  - destruct T. constructor; cbn; try assumption. now apply set_keys_NoDup.
  - destruct T. constructor; cbn; try assumption. now apply delete_NoDup.
  - unfold publish.
    destruct (same_send r {| type := Some ("event:" ++ eventType)%string;
                             payload := p; requestId := None; error := None |}
                postThrows) as (H1 & H2 & H3 & _).
    now apply (tidy_frame r).
  - destruct (handleMessage_frame r message host) as (H1 & H2 & H3 & _).
    now apply (tidy_frame r).
  - now apply (tidy_frame r).
Qed.

Lemma reachable_tidy (r : Router) : reachable r -> tidy r.
Proof.
  induction 1 as [o throws|r op _ IH].
  - constructor; cbn; try constructor; intros; contradiction.
  - now apply tidy_apply.
Qed.

(** *** Subscriptions *)

Lemma setEventHandlers_same (r : Router) :
  setEventHandlers (eventHandlers r) r = r.
Proof. now destruct r. Qed.

(** X19: subscribing and unsubscribing.  [subscribe] adds the handler
    after those already subscribed to the event type and leaves the other
    event types alone; calling the function it returns puts the map of
    event handlers back exactly as it was before, with no empty set left
    behind, and calling it a second time changes nothing. *)
Theorem X19_subscribe_unsubscribe (r : Router) (t : string) (h : nat) :
  reachable r ->
  let k := fst (subscribe r t h) in
  let r1 := snd (subscribe r t h) in
  Js.get t (eventHandlers r1) =
    Some (default [] (Js.get t (eventHandlers r)) ++ [(k, h)]) /\
  (forall t', t' <> t ->
     Js.get t' (eventHandlers r1) = Js.get t' (eventHandlers r)) /\
  eventHandlers (unsubscribe r1 t k) = eventHandlers r /\
  unsubscribe (unsubscribe r1 t k) t k = unsubscribe r1 t k.
Proof.
  intros R k r1. pose proof (reachable_tidy r R) as [Hk Hs Hw Hr].
  destruct (subscribe_handlers r t h) as (Hfst & Hn & _ & He).
  fold k in Hfst. fold r1 in Hn, He. clearbody k r1. subst k.
  assert (Js.get t (eventHandlers r1) =
          Some (default [] (Js.get t (eventHandlers r)) ++ [(nextWrapper r, h)]))
    as Hget by (rewrite He; apply get_set_eq).
  assert (remove (nextWrapper r)
            (default [] (Js.get t (eventHandlers r)) ++ [(nextWrapper r, h)]) =
          default [] (Js.get t (eventHandlers r))) as Hrem.
  { apply remove_fresh. intros k' h' Hin.
    destruct (Js.get t (eventHandlers r)) as [hs|] eqn:E; [|destruct Hin].
    apply get_In in E. now apply (Hw t hs k' h'). }
  assert (eventHandlers (unsubscribe r1 t (nextWrapper r)) = eventHandlers r)
    as Hback.
  { unfold unsubscribe. rewrite Hget, Hrem.
    destruct (Js.get t (eventHandlers r)) as [hs|] eqn:E; cbn [default].
    - assert (hs <> []) as Hne by (apply get_In in E; now apply (Hs t hs)).
      destruct hs as [|x hs]; [now destruct Hne|]. cbn.
      now rewrite He, set_set, set_same.
    - cbn. rewrite He. cbn. rewrite (set_absent _ _ _ E). now apply delete_last. }
  split; [exact Hget|]. split.
  { intros t' Hne. rewrite He. now apply get_set_other. }
  split; [exact Hback|].
  set (r2 := unsubscribe r1 t (nextWrapper r)) in *.
  unfold unsubscribe at 1. rewrite Hback.
  destruct (Js.get t (eventHandlers r)) as [hs|] eqn:E; [|reflexivity].
  assert (remove (nextWrapper r) hs = hs) as ->.
  { apply remove_absent. intros k' h' Hin. apply get_In in E.
    specialize (Hw t hs k' h' E Hin). lia. }
  assert (hs <> []) as Hne by (apply get_In in E; now apply (Hs t hs)).
  destruct hs as [|x hs]; [now destruct Hne|]. cbn [List.length Nat.eqb].
  rewrite (set_same _ _ _ E), <- Hback. apply setEventHandlers_same.
Qed.

(** X22: the registry of request handlers.  A type has one handler, the
    one registered last; the function that [registerRequestHandler]
    returns removes whatever handler the type has when it is called, so
    the function of a registration that has been replaced removes the
    handler that replaced it; other types are not touched. *)
Theorem X22_request_handler_registry (r : Router) (t : string) (h h' : nat) :
  reachable r ->
  Js.get t (requestHandlers (registerRequestHandler r t h)) = Some h /\
  Js.get t (requestHandlers
              (registerRequestHandler (registerRequestHandler r t h) t h')) =
    Some h' /\
  Js.get t (requestHandlers
              (unregister
                 (registerRequestHandler (registerRequestHandler r t h) t h')
                 t)) = None /\
  (forall t', t' <> t ->
     Js.get t' (requestHandlers (registerRequestHandler r t h)) =
       Js.get t' (requestHandlers r) /\
     Js.get t' (requestHandlers (unregister r t)) =
       Js.get t' (requestHandlers r)).
Proof.
  intros R. pose proof (tidy_requests r (reachable_tidy r R)) as Hnd.
  cbn. split; [apply get_set_eq|]. split; [apply get_set_eq|]. split.
  - apply get_delete. now apply set_keys_NoDup, set_keys_NoDup.
  - intros t' Hne. split; [now apply get_set_other | now apply get_delete_other].
Qed.

(** *** Events *)

Lemma event_type_prefixed (e : string) :
  truthyOpt (Some ("event:" ++ e)%string) = Some ("event:" ++ e)%string /\
  Js.startsWith ("event:" ++ e)%string "event:" = true /\
  substring6 ("event:" ++ e)%string = e.
Proof.
  split; [reflexivity|]. split.
  - apply startsWith_iff. now exists e.
  - unfold substring6.
    change 6 with (String.length "event:") at 1.
    rewrite substring_skip_app, string_length_app. cbn [String.length].
    replace (6 + String.length e - 6) with (String.length e) by lia.
    apply substring_0_all.
Qed.

Lemma eventCalls_app (a b : list Call) :
  eventCalls (a ++ b) = eventCalls a ++ eventCalls b.
Proof. apply omap_app. Qed.

Lemma requestCalls_app (a b : list Call) :
  requestCalls (a ++ b) = requestCalls a ++ requestCalls b.
Proof. apply omap_app. Qed.

Lemma callEventHandlers_calls (host : Host) (e : string) (p : option Payload)
    (hs : list (nat * nat)) (r : Router) :
  let r' := fold_left (callEventHandler host e p) hs r in
  transport r' = transport r /\
  exists cs, calls r' = calls r ++ cs /\
    eventCalls cs = map (fun wh => (snd wh, p)) hs /\ requestCalls cs = [].
Proof.
  revert r; induction hs as [|h hs IH]; intros r; simpl.
  - split; [reflexivity|]. exists []. now rewrite app_nil_r.
  - destruct (IH (callEventHandler host e p r h)) as (Ht & cs & Hc & He & Hr).
    rewrite Ht, Hc. unfold callEventHandler, logDebug.
    destruct (eventThrows host (fst h)); cbn [log transport calls];
      [destruct (ChromeTransport.debug _); cbn [log transport calls]|];
      (split; [reflexivity|]); rewrite <- ?app_assoc; eexists;
      (split; [reflexivity|]);
      rewrite ?eventCalls_app, ?requestCalls_app, He, Hr; now cbn.
Qed.

Lemma callback_calls (r : Router) (m : Message) :
  let r1 := match messageCallback r with
            | Some callback => log (MessageCallback callback m) r
            | None => r
            end in
  transport r1 = transport r /\ eventHandlers r1 = eventHandlers r /\
  requestHandlers r1 = requestHandlers r /\
  exists cs, calls r1 = calls r ++ cs /\ eventCalls cs = [] /\
             requestCalls cs = [].
Proof.
  destruct (messageCallback r); cbn; repeat (split; [reflexivity|]).
  - eexists. now split.
  - exists []. now rewrite app_nil_r.
Qed.

Lemma posted_app (a b : list (@ChromeTransport.Effect Message)) :
  posted (a ++ b) = posted a ++ posted b.
Proof. apply omap_app. Qed.

Lemma send_connected (r : Router) (m : Message) (port : nat) :
  ChromeTransport.port (transport r) = Some port ->
  ChromeTransport.isConnected (transport r) = true ->
  send r m None =
    (ChromeTransport.Sent,
     setTransport (ChromeTransport.emit (ChromeTransport.PortPostMessage port m)
                                        (transport r)) r).
Proof.
  intros Hp Hc. unfold send, ChromeTransport.send. now rewrite Hp, Hc.
Qed.


(** X20: an event from [publish] to the subscribers.  On a connected
    transport [publish(eventType, payload)] writes one message to the port,
    of type ["event:" ++ eventType]; and [handleMessage], given that
    message, calls the handlers subscribed to [eventType], each once, in the
    order of their subscription and with the payload, also when some of
    them throw, calls no request handler and writes nothing to the port. *)
Theorem X20_publish_reaches_subscribers (s r : Router) (e : string)
    (p : option Payload) (port : nat) (host : Host) :
  ChromeTransport.port (transport s) = Some port ->
  ChromeTransport.isConnected (transport s) = true ->
  messageCallback r = None \/ callbackThrows host = None ->
  let m := {| type := Some ("event:" ++ e)%string; payload := p;
              requestId := None; error := None |} in
  fst (publish s e p None) = ChromeTransport.Sent /\
  posted (ChromeTransport.effects (transport (snd (publish s e p None)))) =
    posted (ChromeTransport.effects (transport s)) ++ [m] /\
  fst (handleMessage r m host) = Fulfilled /\
  transport (snd (handleMessage r m host)) = transport r /\
  exists cs,
    calls (snd (handleMessage r m host)) = calls r ++ cs /\
    eventCalls cs =
      map (fun wh => (snd wh, p)) (default [] (Js.get e (eventHandlers r))) /\
    requestCalls cs = [].
Proof.
  intros Hp Hc Hcb m.
  unfold publish. fold m. rewrite (send_connected s m port Hp Hc).
  cbn [fst snd setTransport transport ChromeTransport.emit ChromeTransport.effects].
  split; [reflexivity|]. split; [now rewrite posted_app|].
  unfold handleMessage.
  destruct (callback_calls r m) as (Ht & He & _ & cs0 & Hcs0 & Hev0 & Hrq0).
  set (r1 := match messageCallback r with
             | Some callback => log (MessageCallback callback m) r
             | None => r
             end) in *.
  destruct (event_type_prefixed e) as (Htruthy & Hstarts & Hsub).
  assert (forall x : Settled * Router,
            match messageCallback r, callbackThrows host with
            | Some _, Some err => (Rejected err, r1)
            | _, _ => x
            end = x) as Hskip.
  { intros x. destruct Hcb as [-> | ->]; [reflexivity|].
    now destruct (messageCallback r). }
  rewrite Hskip. cbn [type m]. rewrite Htruthy, Hstarts, Hsub, He.
  destruct (Js.get e (eventHandlers r)) as [hs|]; cbn [fst snd default map].
  - destruct (callEventHandlers_calls host e (payload m) hs r1)
      as (Ht' & cs & Hcs & Hev & Hrq).
    split; [reflexivity|]. split; [now rewrite Ht', Ht|].
    exists (cs0 ++ cs). rewrite Hcs, Hcs0, app_assoc.
    split; [reflexivity|].
    rewrite eventCalls_app, requestCalls_app, Hev0, Hrq0, Hev, Hrq.
    now split.
  - split; [reflexivity|]. split; [exact Ht|]. exists cs0. now split.
Qed.

(** *** Requests *)






End Routing.

(** ** Runs of the router *)

Section RoutingRuns.
Import ChromeRouter Cases.
#[local] Open Scope list_scope.

Lemma X19_subscribe_unsubscribe_witness :
  let r := newRouter in
  let k := fst (subscribe r "saved" 4) in
  let r1 := snd (subscribe r "saved" 4) in
  Js.get "saved" (eventHandlers r1) =
    Some (default [] (Js.get "saved" (eventHandlers r)) ++ [(k, 4)]) /\
  (forall t', t' <> "saved"%string ->
     Js.get t' (eventHandlers r1) = Js.get t' (eventHandlers r)) /\
  eventHandlers (unsubscribe r1 "saved" k) = eventHandlers r /\
  unsubscribe (unsubscribe r1 "saved" k) "saved" k = unsubscribe r1 "saved" k.
Proof.
  apply (X19_subscribe_unsubscribe newRouter "saved" 4).
  apply fresh.
Defined.

Lemma X22_request_handler_registry_witness :
  let r := newRouter in
  Js.get "ping" (requestHandlers (registerRequestHandler r "ping" 1)) = Some 1 /\
  Js.get "ping" (requestHandlers
              (registerRequestHandler (registerRequestHandler r "ping" 1) "ping" 2)) =
    Some 2 /\
  Js.get "ping" (requestHandlers
              (unregister
                 (registerRequestHandler (registerRequestHandler r "ping" 1) "ping" 2)
                 "ping")) = None /\
  (forall t', t' <> "ping"%string ->
     Js.get t' (requestHandlers (registerRequestHandler r "ping" 1)) =
       Js.get t' (requestHandlers r) /\
     Js.get t' (requestHandlers (unregister r "ping")) =
       Js.get t' (requestHandlers r)).
Proof.
  apply (X22_request_handler_registry newRouter "ping" 1 2).
  apply fresh.
Defined.

Lemma X20_publish_reaches_subscribers_witness :
  let s := openRouter in
  let r := snd (subscribe (snd (subscribe newRouter "saved" 4)) "saved" 5) in
  let m := {| type := Some "event:saved"%string; payload := Some tt;
              requestId := None; error := None |} in
  fst (publish s "saved" (Some tt) None) = ChromeTransport.Sent /\
  posted (ChromeTransport.effects
            (transport (snd (publish s "saved" (Some tt) None)))) =
    posted (ChromeTransport.effects (transport s)) ++ [m] /\
  fst (handleMessage r m calmHost) = Fulfilled /\
  transport (snd (handleMessage r m calmHost)) = transport r /\
  exists cs,
    calls (snd (handleMessage r m calmHost)) = calls r ++ cs /\
    eventCalls cs =
      map (fun wh => (snd wh, Some tt))
          (default [] (Js.get "saved" (eventHandlers r))) /\
    requestCalls cs = [].
Proof.
  apply (X20_publish_reaches_subscribers openRouter
           (snd (subscribe (snd (subscribe newRouter "saved" 4)) "saved" 5))
           "saved" (Some tt) 0 calmHost).
  - reflexivity.
  - reflexivity.
  - left. reflexivity.
Defined.


End RoutingRuns.

(** ** The broker transport: subjects and connections *)

Section Broker.
Import NatsTransport NatsInbound.
Context {Payload : Type}.

#[local] Open Scope list_scope.
#[local] Arguments String.append : simpl nomatch.

#[local] Abbreviation World := (@World Payload).
#[local] Abbreviation Message := (@Message Payload).
#[local] Abbreviation Effect := (@Effect Payload).










Lemma unsubscribeAll_effects (subs : list nat) (w : World) :
  let w' := fold_left (fun acc s => emit (Unsubscribe s) acc) subs w in
  effects w' = effects w ++ map (fun s => Unsubscribe s) subs /\
  nats w' = nats w /\ connecting w' = connecting w /\
  nextSubscription w' = nextSubscription w /\ config w' = config w.
Proof.
  revert w; induction subs as [|s subs IH]; intros w; simpl.
  - now rewrite app_nil_r.
  - destruct (IH (emit (Unsubscribe s) w)) as (-> & -> & -> & -> & ->).
    cbn. now rewrite <- app_assoc.
Qed.

Lemma closed_app (a b : list Effect) : closed (a ++ b) = closed a ++ closed b.
Proof. apply omap_app. Qed.

Lemma unsubscribed_app (a b : list Effect) :
  unsubscribed (a ++ b) = unsubscribed a ++ unsubscribed b.
Proof. apply omap_app. Qed.

Lemma unsubscribed_all (subs : list nat) :
  unsubscribed (map (fun s => Unsubscribe s) subs : list Effect) = subs /\
  closed (map (fun s => Unsubscribe s) subs : list Effect) = [].
Proof.
  induction subs as [|s subs [IH1 IH2]]; [now split|].
  split.
  - change (unsubscribed (map (fun s => Unsubscribe s) (s :: subs) : list Effect))
      with (s :: unsubscribed (map (fun s => Unsubscribe s) subs : list Effect)).
    now rewrite IH1.
  - exact IH2.
Qed.

Lemma connectFully_spec (w : World) (conn : nat) :
  connected w = false -> connecting w = false ->
  let w1 := connectFully w conn in
  connected w1 = true /\ connecting w1 = false /\ nats w1 = Some conn /\
  config w1 = config w /\
  nextSubscription w1 = S (S (nextSubscription w)) /\
  subscriptions w1 =
    subscriptions w ++ [nextSubscription w; S (nextSubscription w)] /\
  effects w1 =
    effects w ++
    [NatsConnect (servers (config w)) (connectTimeout (config w));
     NatsSubscribe conn ">";
     NatsSubscribe conn (subjectsEvents (config w) ++ ".*")%string;
     NatsStatus conn].
Proof.
  intros Hc Hi. unfold connectFully, connect. rewrite Hc, Hi. cbn.
  rewrite <- !app_assoc. repeat split.
Qed.

Lemma disconnect_spec (w : World) (conn : nat) :
  nats w = Some conn ->
  effects (disconnect w) =
    effects w ++ map (fun s => Unsubscribe s) (subscriptions w) ++
    [NatsClose conn] /\
  subscriptions (disconnect w) = [] /\ nats (disconnect w) = None /\
  connected (disconnect w) = false.
Proof.
  intros Hn. unfold disconnect.
  destruct (unsubscribeAll_effects (subscriptions w) w)
    as (Hfe & Hfn & _).
  set (w3 := fold_left (fun acc s => emit (Unsubscribe s) acc)
                       (subscriptions w) w) in *.
  clearbody w3. cbn [nats setSubscriptions]. rewrite Hfn, Hn.
  cbn [effects setFlags setNats emit setSubscriptions subscriptions nats
       connected].
  rewrite Hfe, <- app_assoc. repeat split.
Qed.

Lemma nats_send_closed (w : World) (m : Message) (t : option string) :
  nats w = None -> send w m t = (Rejected "Transport not connected", w).
Proof. intros H. unfold send. now rewrite H. Qed.

Lemma reconnect_core (w w1 w2 : World) (conn conn' : nat) :
  nats w1 = Some conn -> connected w1 = true ->
  subscriptions w1 =
    subscriptions w ++ [nextSubscription w; S (nextSubscription w)] ->
  effects w1 =
    effects w ++
    [NatsConnect (servers (config w)) (connectTimeout (config w));
     NatsSubscribe conn ">";
     NatsSubscribe conn (subjectsEvents (config w) ++ ".*")%string;
     NatsStatus conn] ->
  connected w2 = true -> nats w2 = Some conn' ->
  subscriptions w2 =
    subscriptions w1 ++ [S (S (nextSubscription w)); S (S (S (nextSubscription w)))] ->
  effects w2 =
    effects w1 ++
    [NatsConnect (servers (config w)) (connectTimeout (config w));
     NatsSubscribe conn' ">";
     NatsSubscribe conn' (subjectsEvents (config w) ++ ".*")%string;
     NatsStatus conn'] ->
  let n := nextSubscription w in
  (connected w1 = true /\ nats w1 = Some conn /\
   subscriptions w1 = subscriptions w ++ [n; S n] /\
   effects w1 =
     effects w ++
     [NatsConnect (servers (config w)) (connectTimeout (config w));
      NatsSubscribe conn ">";
      NatsSubscribe conn (subjectsEvents (config w) ++ ".*")%string;
      NatsStatus conn]) /\
  (isConnected (statusDisconnect w1) = false /\
   nats (statusDisconnect w1) = Some conn /\
   subscriptions (statusDisconnect w1) = subscriptions w1) /\
  (connected w2 = true /\ nats w2 = Some conn' /\
   subscriptions w2 = subscriptions w ++ [n; S n; S (S n); S (S (S n))] /\
   closed (effects w2) = closed (effects w) /\
   unsubscribed (effects w2) = unsubscribed (effects w)) /\
  (closed (effects (disconnect w2)) = closed (effects w) ++ [conn'] /\
   unsubscribed (effects (disconnect w2)) =
     unsubscribed (effects w) ++ subscriptions w2 /\
   subscriptions (disconnect w2) = [] /\ nats (disconnect w2) = None /\
   connected (disconnect w2) = false /\
   forall m t,
     send (disconnect w2) m t =
     (Rejected "Transport not connected", disconnect w2)).
Proof.
  intros Hn1 Hc1 Hs1 He1 Hc2 Hn2 Hs2 He2 n.
  assert (closed (effects w2) = closed (effects w) /\
          unsubscribed (effects w2) = unsubscribed (effects w)) as [Hcl Hun].
  { rewrite He2, He1, !closed_app, !unsubscribed_app. cbn.
    now rewrite !app_nil_r. }
  destruct (disconnect_spec w2 conn' Hn2) as (Hde & Hds & Hdn & Hdc).
  destruct (unsubscribed_all (subscriptions w2)) as [Hu1 Hu2].
  split; [repeat split; assumption|].
  split; [repeat split; assumption|].
  split.
  { split; [exact Hc2|]. split; [exact Hn2|]. split; [|now split].
    rewrite Hs2, Hs1, <- app_assoc. reflexivity. }
  split.
  { rewrite Hde, !closed_app, Hu2, Hcl. reflexivity. }
  split.
  { rewrite Hde, !unsubscribed_app, Hu1, Hun. cbn. now rewrite app_nil_r. }
  split; [exact Hds|]. split; [exact Hdn|]. split; [exact Hdc|].
  intros m t. now apply nats_send_closed.
Qed.

(** X24: the connections of the broker transport.  A [connect] that runs
    to its end leaves the transport connected, with two new subscriptions,
    one to [>] and one to the events.  When the broker reports a disconnect
    the transport counts as not connected and keeps the connection and the
    subscriptions; a [connect] after that opens a second connection and two
    more subscriptions, and neither closes the first connection nor ends
    its subscriptions.  [disconnect] then ends all four subscriptions and
    closes the second connection only: the first is never closed.
    Afterwards nothing is subscribed and [send] fails. *)
Theorem X24_reconnect_keeps_old_connection (w : World) (conn conn' : nat) :
  connected w = false -> connecting w = false ->
  let n := nextSubscription w in
  let w1 := connectFully w conn in
  let w2 := connectFully (statusDisconnect w1) conn' in
  (connected w1 = true /\ nats w1 = Some conn /\
   subscriptions w1 = subscriptions w ++ [n; S n] /\
   effects w1 =
     effects w ++
     [NatsConnect (servers (config w)) (connectTimeout (config w));
      NatsSubscribe conn ">";
      NatsSubscribe conn (subjectsEvents (config w) ++ ".*")%string;
      NatsStatus conn]) /\
  (isConnected (statusDisconnect w1) = false /\
   nats (statusDisconnect w1) = Some conn /\
   subscriptions (statusDisconnect w1) = subscriptions w1) /\
  (connected w2 = true /\ nats w2 = Some conn' /\
   subscriptions w2 = subscriptions w ++ [n; S n; S (S n); S (S (S n))] /\
   closed (effects w2) = closed (effects w) /\
   unsubscribed (effects w2) = unsubscribed (effects w)) /\
  (closed (effects (disconnect w2)) = closed (effects w) ++ [conn'] /\
   unsubscribed (effects (disconnect w2)) =
     unsubscribed (effects w) ++ subscriptions w2 /\
   subscriptions (disconnect w2) = [] /\ nats (disconnect w2) = None /\
   connected (disconnect w2) = false /\
   forall m t,
     send (disconnect w2) m t =
     (Rejected "Transport not connected", disconnect w2)).
Proof.
  intros Hc Hi. cbv zeta.
  destruct (connectFully_spec w conn Hc Hi)
    as (Hc1 & Hi1 & Hn1 & Hcfg1 & Hnext1 & Hs1 & He1).
  revert Hc1 Hi1 Hn1 Hcfg1 Hnext1 Hs1 He1.
  generalize (connectFully w conn). intros w1 Hc1 Hi1 Hn1 Hcfg1 Hnext1 Hs1 He1.
  assert (connected (statusDisconnect w1) = false) as Hd by reflexivity.
  destruct (connectFully_spec (statusDisconnect w1) conn' Hd Hi1)
    as (Hc2 & _ & Hn2 & _ & _ & Hs2 & He2).
  revert Hc2 Hn2 Hs2 He2.
  generalize (connectFully (statusDisconnect w1) conn'). intros w2 Hc2 Hn2 Hs2 He2.
  cbn [statusDisconnect setFlags subscriptions effects config nextSubscription]
    in Hs2, He2.
  rewrite Hnext1 in Hs2. rewrite Hcfg1 in He2.
  exact (reconnect_core w w1 w2 conn conn' Hn1 Hc1 Hs1 He1 Hc2 Hn2 Hs2 He2).
Qed.

End Broker.

(** ** Runs of the broker transport *)

Section BrokerRuns.
Import NatsTransport NatsInbound Scenarios.
#[local] Open Scope list_scope.


Lemma X24_reconnect_keeps_old_connection_witness :
  let w := @constructor unit natsTestOptions in
  let n := nextSubscription w in
  let w1 := connectFully w 0 in
  let w2 := connectFully (statusDisconnect w1) 1 in
  (connected w1 = true /\ nats w1 = Some 0 /\
   subscriptions w1 = subscriptions w ++ [n; S n] /\
   effects w1 =
     effects w ++
     [NatsConnect (servers (config w)) (connectTimeout (config w));
      NatsSubscribe 0 ">";
      NatsSubscribe 0 (subjectsEvents (config w) ++ ".*")%string;
      NatsStatus 0]) /\
  (isConnected (statusDisconnect w1) = false /\
   nats (statusDisconnect w1) = Some 0 /\
   subscriptions (statusDisconnect w1) = subscriptions w1) /\
  (connected w2 = true /\ nats w2 = Some 1 /\
   subscriptions w2 = subscriptions w ++ [n; S n; S (S n); S (S (S n))] /\
   closed (effects w2) = closed (effects w) /\
   unsubscribed (effects w2) = unsubscribed (effects w)) /\
  (closed (effects (disconnect w2)) = closed (effects w) ++ [1] /\
   unsubscribed (effects (disconnect w2)) =
     unsubscribed (effects w) ++ subscriptions w2 /\
   subscriptions (disconnect w2) = [] /\ nats (disconnect w2) = None /\
   connected (disconnect w2) = false /\
   forall m t,
     send (disconnect w2) m t =
     (Rejected "Transport not connected", disconnect w2)).
Proof.
  apply (X24_reconnect_keeps_old_connection (@constructor unit natsTestOptions)
           0 1); reflexivity.
Defined.

End BrokerRuns.
